(** * ImageWrangler: a shallow embedding of the processing core

    The development follows the four library modules of the repository:
    - [BmpEncoder]      (src/lib/bmpEncoder.ts)
    - [FileValidation]  (src/lib/fileValidation.ts)
    - [ImageProcessor]  (src/lib/imageProcessor.ts)
    - [WorkerManager]   (src/lib/workerManager.ts)

    JavaScript numbers that hold sizes, offsets and pixel counts are
    integers ([nat] or [Z]); the requested width and height are numbers
    with their non-finite values ([ImageProcessor.Number]); the other
    numbers that may be fractional (qualities, crop and draw coordinates)
    are rationals ([Q]).  Calls into the browser (decoding, canvas export,
    reading a file, structured clone) are parameters of the sections that
    use them. *)

From Stdlib Require Import ZArith List Lia QArith Qround String Ascii Bool.
From Stdlib Require Import DecimalString Lqa.
From stdpp Require Import base tactics option list.
Import ListNotations.

Local Open Scope Z_scope.

(** ** SecurityConstants (src/lib/types.ts) *)

Module SecurityConstants.
Definition MAX_WIDTH : Z := 15000.
Definition MAX_HEIGHT : Z := 15000.
Definition MAX_PIXELS : Z := 50000000.
Definition MAX_FILE_SIZE : Z := 100 * 1024 * 1024.
End SecurityConstants.

(** A [Blob]: its bytes are kept when the program builds them itself (the
    BMP encoder); an export of the canvas only exposes a size. *)
Record Blob := mkBlob {
  blob_type : string;
  blob_size : Z;
  blob_bytes : list Z
}.

(** [ImageData]: [data] is the Uint8ClampedArray of RGBA samples. *)
Record ImageData := mkImageData {
  id_width : nat;
  id_height : nat;
  id_data : list Z
}.

(** ** bmpEncoder.ts *)

Module BmpEncoder.

(** *** DataView over a zero-initialised ArrayBuffer *)

(** The [n] low bytes of [v], least significant first.  On a negative [v]
    this is the two's complement representation. *)
Fixpoint le_bytes (n : nat) (v : Z) : list Z :=
  match n with
  | O => []
  | S n' => (v mod 256) :: le_bytes n' (v / 256)
  end.

Definition ordered (littleEndian : bool) (bs : list Z) : list Z :=
  if littleEndian then bs else rev bs.

(** A write outside the buffer throws a RangeError: [None]. *)
Definition write (view : list Z) (off : nat) (bs : list Z) : option (list Z) :=
  if decide (off + length bs <= length view)%nat
  then Some (take off view ++ bs ++ drop (off + length bs) view)
  else None.

Definition setUint8 (view : list Z) (off : nat) (v : Z) : option (list Z) :=
  write view off (le_bytes 1 v).
Definition setUint16 (view : list Z) (off : nat) (v : Z) (le : bool) :=
  write view off (ordered le (le_bytes 2 v)).
Definition setUint32 (view : list Z) (off : nat) (v : Z) (le : bool) :=
  write view off (ordered le (le_bytes 4 v)).
Definition setInt32 (view : list Z) (off : nat) (v : Z) (le : bool) :=
  write view off (ordered le (le_bytes 4 v)).

(** [data[i]]: an index past the end reads [undefined], which [setUint8]
    stores as 0. *)
Definition sample (data : list Z) (i : nat) : Z := default 0 (data !! i).

(** [for (let i = 0; i < n; i++) body]: [n] rounds from index [i]. *)
Fixpoint for_loop {St : Type} (n i : nat) (body : nat -> St -> option St)
(s : St) : option St :=
  match n with
  | O => Some s
  | S n' => s' ← body i s; for_loop n' (S i) body s'
  end.

Definition put (v : Z) (s : list Z * nat) : option (list Z * nat) :=
  view' ← setUint8 s.1 s.2 v; Some (view', S s.2).

Definition padding_of (width : nat) : nat := ((4 - (width * 3) mod 4) mod 4)%nat.

Definition pixel_body (width : nat) (data : list Z) (y x : nat)
  (s : list Z * nat) : option (list Z * nat) :=
  let i := ((y * width + x) * 4)%nat in
  s ← put (sample data (i + 2)) s;
  s ← put (sample data (i + 1)) s;
  put (sample data i) s.

Definition row_body (width padding : nat) (data : list Z) (y : nat)
  (s : list Z * nat) : option (list Z * nat) :=
  s ← for_loop width 0 (pixel_body width data y) s;
  for_loop padding 0 (fun _ => put 0) s.

Definition encodeBMP (imageData : ImageData) : option Blob :=
  let width := id_width imageData in
  let height := id_height imageData in
  let data := id_data imageData in
  let padding := padding_of width in
  let fileSize := (54 + (width * 3 + padding) * height)%nat in
  let view := repeat 0 fileSize in
  (* Bitmap file header *)
  view ← setUint16 view 0 0x424D false;
  view ← setUint32 view 2 (Z.of_nat fileSize) true;
  view ← setUint16 view 6 0 true;
  view ← setUint16 view 8 0 true;
  view ← setUint32 view 10 54 true;
  (* BITMAPINFOHEADER *)
  view ← setUint32 view 14 40 true;
  view ← setInt32 view 18 (Z.of_nat width) true;
  view ← setInt32 view 22 (- Z.of_nat height) true;
  view ← setUint16 view 26 1 true;
  view ← setUint16 view 28 24 true;
  view ← setUint32 view 30 0 true;
  view ← setUint32 view 34 0 true;
  view ← setInt32 view 38 2835 true;
  view ← setInt32 view 42 2835 true;
  view ← setUint32 view 46 0 true;
  view ← setUint32 view 50 0 true;
  (* Pixel data *)
  s ← for_loop height 0 (row_body width padding data) (view, 54%nat);
  Some {| blob_type := "image/bmp";
          blob_size := Z.of_nat (length s.1);
          blob_bytes := s.1 |}.

(** *** The file layout, in the words of the format description *)

Definition file_header (fileSize : nat) : list Z :=
  [0x42; 0x4D] ++ le_bytes 4 (Z.of_nat fileSize) ++ [0; 0] ++ [0; 0]
  ++ le_bytes 4 54.

Definition info_header (width height : nat) : list Z :=
  le_bytes 4 40 ++ le_bytes 4 (Z.of_nat width) ++ le_bytes 4 (- Z.of_nat height)
  ++ le_bytes 2 1 ++ le_bytes 2 24 ++ le_bytes 4 0 ++ le_bytes 4 0
  ++ le_bytes 4 2835 ++ le_bytes 4 2835 ++ le_bytes 4 0 ++ le_bytes 4 0.

(** Channel [c] (0 red, 1 green, 2 blue, 3 alpha) of pixel [(x, y)]. *)
Definition channel (img : ImageData) (x y c : nat) : Z :=
  sample (id_data img) ((y * id_width img + x) * 4 + c).

Definition bgr_pixel (img : ImageData) (y x : nat) : list Z :=
  [channel img x y 2; channel img x y 1; channel img x y 0].

Definition bmp_row (img : ImageData) (y : nat) : list Z :=
  flat_map (bgr_pixel img y) (seq 0 (id_width img))
  ++ repeat 0 (padding_of (id_width img)).

Definition bmp_rows (img : ImageData) : list Z :=
  flat_map (bmp_row img) (seq 0 (id_height img)).

(** Reading a little-endian field back: unsigned, and as Int32. *)
Fixpoint le_value (bs : list Z) : Z :=
  match bs with
  | [] => 0
  | b :: bs' => b + 256 * le_value bs'
  end.

Definition int32_value (bs : list Z) : Z :=
  let u := le_value bs in if u <? 2 ^ 31 then u else u - 2 ^ 32.

(** An [ImageData] as the canvas hands it out: four samples per pixel,
    each one a byte. *)
Definition wf_ImageData (img : ImageData) : Prop :=
  length (id_data img) = (4 * id_width img * id_height img)%nat
  /\ Forall (fun v => 0 <= v < 256) (id_data img).

(** *** Vocabulary of the proofs about the encoder *)

(** The buffer while the pixel loops run: the bytes written so far, then
    the zeros not yet overwritten; the cursor sits between the two. *)
Definition frame (done : list Z) (k : nat) : list Z * nat :=
  (done ++ repeat 0 k, length done).

(** What one pass of the inner loop writes for pixel [(x, y)]. *)
Definition pixel_out (img : ImageData) (y x : nat) : list Z :=
  [channel img x y 2 mod 256; channel img x y 1 mod 256; channel img x y 0 mod 256].

Definition row_out (img : ImageData) (y : nat) : list Z :=
  flat_map (pixel_out img y) (seq 0 (id_width img))
  ++ repeat 0 (padding_of (id_width img)).

Definition fileSize_of (img : ImageData) : nat :=
  (54 + (id_width img * 3 + padding_of (id_width img)) * id_height img)%nat.

End BmpEncoder.


(** ** Browser objects shared by the validator and the processor *)

(** A [File]: its declared MIME type and its content; [file.size] is the
    number of bytes. *)
Record File := mkFile {
  file_type : string;
  file_bytes : list Z
}.

Definition file_size (f : File) : Z := Z.of_nat (length (file_bytes f)).

(** What [createImageBitmap] hands out: the decoded dimensions. *)
Record ImageBitmap := mkImageBitmap {
  bm_width : Z;
  bm_height : Z
}.

(** ** fileValidation.ts *)

Module FileValidation.
Import SecurityConstants.

Record ValidationResult := mkValidationResult {
  isValid : bool;
  error : option string;
  detectedType : option string
}.

(** [Object.entries(FILE_SIGNATURES)] in insertion order. *)
Definition FILE_SIGNATURES : list (string * list (list Z)) :=
  [ ("image/jpeg", [ [0xFF; 0xD8; 0xFF; 0xE0];
                     [0xFF; 0xD8; 0xFF; 0xE1];
                     [0xFF; 0xD8; 0xFF; 0xE8];
                     [0xFF; 0xD8; 0xFF; 0xDB] ]);
    ("image/png",  [ [0x89; 0x50; 0x4E; 0x47; 0x0D; 0x0A; 0x1A; 0x0A] ]);
    ("image/webp", [ [0x52; 0x49; 0x46; 0x46] ]);
    ("image/bmp",  [ [0x42; 0x4D] ]);
    ("image/gif",  [ [0x47; 0x49; 0x46; 0x38; 0x37; 0x61];
                     [0x47; 0x49; 0x46; 0x38; 0x39; 0x61] ]) ]%string.

Definition readFileHeader (file : File) (bytes : nat) : list Z :=
  take bytes (file_bytes file).

(** [header[index] === byte]; past the end the header reads [undefined]. *)
Definition byte_at (header : list Z) (index : nat) (byte : Z) : bool :=
  match header !! index with
  | Some b => b =? byte
  | None => false
  end.

(** [sig.every((byte, index) => header[index] === byte)], from [index]. *)
Fixpoint every_byte (header : list Z) (index : nat) (sig : list Z) : bool :=
  match sig with
  | [] => true
  | byte :: sig' => byte_at header index byte && every_byte header (S index) sig'
  end.

Definition matchesSignature (header : list Z) (signatures : list (list Z)) : bool :=
  existsb (every_byte header 0) signatures.

Definition isWebP (file : File) : bool :=
  let header := readFileHeader file 12 in
  let isRIFF := byte_at header 0 0x52 && byte_at header 1 0x49
                && byte_at header 2 0x46 && byte_at header 3 0x46 in
  let isWEBP := byte_at header 8 0x57 && byte_at header 9 0x45
                && byte_at header 10 0x42 && byte_at header 11 0x50 in
  isRIFF && isWEBP.

(** The loop of [detectImageType] over the remaining table entries. *)
Fixpoint detect_in (file : File) (header : list Z)
  (entries : list (string * list (list Z))) : option string :=
  match entries with
  | [] => None
  | (mimeType, signatures) :: rest =>
      if String.eqb mimeType "image/webp" then
        if isWebP file then Some mimeType else detect_in file header rest
      else if matchesSignature header signatures then Some mimeType
      else detect_in file header rest
  end.

Definition detectImageType (file : File) : option string :=
  let header := readFileHeader file 16 in
  detect_in file header FILE_SIGNATURES.

Definition string_of_Z (z : Z) : string :=
  DecimalString.NilZero.string_of_int (Z.to_int z).

Definition reject (reason : string) : ValidationResult :=
  {| isValid := false; error := Some reason; detectedType := None |}.

Definition empty_error : string := "File is empty (0 bytes)".
Definition size_error : string :=
  String.append "File size exceeds limit of "
    (String.append (string_of_Z (MAX_FILE_SIZE / 1024 / 1024)) "MB").
Definition mime_error (type : string) : string :=
  String.append "Invalid MIME type: "
    (if String.eqb type EmptyString then "unknown"%string else type).
Definition signature_error : string :=
  "File header does not match any supported image format (JPG, PNG, WebP, BMP)".
Definition dimension_error : string :=
  "Image exceeds maximum safe dimensions (Decompression Bomb protection)".

Section WithDecoder.

(** [createImageBitmap(file)]: the decoded bitmap, or [None] when the
    promise rejects. *)
Variable createImageBitmap : File -> option ImageBitmap.

Definition checkDimensions (file : File) : bool :=
  match createImageBitmap file with
  | Some bitmap =>
      let width := bm_width bitmap in
      let height := bm_height bitmap in
      if (width >? MAX_WIDTH) || (height >? MAX_HEIGHT) then false
      else if width * height >? MAX_PIXELS then false
      else true
  | None => false
  end.

Definition validateImageFile (file : File) : ValidationResult :=
  if file_size file =? 0 then reject empty_error
  else if file_size file >? MAX_FILE_SIZE then reject size_error
  else if negb (String.prefix "image/" (file_type file)) then
    reject (mime_error (file_type file))
  else
    match detectImageType file with
    | None => reject signature_error
    | Some detected =>
        if negb (checkDimensions file) then reject dimension_error
        else {| isValid := true; error := None; detectedType := Some detected |}
    end.

Definition quickValidateImage (file : File) : bool :=
  if negb (String.prefix "image/" (file_type file))
     || (file_size file =? 0) || (file_size file >? MAX_FILE_SIZE)
  then false
  else match detectImageType file with Some _ => true | None => false end.

End WithDecoder.

(** *** The allowlist, in the words of the format table *)

(** [bytes] carries the signature [sig] of format [mime]: it starts with
    [sig], and for the RIFF container bytes 8 to 11 spell WEBP. *)
Definition carries (bytes : list Z) (mime : string) (sig : list Z) : Prop :=
  sig `prefix_of` bytes
  /\ (mime = "image/webp"%string -> take 4 (drop 8 bytes) = [0x57; 0x45; 0x42; 0x50]).

Definition allowlisted (bytes : list Z) (mime : string) : Prop :=
  exists signatures sig,
    In (mime, signatures) FILE_SIGNATURES /\ In sig signatures
    /\ carries bytes mime sig.

End FileValidation.

(** ** imageProcessor.ts *)

Module ImageProcessor.
Import SecurityConstants.

Inductive ImageFormat := jpeg | png | webp | bmp.

Definition format_name (f : ImageFormat) : string :=
  match f with
  | jpeg => "jpeg" | png => "png" | webp => "webp" | bmp => "bmp"
  end.

Definition format_eqb (f g : ImageFormat) : bool :=
  match f, g with
  | jpeg, jpeg | png, png | webp, webp | bmp, bmp => true
  | _, _ => false
  end.

Record PixelCrop := mkCrop {
  crop_x : Q;
  crop_y : Q;
  crop_width : Q;
  crop_height : Q
}.

(** A JavaScript number as [processImage] may receive it for a requested
    dimension: a finite double (a rational), an infinity, or NaN, which
    [parseInt] returns in the dimension handlers of the interface for a
    text that is not a number. *)
Inductive Number :=
| Finite (q : Q)
| Infinity
| NegInfinity
| NaN.

Record ProcessOptions := mkOptions {
  format : ImageFormat;
  quality : Q;
  width : Number;
  height : Number;
  keepAspectRatio : bool;
  crop : option PixelCrop;
  targetSizeKB : option Q
}.

(** [Math.round]: the nearest integer, halves towards plus infinity. *)
Definition Math_round (x : Q) : Z := Qfloor (x + (1 # 2)).

Definition Qltb (x y : Q) : bool :=
  match (x ?= y)%Q with Lt => true | _ => false end.

(** [Math.ceil(Math.sqrt(n))] on a count: the least [c] whose square
    reaches [n] (exact on doubles for every count below 2^52). *)
Definition Math_ceil_sqrt (n : Z) : Z :=
  let s := Z.sqrt n in if s * s =? n then s else s + 1.

(** [Math.ceil(n / d)] on counts. *)
Definition Math_ceil_div (n d : Z) : Z := Qceiling (inject_Z n / inject_Z d).

(** *** What the program does to the browser, in order *)

Inductive Event :=
| EvDecoded (bitmap : ImageBitmap)
| EvClose (bitmap : ImageBitmap)
| EvNewCanvas (w h : Z)
| EvFillRect (style : string) (x y w h : Z)
| EvDrawRegion (bitmap : ImageBitmap) (sx sy sw sh dx dy dw dh : Z)
| EvDrawAt (bitmap : ImageBitmap) (x y : Q)
| EvGetImageData (x y w h : Z)
| EvConvertToBlob (type : string) (quality : option Q).

Inductive Error :=
| DecodeFailed
| ExportFailed
| RangeError
| TypeError
| NotReadable
| Message (text : string).

Inductive Outcome (A : Type) :=
| Returned (a : A)
| Threw (e : Error).
Arguments Returned {A} a.
Arguments Threw {A} e.

(** An asynchronous computation: the calls it made and how it settled. *)
Definition Run (A : Type) : Type := list Event * Outcome A.

Definition ret {A} (a : A) : Run A := ([], Returned a).
Definition throw {A} (e : Error) : Run A := ([], Threw e).
Definition tell (evs : list Event) : Run unit := (evs, Returned tt).

Definition bind {A B} (m : Run A) (k : A -> Run B) : Run B :=
  match m with
  | (log, Returned a) => let '(log', r) := k a in (log ++ log', r)
  | (log, Threw e) => (log, Threw e)
  end.

(** [try { m } finally { cleanup }] *)
Definition finally {A} (m : Run A) (cleanup : list Event) : Run A :=
  let '(log, r) := m in (log ++ cleanup, r).

Notation "'let*' x ':=' m 'in' k" := (bind m (fun x => k))
  (at level 10, x name, m at level 100, k at level 200).
Notation "'do' m 'then' k" := (bind m (fun _ => k))
  (at level 10, m at level 100, k at level 200).

(** The drawing operations a canvas has received: what an export or a
    read-back of its pixels may depend on. *)
Record Canvas := mkCanvas {
  cv_width : Z;
  cv_height : Z;
  cv_ops : list Event
}.

Section WithBrowser.

Variable createImageBitmap : File -> option ImageBitmap.
(** [canvas.getContext('2d')] returned a context. *)
Variable getContext : Z -> Z -> bool.
(** The samples [ctx.getImageData(0, 0, w, h)] reads back. *)
Variable getImageData : Canvas -> list Z.
(** [canvas.convertToBlob({type, quality})]; [None] when it rejects. *)
Variable convertToBlob : Canvas -> string -> option Q -> option Blob.

Definition decode (file : File) : Run ImageBitmap :=
  match createImageBitmap file with
  | Some bitmap => ([EvDecoded bitmap], Returned bitmap)
  | None => throw DecodeFailed
  end.

Definition export (canvas : Canvas) (type : string) (quality : option Q)
  : Run Blob :=
  match convertToBlob canvas type quality with
  | Some blob => ([EvConvertToBlob type quality], Returned blob)
  | None => ([EvConvertToBlob type quality], Threw ExportFailed)
  end.

(** The [for] loop of the size search: [n] rounds left. *)
Fixpoint search_loop (canvas : Canvas) (mimeType : string) (targetBytes : Q)
  (n : nat) (minQ maxQ : Q) (bestBlob : option Blob)
  : Run (Q * Q * option Blob) :=
  match n with
  | O => ret (minQ, maxQ, bestBlob)
  | S n' =>
      let midQ := ((minQ + maxQ) / 2)%Q in
      let* attempt := export canvas mimeType (Some midQ) in
      if Qltb (inject_Z (blob_size attempt)) targetBytes
      then search_loop canvas mimeType targetBytes n' midQ maxQ (Some attempt)
      else search_loop canvas mimeType targetBytes n' minQ midQ bestBlob
  end.

Definition sizeSearch (canvas : Canvas) (mimeType : string) (targetSizeKB : Q)
  : Run Blob :=
  let targetBytes := (targetSizeKB * 1024)%Q in
  let minQ := (1 # 100)%Q in
  let maxQ := 1%Q in
  let* attempt := export canvas mimeType (Some maxQ) in
  if Qle_bool (inject_Z (blob_size attempt)) targetBytes then ret attempt
  else
    let* st := search_loop canvas mimeType targetBytes 5 minQ maxQ None in
    match st with
    | (_, _, Some bestBlob) => ret bestBlob
    | (_, _, None) => export canvas mimeType (Some (1 # 100)%Q)
    end.

(** [Math.max(1, Math.min(Math.round(x), limit))].  [Math.round],
    [Math.min] and [Math.max] all return NaN on NaN: [None] stands for it. *)
Definition clamp (x : Number) (limit : Z) : option Z :=
  match x with
  | Finite q => Some (Z.max 1 (Z.min (Math_round q) limit))
  | Infinity => Some (Z.max 1 limit)
  | NegInfinity => Some 1
  | NaN => None
  end.

Definition targetWidth (options : ProcessOptions) : option Z :=
  clamp (width options) MAX_WIDTH.
Definition targetHeight (options : ProcessOptions) : option Z :=
  clamp (height options) MAX_HEIGHT.

Definition source_region (bitmap : ImageBitmap) (options : ProcessOptions)
  : Z * Z * Z * Z :=
  match crop options with
  | Some c =>
      if Qltb 0 (crop_width c) && Qltb 0 (crop_height c)
      then (Math_round (crop_x c), Math_round (crop_y c),
            Math_round (crop_width c), Math_round (crop_height c))
      else (0, 0, bm_width bitmap, bm_height bitmap)
  | None => (0, 0, bm_width bitmap, bm_height bitmap)
  end.

Definition limit_error : string :=
  String.append "Output dimensions exceed safety limit ("
    (String.append (FileValidation.string_of_Z MAX_PIXELS) " pixels).").

(** The export logic that closes the [try] block of [processImage]. *)
Definition export_stage (canvas : Canvas) (options : ProcessOptions) : Run Blob :=
  if format_eqb (format options) bmp then
    do tell [EvGetImageData 0 0 (cv_width canvas) (cv_height canvas)] then
    let imageData :=
      mkImageData (Z.to_nat (cv_width canvas)) (Z.to_nat (cv_height canvas))
        (getImageData canvas) in
    match BmpEncoder.encodeBMP imageData with
    | Some bmpBlob => ret bmpBlob
    | None => throw RangeError
    end
  else
    let mimeType := String.append "image/" (format_name (format options)) in
    let lossy :=
      format_eqb (format options) jpeg || format_eqb (format options) webp in
    let quality :=
      if lossy then Some (quality options / 100)%Q else None in
    match targetSizeKB options with
    | Some kb =>
        if Qltb 0 kb && lossy then sizeSearch canvas mimeType kb
        else export canvas mimeType quality
    | None => export canvas mimeType quality
    end.

(** What the canvas has received when the export logic starts. *)
Definition drawn (bitmap : ImageBitmap) (options : ProcessOptions)
  (targetWidth targetHeight : Z) : list Event :=
  let '(sourceX, sourceY, sourceWidth, sourceHeight) :=
    source_region bitmap options in
  let fill :=
    if format_eqb (format options) jpeg || format_eqb (format options) bmp
    then [EvFillRect "white" 0 0 targetWidth targetHeight] else [] in
  fill ++ [EvDrawRegion bitmap sourceX sourceY sourceWidth sourceHeight
             0 0 targetWidth targetHeight].

(** The body of the [try] block of [processImage].  With a dimension
    that is NaN the comparison with MAX_PIXELS is false, so the limit error
    is not thrown, and [new OffscreenCanvas] throws a TypeError: its
    arguments are declared [[EnforceRange] unsigned long long], a
    conversion that rejects NaN. *)
Definition process_body (bitmap : ImageBitmap) (file : File)
  (options : ProcessOptions) : Run Blob :=
  match targetWidth options, targetHeight options with
  | Some targetWidth, Some targetHeight =>
      if targetWidth * targetHeight >? MAX_PIXELS
      then throw (Message limit_error)
      else
        do tell [EvNewCanvas targetWidth targetHeight] then
        if negb (getContext targetWidth targetHeight)
        then throw (Message "Could not get canvas 2D context")
        else
          do tell (drawn bitmap options targetWidth targetHeight) then
          export_stage
            (mkCanvas targetWidth targetHeight
               (drawn bitmap options targetWidth targetHeight))
            options
  | _, _ => throw TypeError
  end.

Definition processImage (file : File) (options : ProcessOptions) : Run Blob :=
  let* bitmap := decode file in
  finally (process_body bitmap file options) [EvClose bitmap].

(** The decoding loop of [mergeImages]: the bitmaps pushed so far, and
    whether every file decoded. *)
Fixpoint decode_all (files : list File) : list ImageBitmap * bool :=
  match files with
  | [] => ([], true)
  | file :: rest =>
      match createImageBitmap file with
      | Some bm => let '(bitmaps, ok) := decode_all rest in (bm :: bitmaps, ok)
      | None => ([], false)
      end
  end.

(** [Math.max(...values)] over a non-empty list. *)
Definition Math_max (values : list Z) : Z :=
  match values with
  | [] => 0
  | v :: vs => fold_left Z.max vs v
  end.

Definition merge_error (canvasWidth canvasHeight : Z) : string :=
  String.append "Merged image size ("
    (String.append (FileValidation.string_of_Z canvasWidth)
       (String.append "x"
          (String.append (FileValidation.string_of_Z canvasHeight)
             ") exceeds safety limits."))).

(** Where [forEach] draws the bitmap of position [index]. *)
Definition placement (cols maxCellW maxCellH : Z) (index : Z) (bm : ImageBitmap)
  : Q * Q :=
  let r := index / cols in
  let c := index mod cols in
  let x := (inject_Z (c * maxCellW) + inject_Z (maxCellW - bm_width bm) / 2)%Q in
  let y := (inject_Z (r * maxCellH) + inject_Z (maxCellH - bm_height bm) / 2)%Q in
  (x, y).

Fixpoint draw_all (cols maxCellW maxCellH : Z) (index : Z)
  (bitmaps : list ImageBitmap) : list Event :=
  match bitmaps with
  | [] => []
  | bm :: rest =>
      let '(x, y) := placement cols maxCellW maxCellH index bm in
      EvDrawAt bm x y :: draw_all cols maxCellW maxCellH (index + 1) rest
  end.

(** The part of the [try] block of [mergeImages] after the decoding loop. *)
Definition merge_body (bitmaps : list ImageBitmap) : Run Blob :=
  let count := Z.of_nat (length bitmaps) in
  let cols := Math_ceil_sqrt count in
  let rows := Math_ceil_div count cols in
  let maxCellW := Math_max (map bm_width bitmaps) in
  let maxCellH := Math_max (map bm_height bitmaps) in
  let canvasWidth := maxCellW * cols in
  let canvasHeight := maxCellH * rows in
  if canvasWidth * canvasHeight >? MAX_PIXELS
  then throw (Message (merge_error canvasWidth canvasHeight))
  else
    do tell [EvNewCanvas canvasWidth canvasHeight] then
    if negb (getContext canvasWidth canvasHeight)
    then throw (Message "Failed to create canvas context")
    else
      let ops := EvFillRect "white" 0 0 canvasWidth canvasHeight
                 :: draw_all cols maxCellW maxCellH 0 bitmaps in
      do tell ops then
      export (mkCanvas canvasWidth canvasHeight ops) "image/jpeg" (Some (9 # 10)%Q).

Definition mergeImages (files : list File) : Run Blob :=
  if (length files =? 0)%nat then throw (Message "No images to merge")
  else
    let '(bitmaps, ok) := decode_all files in
    let '(log, r) :=
      if ok then merge_body bitmaps else throw DecodeFailed in
    (map EvDecoded bitmaps ++ log ++ map EvClose bitmaps, r).

(** The size of the export of [canvas] at quality [q], when the encoder
    produces one. *)
Definition size_at (canvas : Canvas) (mimeType : string) (q : Q) : option Z :=
  blob_size <$> convertToBlob canvas mimeType (Some q).

End WithBrowser.

(** The exports a run asked for, in order. *)
Definition exports (log : list Event) : list (option Q) :=
  flat_map (fun ev => match ev with
                      | EvConvertToBlob _ q => [q]
                      | _ => []
                      end) log.

Definition canvases (log : list Event) : list (Z * Z) :=
  flat_map (fun ev => match ev with
                      | EvNewCanvas w h => [(w, h)]
                      | _ => []
                      end) log.

Definition decoded (log : list Event) : list ImageBitmap :=
  flat_map (fun ev => match ev with EvDecoded b => [b] | _ => [] end) log.

Definition closed (log : list Event) : list ImageBitmap :=
  flat_map (fun ev => match ev with EvClose b => [b] | _ => [] end) log.


(** A log that only holds exports: no canvas is created, no bitmap is
    decoded or closed. *)
Definition quiet (log : list Event) : Prop :=
  canvases log = [] /\ decoded log = [] /\ closed log = [].

(** *** The size search, in the words of its description *)

Section SizeSearchSpec.

(** The size of the export at a quality, when the encoder produces one. *)
Variable size_at : Q -> option Z.
Variable targetBytes : Q.

(** A probe is under budget when its size is strictly smaller than the
    target. *)
Definition under_budget (q : Q) : bool :=
  match size_at q with
  | Some size => Qltb (inject_Z size) targetBytes
  | None => false
  end.

(** The probes of a search over [minQ, maxQ]: each one at the midpoint;
    under budget, the search goes on above it, otherwise below it. *)
Inductive bisection : Q -> Q -> list Q -> Prop :=
| bisection_done minQ maxQ : bisection minQ maxQ []
| bisection_raise minQ maxQ qs :
    under_budget ((minQ + maxQ) / 2) = true ->
    bisection ((minQ + maxQ) / 2) maxQ qs ->
    bisection minQ maxQ ((minQ + maxQ) / 2 :: qs)%Q
| bisection_lower minQ maxQ qs :
    under_budget ((minQ + maxQ) / 2) = false ->
    bisection minQ ((minQ + maxQ) / 2) qs ->
    bisection minQ maxQ ((minQ + maxQ) / 2 :: qs)%Q.

End SizeSearchSpec.

End ImageProcessor.

(** ** workerManager.ts *)

Module WorkerManager.

Definition MAX_CONCURRENCY : Z := 2.

Inductive MessageType := PROCESS | VALIDATE.

(** A message for the worker.  [payload] stands for the file and the
    options it carries. *)
Record WorkerMessage := mkMessage {
  msg_id : string;
  msg_type : MessageType;
  payload : nat
}.

Inductive ResponseType := PROCESS_COMPLETE | PROCESS_ERROR | VALIDATE_RESULT.

Record WorkerResponse := mkResponse {
  resp_id : string;
  resp_type : ResponseType;
  result : option Blob;
  isValid : option bool;
  error : option string
}.

(** The promise a caller holds: [resolve] and [reject] of one
    [new Promise]. *)
Definition Promise := nat.

Inductive Value :=
| VBlob (b : Blob)
| VBool (b : bool).

(** A queued thunk: the message and the promise its closure captured. *)
Record Job := mkJob {
  job_message : WorkerMessage;
  job_promise : Promise
}.

(** What the module does to the outside, in order.  [Dispatch] marks the
    call [nextJob()]. *)
Inductive Effect :=
| Spawn
| Terminate
| Dispatch (job : Job)
| Post (message : WorkerMessage)
| Resolve (promise : Promise) (value : Value)
| Reject (promise : Promise) (reason : string)
| Warn (id : string).

(** A JavaScript [Map] keeps its entries in insertion order; [set] on a
    present key keeps the entry's place. *)
Fixpoint map_get {V} (key : string) (m : list (string * V)) : option V :=
  match m with
  | [] => None
  | (k, v) :: m' => if String.eqb k key then Some v else map_get key m'
  end.

Fixpoint map_set {V} (key : string) (value : V) (m : list (string * V))
  : list (string * V) :=
  match m with
  | [] => [(key, value)]
  | (k, v) :: m' =>
      if String.eqb k key then (k, value) :: m'
      else (k, v) :: map_set key value m'
  end.

Fixpoint map_delete {V} (key : string) (m : list (string * V))
  : list (string * V) :=
  match m with
  | [] => []
  | (k, v) :: m' =>
      if String.eqb k key then m' else (k, v) :: map_delete key m'
  end.

(** The module state.  A live [worker] is represented by the messages
    posted to it that it has not answered yet. *)
Record State := mkState {
  activeJobs : Z;
  jobQueue : list Job;
  worker : option (list WorkerMessage);
  pendingOperations : list (string * Promise)
}.

Definition initial : State :=
  {| activeJobs := 0; jobQueue := []; worker := None; pendingOperations := [] |}.

Definition crash_reason : string := "Worker crashed".
Definition clone_reason : string := "DataCloneError".

Section WithStructuredClone.

(** Whether [postMessage] can clone the message; when it cannot it throws
    synchronously. *)
Variable clonable : WorkerMessage -> bool.

(** [getWorker()]: creates the worker on first use.  The [Worker]
    constructor is taken not to throw; the synchronous failure the job
    closure guards against is the one of [postMessage]. *)
Definition getWorker (st : State) : State * list Effect :=
  match worker st with
  | Some _ => (st, [])
  | None =>
      ({| activeJobs := activeJobs st; jobQueue := jobQueue st;
          worker := Some []; pendingOperations := pendingOperations st |},
       [Spawn])
  end.

Definition post (message : WorkerMessage) (st : State) : State :=
  {| activeJobs := activeJobs st; jobQueue := jobQueue st;
     worker := option_map (fun inbox => inbox ++ [message]) (worker st);
     pendingOperations := pendingOperations st |}.

(** [processNextJob] together with the job closures it may run: a job
    whose hand-off throws releases its slot, rejects its promise and calls
    [processNextJob] again.  [queue] is the current [jobQueue]. *)
Fixpoint dispatch (queue : list Job) (st : State) : State * list Effect :=
  match queue with
  | [] =>
      ({| activeJobs := activeJobs st; jobQueue := [];
          worker := worker st; pendingOperations := pendingOperations st |}, [])
  | nextJob :: rest =>
      if activeJobs st <? MAX_CONCURRENCY then
        (* jobQueue.shift(); activeJobs++; nextJob() *)
        let st1 := {| activeJobs := activeJobs st + 1; jobQueue := rest;
                      worker := worker st;
                      pendingOperations := pendingOperations st |} in
        let '(st2, spawned) := getWorker st1 in
        let st3 := {| activeJobs := activeJobs st2; jobQueue := jobQueue st2;
                      worker := worker st2;
                      pendingOperations :=
                        map_set (msg_id (job_message nextJob))
                          (job_promise nextJob) (pendingOperations st2) |} in
        if clonable (job_message nextJob) then
          (post (job_message nextJob) st3,
           Dispatch nextJob :: spawned ++ [Post (job_message nextJob)])
        else
          (* catch: activeJobs--; reject(err); processNextJob() *)
          let st4 := {| activeJobs := activeJobs st3 - 1; jobQueue := rest;
                        worker := worker st3;
                        pendingOperations := pendingOperations st3 |} in
          let '(st5, effects) := dispatch rest st4 in
          (st5, Dispatch nextJob :: spawned
                ++ Reject (job_promise nextJob) clone_reason :: effects)
      else
        ({| activeJobs := activeJobs st; jobQueue := queue;
            worker := worker st; pendingOperations := pendingOperations st |}, [])
  end.

Definition processNextJob (st : State) : State * list Effect :=
  dispatch (jobQueue st) st.

Definition enqueueJob (message : WorkerMessage) (promise : Promise) (st : State)
  : State * list Effect :=
  processNextJob
    {| activeJobs := activeJobs st;
       jobQueue := jobQueue st ++ [mkJob message promise];
       worker := worker st; pendingOperations := pendingOperations st |}.

(** How [onmessage] settles the promise of a known response. *)
Definition settle (promise : Promise) (response : WorkerResponse) : list Effect :=
  match resp_type response, result response with
  | PROCESS_ERROR, _ =>
      [Reject promise
         (match error response with
          | Some e => if String.eqb e EmptyString
                      then "Unknown processing error"%string else e
          | None => "Unknown processing error"%string
          end)]
  | PROCESS_COMPLETE, Some blob => [Resolve promise (VBlob blob)]
  | PROCESS_COMPLETE, None => []
  | VALIDATE_RESULT, _ =>
      [Resolve promise (VBool (default false (isValid response)))]
  end.

(** [worker.onmessage] *)
Definition onmessage (response : WorkerResponse) (st : State)
  : State * list Effect :=
  match map_get (resp_id response) (pendingOperations st) with
  | Some pending =>
      let st1 := {| activeJobs := activeJobs st - 1; jobQueue := jobQueue st;
                    worker := worker st;
                    pendingOperations :=
                      map_delete (resp_id response) (pendingOperations st) |} in
      let '(st2, effects) := processNextJob st1 in
      (st2, effects ++ settle pending response)
  | None => (st, [Warn (resp_id response)])
  end.

(** [worker.onerror] *)
Definition onerror (st : State) : State * list Effect :=
  (initial,
   map (fun entry => Reject entry.2 crash_reason) (pendingOperations st)
   ++ [Terminate]).

Definition terminateWorker (st : State) : State * list Effect :=
  (initial, match worker st with Some _ => [Terminate] | None => [] end).

(** *** The event loop around the module *)

Inductive Input :=
| Submit (message : WorkerMessage) (promise : Promise)
| Response (response : WorkerResponse)
| WorkerError
| TerminateWorker.

(** The worker takes the answered message out of its inbox. *)
Fixpoint answer (id : string) (inbox : list WorkerMessage) : list WorkerMessage :=
  match inbox with
  | [] => []
  | m :: inbox' => if String.eqb (msg_id m) id then inbox' else m :: answer id inbox'
  end.

Definition answered (id : string) (st : State) : State :=
  {| activeJobs := activeJobs st; jobQueue := jobQueue st;
     worker := option_map (answer id) (worker st);
     pendingOperations := pendingOperations st |}.

(** One turn of the event loop.  The handlers [onmessage] and [onerror]
    belong to the live worker; a terminated worker delivers nothing. *)
Definition step (st : State) (input : Input) : State * list Effect :=
  match input with
  | Submit message promise => enqueueJob message promise st
  | Response response =>
      match worker st with
      | Some _ => onmessage response (answered (resp_id response) st)
      | None => (st, [])
      end
  | WorkerError =>
      match worker st with
      | Some _ => onerror st
      | None => (st, [])
      end
  | TerminateWorker => terminateWorker st
  end.

Fixpoint run (st : State) (inputs : list Input) : State * list Effect :=
  match inputs with
  | [] => (st, [])
  | input :: inputs' =>
      let '(st1, effects1) := step st input in
      let '(st2, effects2) := run st1 inputs' in
      (st2, effects1 ++ effects2)
  end.

(** The worker only answers messages it holds, and only a live worker can
    fail. *)
Definition admissible (st : State) (input : Input) : Prop :=
  match input with
  | Response response =>
      exists inbox, worker st = Some inbox
                    /\ In (resp_id response) (map msg_id inbox)
  | WorkerError => worker st <> None
  | _ => True
  end.

Inductive reachable : State -> Prop :=
| reachable_initial : reachable initial
| reachable_step st input :
    reachable st -> admissible st input -> reachable (step st input).1.

End WithStructuredClone.

(** Requests the worker holds. *)
Definition in_flight (st : State) : Z :=
  match worker st with
  | Some inbox => Z.of_nat (length inbox)
  | None => 0
  end.

Definition dispatched (effects : list Effect) : list Job :=
  flat_map (fun e => match e with Dispatch j => [j] | _ => [] end) effects.

Definition posted (effects : list Effect) : list WorkerMessage :=
  flat_map (fun e => match e with Post m => [m] | _ => [] end) effects.

Definition rejected (effects : list Effect) : list (Promise * string) :=
  flat_map (fun e => match e with Reject p r => [(p, r)] | _ => [] end) effects.

Definition settled (effects : list Effect) : list Promise :=
  flat_map (fun e => match e with
                     | Reject p _ | Resolve p _ => [p]
                     | _ => []
                     end) effects.

Definition submitted (inputs : list Input) : list Job :=
  flat_map (fun i => match i with Submit m p => [mkJob m p] | _ => [] end) inputs.

Definition resets (input : Input) : bool :=
  match input with
  | WorkerError | TerminateWorker => true
  | _ => false
  end.

(** The slot counter covers the requests the worker holds and never
    exceeds the limit. *)
Definition slots_ok (st : State) : Prop :=
  0 <= in_flight st <= activeJobs st /\ activeJobs st <= MAX_CONCURRENCY.

(** The promises the module still holds a reference to: those captured by
    the queued thunks and those of the pending map. *)
Definition promises (st : State) : list Promise :=
  map job_promise (jobQueue st) ++ map snd (pendingOperations st).

End WorkerManager.

(** ** fileValidation.ts: sanitizeFilename *)

Module Filename.

(** A JavaScript string as its UTF-16 code units; the regular expressions
    of [sanitizeFilename] have no [u] flag and work on code units. *)
Definition dot : N := 46.
Definition underscore : N := 95.

(** [[\x00-\x1f\x80-\x9f]] *)
Definition is_control (c : N) : bool :=
  ((c <=? 0x1f) || ((0x80 <=? c) && (c <=? 0x9f)))%N.

(** [[a-zA-Z0-9._-]] *)
Definition is_safe (c : N) : bool :=
  (((97 <=? c) && (c <=? 122)) || ((65 <=? c) && (c <=? 90))
   || ((48 <=? c) && (c <=? 57))
   || (c =? 46) || (c =? 95) || (c =? 45))%N.

(** [name.replace(/\.\./g, '')]: matches are found from left to right and
    do not overlap. *)
Fixpoint remove_dotdot (name : list N) : list N :=
  match name with
  | a :: (b :: rest) as tl =>
      if ((a =? dot) && (b =? dot))%N then remove_dotdot rest
      else a :: remove_dotdot tl
  | _ => name
  end.

(** "image" *)
Definition fallback_name : list N := [105; 109; 97; 103; 101]%N.

Definition is_single_dot (name : list N) : bool :=
  match name with
  | [c] => (c =? dot)%N
  | _ => false
  end.

Definition sanitizeFilename (filename : list N) : list N :=
  let name := List.filter (fun c => negb (is_control c)) filename in
  let name := remove_dotdot name in
  let name := map (fun c => if is_safe c then c else underscore) name in
  let name := if (200 <? length name)%nat then take 200 name else name in
  if (length name =? 0)%nat || is_single_dot name then fallback_name else name.

(** Two dots in a row somewhere in the name. *)
Fixpoint has_dotdot (name : list N) : bool :=
  match name with
  | a :: (b :: _) as tl => ((a =? dot) && (b =? dot))%N || has_dotdot tl
  | _ => false
  end.

End Filename.

(** ** imageProcessor.ts: vocabulary of further properties *)

(** The same options with no crop. *)
Definition without_crop (options : ImageProcessor.ProcessOptions)
  : ImageProcessor.ProcessOptions :=
  ImageProcessor.mkOptions (ImageProcessor.format options)
    (ImageProcessor.quality options) (ImageProcessor.width options)
    (ImageProcessor.height options) (ImageProcessor.keepAspectRatio options)
    None (ImageProcessor.targetSizeKB options).

(** ** imageProcessor.worker.ts *)

Module ImageWorker.
Import SecurityConstants ImageProcessor.

(** The message as the worker receives it, with its file and options. *)
Record WorkerMessage := mkWorkerMessage {
  id : string;
  type : WorkerManager.MessageType;
  file : option File;
  options : option ProcessOptions
}.

Section WithBrowser.

Variable createImageBitmap : File -> option ImageBitmap.
Variable getContext : Z -> Z -> bool.
Variable getImageData : Canvas -> list Z.
Variable convertToBlob : Canvas -> string -> option Q -> option Blob.
(** The [message] of an exception the browser itself raised. *)
Variable exception_text : Error -> string.
(** Whether the content of the file can be read:
    [file.slice(0, n).arrayBuffer()] rejects when it cannot, and
    [fileValidation.ts] does not catch that. *)
Variable readable : File -> bool.

(** [error instanceof Error ? error.message : 'Unknown error'] *)
Definition error_message (e : Error) : string :=
  match e with
  | Message text => text
  | _ => exception_text e
  end.

(** [checkDimensions] with the calls it makes: the bitmap is closed as
    soon as its dimensions are read; a failing decode is caught. *)
Definition checkDimensions_run (file : File) : Run bool :=
  match createImageBitmap file with
  | Some bitmap =>
      do tell [EvDecoded bitmap; EvClose bitmap] then
      let width := bm_width bitmap in
      let height := bm_height bitmap in
      if (width >? MAX_WIDTH) || (height >? MAX_HEIGHT) then ret false
      else if width * height >? MAX_PIXELS then ret false
      else ret true
  | None => ret false
  end.

(** [validateImageFile] as the worker runs it, with its calls and with the
    read of the header that [detectImageType] starts with. *)
Definition validateImageFile_run (file : File)
  : Run FileValidation.ValidationResult :=
  if file_size file =? 0
  then ret (FileValidation.reject FileValidation.empty_error)
  else if file_size file >? MAX_FILE_SIZE
  then ret (FileValidation.reject FileValidation.size_error)
  else if negb (String.prefix "image/" (file_type file))
  then ret (FileValidation.reject (FileValidation.mime_error (file_type file)))
  else if negb (readable file) then throw NotReadable
  else
    match FileValidation.detectImageType file with
    | None => ret (FileValidation.reject FileValidation.signature_error)
    | Some detectedType =>
        let* safeDimensions := checkDimensions_run file in
        if negb safeDimensions
        then ret (FileValidation.reject FileValidation.dimension_error)
        else ret {| FileValidation.isValid := true;
                    FileValidation.error := None;
                    FileValidation.detectedType := Some detectedType |}
    end.

Definition failure (id : string) (text : string) : WorkerManager.WorkerResponse :=
  WorkerManager.mkResponse id WorkerManager.PROCESS_ERROR None None (Some text).

(** [self.onmessage]: the calls made to the browser and the one response
    posted back. *)
Definition onmessage (message : WorkerMessage)
  : list Event * WorkerManager.WorkerResponse :=
  match type message with
  | WorkerManager.PROCESS =>
      match file message, options message with
      | Some f, Some o =>
          match processImage createImageBitmap getContext getImageData
                  convertToBlob f o with
          | (log, Returned blob) =>
              (log, WorkerManager.mkResponse (id message)
                      WorkerManager.PROCESS_COMPLETE (Some blob) None None)
          | (log, Threw e) => (log, failure (id message) (error_message e))
          end
      | _, _ =>
          ([], failure (id message)
                 "Missing file or options for PROCESS operation")
      end
  | WorkerManager.VALIDATE =>
      match file message with
      | Some f =>
          match validateImageFile_run f with
          | (log, Returned validationResult) =>
              (log, WorkerManager.mkResponse (id message)
                      WorkerManager.VALIDATE_RESULT None
                      (Some (FileValidation.isValid validationResult))
                      (FileValidation.error validationResult))
          | (log, Threw e) => (log, failure (id message) (error_message e))
          end
      | None => ([], failure (id message) "Missing file for VALIDATE operation")
      end
  end.

End WithBrowser.

End ImageWorker.

(** ** workerManager.ts: the worker's lifecycle *)

(** Workers created and workers terminated along a run, and whether the
    module holds a worker. *)
Definition spawned (effects : list WorkerManager.Effect) : nat :=
  length (List.filter (fun e => match e with WorkerManager.Spawn => true | _ => false end)
            effects).

Definition terminated (effects : list WorkerManager.Effect) : nat :=
  length (List.filter (fun e => match e with WorkerManager.Terminate => true | _ => false end)
            effects).

Definition live (st : WorkerManager.State) : nat :=
  match WorkerManager.worker st with Some _ => 1 | None => 0 end.


(** ** Concrete inputs used by the examples *)

(** The 2 x 2 image of a red, a green, a blue and a white pixel. *)
Definition rgbw_2x2 : ImageData :=
  mkImageData 2 2 [255; 0; 0; 255;   0; 255; 0; 255;
                   0; 0; 255; 255;   255; 255; 255; 128].

(** A PNG header followed by a few bytes, declared as a JPEG. *)
Definition png_declared_jpeg : File :=
  mkFile "image/jpeg" [0x89; 0x50; 0x4E; 0x47; 0x0D; 0x0A; 0x1A; 0x0A; 0; 0; 0; 13].

(** A text file, and a file of an image type outside the allowlist. *)
Definition text_file : File := mkFile "text/plain" [104; 105].
Definition unknown_image : File := mkFile "image/avif" [0; 0; 0; 28; 102; 116; 121; 112].
Definition empty_file : File := mkFile "text/plain" [].

Definition decode_fails : File -> option ImageBitmap := fun _ => None.
Definition decode_as (w h : Z) : File -> option ImageBitmap :=
  fun _ => Some (mkImageBitmap w h).

Definition context_ok : Z -> Z -> bool := fun _ _ => true.
Definition no_samples : ImageProcessor.Canvas -> list Z := fun _ => [].

(** An encoder whose output size depends on the quality alone. *)
Definition encoder_of_size (size : Q -> Z)
  : ImageProcessor.Canvas -> string -> option Q -> option Blob :=
  fun _ type quality =>
    Some (mkBlob type (size (default 1%Q quality)) []).

Definition oversized_options : ImageProcessor.ProcessOptions :=
  ImageProcessor.mkOptions ImageProcessor.png 80
    (ImageProcessor.Finite 20000) (ImageProcessor.Finite 20000) true None None.

(** A JPEG of 100 x 100 to fit in 1 KB. *)
Definition search_options : ImageProcessor.ProcessOptions :=
  ImageProcessor.mkOptions ImageProcessor.jpeg 80
    (ImageProcessor.Finite 100) (ImageProcessor.Finite 100) true None (Some 1%Q).

Definition four_files : list File := repeat png_declared_jpeg 4.

(** Requests and responses of the scheduler runs. *)
Definition request (id : string) (payload : nat) : WorkerManager.WorkerMessage :=
  WorkerManager.mkMessage id WorkerManager.PROCESS payload.

Definition completed (id : string) : WorkerManager.WorkerResponse :=
  WorkerManager.mkResponse id WorkerManager.PROCESS_COMPLETE
    (Some (mkBlob "image/jpeg" 10 [])) None None.

(** A payload of 0 stands for a message that cannot be cloned. *)
Definition clonable_payload (m : WorkerManager.WorkerMessage) : bool :=
  negb (WorkerManager.payload m =? 0)%nat.

Definition always_clonable (m : WorkerManager.WorkerMessage) : bool := true.

(** Two requests running, then one that cannot be cloned and one that can
    are queued behind them. *)
Definition busy_state : WorkerManager.State :=
  (WorkerManager.run clonable_payload WorkerManager.initial
     [WorkerManager.Submit (request "r1" 1) 1%nat;
      WorkerManager.Submit (request "r2" 1) 2%nat;
      WorkerManager.Submit (request "a" 0) 3%nat;
      WorkerManager.Submit (request "b" 1) 4%nat]).1.

(** Options for a 3 x 2 BMP, a PNG with a target size, and a JPEG with a
    crop of no width. *)
Definition bmp_options : ImageProcessor.ProcessOptions :=
  ImageProcessor.mkOptions ImageProcessor.bmp 80
    (ImageProcessor.Finite 3) (ImageProcessor.Finite 2) true None (Some 1%Q).
Definition png_options : ImageProcessor.ProcessOptions :=
  ImageProcessor.mkOptions ImageProcessor.png 80
    (ImageProcessor.Finite 10) (ImageProcessor.Finite 10) true None (Some 1%Q).
Definition empty_crop_options : ImageProcessor.ProcessOptions :=
  ImageProcessor.mkOptions ImageProcessor.jpeg 80
    (ImageProcessor.Finite 10) (ImageProcessor.Finite 10) true
    (Some (ImageProcessor.mkCrop 5 5 0 10)) None.

(** A decoder that fails on files not declared as images. *)
Definition decode_images : File -> option ImageBitmap :=
  fun file => if String.prefix "image/" (file_type file)
              then Some (mkImageBitmap 10 10) else None.

Definition browser_text : ImageProcessor.Error -> string := fun _ => "error"%string.

Definition always_readable : File -> bool := fun _ => true.

(** Messages as the worker receives them. *)
Definition process_message : ImageWorker.WorkerMessage :=
  ImageWorker.mkWorkerMessage "r1" WorkerManager.PROCESS
    (Some png_declared_jpeg) (Some search_options).


(** A PNG signature followed by MAX_FILE_SIZE bytes. *)
Definition oversized_png : File :=
  mkFile "image/png"
    ([0x89; 0x50; 0x4E; 0x47; 0x0D; 0x0A; 0x1A; 0x0A]
     ++ repeat 0 (Z.to_nat SecurityConstants.MAX_FILE_SIZE)).

(** * Properties *)

(** ** The BMP encoder *)

Section BmpEncoderFacts.
Import BmpEncoder.

Lemma le_bytes_length n v : length (le_bytes n v) = n.
Proof. revert v; induction n as [|n IH]; intros v; simpl; [done|by rewrite IH]. Qed.

Lemma write_app hd tl off bs :
  (off + length bs <= length hd)%nat ->
  write (hd ++ tl) off bs
  = Some ((take off hd ++ bs ++ drop (off + length bs) hd) ++ tl).
Proof.
  intros Hle. unfold write.
  rewrite decide_True by (rewrite length_app; lia).
  f_equal. rewrite take_app_le, drop_app_le by lia.
  by rewrite <- !app_assoc.
Qed.

Lemma put_frame v done k :
  put v (frame done (S k)) = Some (frame (done ++ [v mod 256]) k).
Proof.
  unfold put, frame, setUint8, write; simpl.
  rewrite decide_True by (rewrite length_app; simpl; lia). simpl.
  rewrite take_app_length.
  replace (length done + 1)%nat with (length done + length [0])%nat by (simpl; lia).
  change (0 :: repeat 0 k) with ([0] ++ repeat 0 k).
  rewrite app_assoc, drop_app_length', <- app_assoc
    by (rewrite length_app; simpl; lia).
  simpl. f_equal. f_equal. rewrite length_app. simpl. lia.
Qed.

Lemma for_loop_frame body (out : nat -> list Z) (c : nat) :
  (forall i done k, body i (frame done (c + k)) = Some (frame (done ++ out i) k)) ->
  forall n i0 done k,
    for_loop n i0 body (frame done (n * c + k))
    = Some (frame (done ++ flat_map out (seq i0 n)) k).
Proof.
  intros Hbody n. induction n as [|n IH]; intros i0 done k.
  - simpl. by rewrite app_nil_r.
  - replace (S n * c + k)%nat with (c + (n * c + k))%nat by lia.
    cbn [for_loop seq flat_map]. rewrite Hbody. cbn [mbind option_bind].
    rewrite IH. by rewrite <- app_assoc.
Qed.

Lemma flat_map_const_repeat (n i0 : nat) :
  flat_map (fun _ : nat => [0]) (seq i0 n) = repeat 0 n.
Proof. revert i0; induction n as [|n IH]; intros i0; simpl; [done|by rewrite IH]. Qed.

Lemma pixel_body_frame img y x done k :
  pixel_body (id_width img) (id_data img) y x (frame done (3 + k))
  = Some (frame (done ++ pixel_out img y x) k).
Proof.
  unfold pixel_body. simpl Nat.add.
  rewrite put_frame. simpl. rewrite put_frame. simpl. rewrite put_frame.
  unfold pixel_out, channel. rewrite <- !app_assoc. simpl.
  by rewrite Nat.add_0_r.
Qed.

Lemma row_body_frame img y done k :
  row_body (id_width img) (padding_of (id_width img)) (id_data img) y
    (frame done ((id_width img * 3 + padding_of (id_width img)) + k))
  = Some (frame (done ++ row_out img y) k).
Proof.
  unfold row_body.
  replace (id_width img * 3 + padding_of (id_width img) + k)%nat
    with (id_width img * 3 + (padding_of (id_width img) + k))%nat by lia.
  rewrite (for_loop_frame _ (pixel_out img y) 3)
    by (intros; apply pixel_body_frame).
  simpl.
  replace (padding_of (id_width img) + k)%nat
    with (padding_of (id_width img) * 1 + k)%nat by lia.
  rewrite (for_loop_frame _ (fun _ => [0]) 1).
  - rewrite flat_map_const_repeat. unfold row_out. by rewrite <- app_assoc.
  - intros i d k'. simpl. apply (put_frame 0).
Qed.

Ltac header_write :=
  rewrite write_app by (cbn; lia);
  cbn [mbind option_bind];
  match goal with
  | |- context [write (?hd ++ _) _ _] =>
      let hd' := eval cbn [firstn skipn app length le_bytes ordered rev Nat.add]
                 in hd in
      change hd with hd'
  | |- context [for_loop _ _ _ (?hd ++ _, _)] =>
      let hd' := eval cbn [firstn skipn app length le_bytes ordered rev Nat.add]
                 in hd in
      change hd with hd'
  end.

Lemma rows_loop_frame img hd :
  for_loop (id_height img) 0
    (row_body (id_width img) (padding_of (id_width img)) (id_data img))
    (frame hd ((id_width img * 3 + padding_of (id_width img)) * id_height img))
  = Some (frame (hd ++ flat_map (row_out img) (seq 0 (id_height img))) 0).
Proof.
  replace ((id_width img * 3 + padding_of (id_width img)) * id_height img)%nat
    with (id_height img * (id_width img * 3 + padding_of (id_width img)) + 0)%nat
    by lia.
  apply (for_loop_frame _ (row_out img)). intros; apply row_body_frame.
Qed.

Lemma encodeBMP_bytes img :
  let out := file_header (fileSize_of img)
             ++ info_header (id_width img) (id_height img)
             ++ flat_map (row_out img) (seq 0 (id_height img)) in
  encodeBMP img
  = Some {| blob_type := "image/bmp";
            blob_size := Z.of_nat (length out);
            blob_bytes := out |}.
Proof.
  intros out. unfold encodeBMP. cbv zeta.
  rewrite repeat_app. cbn [repeat].
  unfold setUint16, setUint32, setInt32.
  do 16 header_write.
  match goal with
  | |- context [for_loop _ _ _ (?hd ++ ?tl, _)] =>
      change (hd ++ tl, 54%nat)
        with (frame hd ((id_width img * 3 + padding_of (id_width img))
                        * id_height img))
  end.
  rewrite rows_loop_frame.
  cbn [mbind option_bind frame fst snd repeat]. rewrite app_nil_r.
  subst out. unfold fileSize_of, file_header, info_header.
  cbn [app le_bytes Nat.add]. reflexivity.
Qed.

Lemma le_value_le_bytes n v : le_value (le_bytes n v) = v mod 256 ^ Z.of_nat n.
Proof.
  revert v; induction n as [|n IH]; intros v.
  - simpl. by rewrite Z.mod_1_r.
  - cbn [le_bytes le_value]. rewrite IH, Nat2Z.inj_succ, Z.pow_succ_r by lia.
    rewrite Z.rem_mul_r by lia. reflexivity.
Qed.

Lemma int32_value_neg (h : Z) :
  0 <= h <= 2 ^ 31 -> int32_value (le_bytes 4 (- h)) = - h.
Proof.
  intros Hh. unfold int32_value. rewrite le_value_le_bytes.
  change (256 ^ Z.of_nat 4) with (2 ^ 32).
  destruct (decide (h = 0)) as [->|Hne]; [reflexivity|].
  assert (Hm : (- h) mod 2 ^ 32 = 2 ^ 32 - h).
  { symmetry. apply (Z.mod_unique _ _ (-1)); lia. }
  rewrite Hm. destruct (Z.ltb_spec (2 ^ 32 - h) (2 ^ 31)); lia.
Qed.

Lemma int32_value_pos (w : Z) :
  0 <= w < 2 ^ 31 -> int32_value (le_bytes 4 w) = w.
Proof.
  intros Hw. unfold int32_value. rewrite le_value_le_bytes.
  change (256 ^ Z.of_nat 4) with (2 ^ 32).
  rewrite Z.mod_small by lia. destruct (Z.ltb_spec w (2 ^ 31)); lia.
Qed.

Lemma padding_of_spec w :
  (padding_of w < 4)%nat /\ ((w * 3 + padding_of w) mod 4 = 0)%nat.
Proof.
  unfold padding_of.
  pose proof (Nat.mod_upper_bound (w * 3) 4 ltac:(lia)) as Hr.
  pose proof (Nat.div_mod_eq (w * 3) 4) as Hq.
  set (r := ((w * 3) mod 4)%nat) in *. set (q := ((w * 3) / 4)%nat) in *.
  clearbody r q. rewrite Hq. clear Hq.
  assert (Hc : r = 0%nat \/ r = 1%nat \/ r = 2%nat \/ r = 3%nat) by lia.
  destruct Hc as [-> | [-> | [-> | ->]]].
  - change ((4 - 0) mod 4)%nat with 0%nat. split; [lia|].
    replace (4 * q + 0 + 0)%nat with (q * 4)%nat by lia. apply Nat.Div0.mod_mul.
  - change ((4 - 1) mod 4)%nat with 3%nat. split; [lia|].
    replace (4 * q + 1 + 3)%nat with ((q + 1) * 4)%nat by lia.
    apply Nat.Div0.mod_mul.
  - change ((4 - 2) mod 4)%nat with 2%nat. split; [lia|].
    replace (4 * q + 2 + 2)%nat with ((q + 1) * 4)%nat by lia.
    apply Nat.Div0.mod_mul.
  - change ((4 - 3) mod 4)%nat with 1%nat. split; [lia|].
    replace (4 * q + 3 + 1)%nat with ((q + 1) * 4)%nat by lia.
    apply Nat.Div0.mod_mul.
Qed.

Lemma flat_map_length_const {A B} (f : A -> list B) (c : nat) (l : list A) :
  (forall a, length (f a) = c) -> length (flat_map f l) = (length l * c)%nat.
Proof.
  intros Hf. induction l as [|a l IH]; simpl; [done|].
  rewrite length_app, Hf, IH. lia.
Qed.

Lemma bmp_row_length img y :
  length (bmp_row img y) = (id_width img * 3 + padding_of (id_width img))%nat.
Proof.
  unfold bmp_row. rewrite length_app, repeat_length.
  rewrite (flat_map_length_const _ 3) by done. by rewrite length_seq.
Qed.

Lemma bmp_rows_length img :
  length (bmp_rows img)
  = (id_height img * (id_width img * 3 + padding_of (id_width img)))%nat.
Proof.
  unfold bmp_rows. rewrite (flat_map_length_const _ _ _ (bmp_row_length img)).
  by rewrite length_seq.
Qed.

Lemma sample_byte data i :
  Forall (fun v => 0 <= v < 256) data -> sample data i mod 256 = sample data i.
Proof.
  intros Hall. unfold sample. destruct (data !! i) as [v|] eqn:Hv; simpl.
  - rewrite Forall_lookup in Hall. apply Z.mod_small. by apply (Hall i).
  - reflexivity.
Qed.

Lemma row_out_bmp_row img y :
  Forall (fun v => 0 <= v < 256) (id_data img) -> row_out img y = bmp_row img y.
Proof.
  intros Hall. unfold row_out, bmp_row. f_equal.
  apply flat_map_ext. intros x. unfold pixel_out, bgr_pixel, channel.
  by rewrite !sample_byte.
Qed.

Lemma channel_in_range img x y c :
  length (id_data img) = (4 * id_width img * id_height img)%nat ->
  (x < id_width img)%nat -> (y < id_height img)%nat -> (c < 4)%nat ->
  id_data img !! ((y * id_width img + x) * 4 + c)%nat = Some (channel img x y c).
Proof.
  intros Hlen Hx Hy Hc. unfold channel, sample.
  destruct (id_data img !! ((y * id_width img + x) * 4 + c)%nat) as [v|] eqn:Hv;
    [reflexivity|].
  apply lookup_ge_None in Hv. rewrite Hlen in Hv. nia.
Qed.

(** C5. For a W x H RGBA buffer as a canvas hands it out, [encodeBMP]
    returns (it never runs off its buffer) exactly 54 + H * (3 W + pad)
    bytes, pad = (4 - (3 W mod 4)) mod 4: a 14-byte file header starting
    with the BM signature, a 40-byte info header whose height field reads
    back as the negative number -H (top-down order), then the rows from
    top to bottom, each pixel as the three bytes B, G, R without its alpha
    and each row closed by pad zero bytes, so that a row's length is a
    multiple of 4. *)
Theorem encodeBMP_layout (img : ImageData) :
  wf_ImageData img ->
  Z.of_nat (id_width img) < 2 ^ 31 ->
  Z.of_nat (id_height img) < 2 ^ 31 ->
  let W := id_width img in
  let H := id_height img in
  let pad := ((4 - (3 * W) mod 4) mod 4)%nat in
  exists blob,
    encodeBMP img = Some blob
    /\ length (blob_bytes blob) = (54 + H * (3 * W + pad))%nat
    /\ blob_size blob = Z.of_nat (54 + H * (3 * W + pad))%nat
    /\ blob_bytes blob
       = file_header (54 + H * (3 * W + pad))
         ++ info_header W H ++ flat_map (bmp_row img) (seq 0 H)
    /\ length (file_header (54 + H * (3 * W + pad))) = 14%nat
    /\ length (info_header W H) = 40%nat
    /\ take 2 (blob_bytes blob) = [0x42; 0x4D]
    /\ int32_value (take 4 (drop 18 (blob_bytes blob))) = Z.of_nat W
    /\ int32_value (take 4 (drop 22 (blob_bytes blob))) = - Z.of_nat H
    /\ (forall y,
          bmp_row img y
          = flat_map (fun x => [channel img x y 2; channel img x y 1;
                                channel img x y 0]) (seq 0 W)
            ++ repeat 0 pad)
    /\ (forall y, length (bmp_row img y) = (3 * W + pad)%nat
                  /\ (length (bmp_row img y) mod 4 = 0)%nat)
    /\ (forall x y c, (x < W)%nat -> (y < H)%nat -> (c < 4)%nat ->
          id_data img !! ((y * W + x) * 4 + c)%nat = Some (channel img x y c)).
Proof.
  intros [Hlen Hbytes] HW HH W H pad.
  assert (Hpad : pad = padding_of W)
    by (unfold pad, padding_of; by rewrite (Nat.mul_comm 3 W)).
  assert (Hfs : (54 + H * (3 * W + pad))%nat = fileSize_of img)
    by (unfold fileSize_of; fold W H; rewrite Hpad; lia).
  pose proof (encodeBMP_bytes img) as Henc. cbv zeta in Henc.
  erewrite (flat_map_ext (row_out img)) in Henc
    by (intros; by apply row_out_bmp_row).
  eexists. split; [exact Henc|]. cbn [blob_bytes blob_size]. rewrite Hfs.
  assert (Hl : length (file_header (fileSize_of img)
                       ++ info_header (id_width img) (id_height img)
                       ++ flat_map (bmp_row img) (seq 0 (id_height img)))
               = fileSize_of img).
  { rewrite !length_app. fold (bmp_rows img). rewrite bmp_rows_length.
    unfold fileSize_of. simpl. lia. }
  split; [exact Hl|]. split; [f_equal; exact Hl|]. split; [reflexivity|].
  split; [reflexivity|]. split; [reflexivity|]. split; [reflexivity|].
  split.
  { unfold file_header, info_header. cbn [app le_bytes skipn firstn].
    apply (int32_value_pos (Z.of_nat (id_width img))). lia. }
  split.
  { unfold file_header, info_header. cbn [app le_bytes skipn firstn].
    apply (int32_value_neg (Z.of_nat (id_height img))). lia. }
  split.
  { intros y. unfold bmp_row, bgr_pixel. fold W. by rewrite Hpad. }
  split.
  { intros y. rewrite bmp_row_length. fold W. rewrite Hpad.
    split; [lia|]. apply padding_of_spec. }
  intros x y c Hx Hy Hc. by apply channel_in_range.
Qed.

Lemma encodeBMP_layout_witness :
  wf_ImageData rgbw_2x2
  /\ exists blob, encodeBMP rgbw_2x2 = Some blob
                  /\ length (blob_bytes blob) = 70%nat.
Proof.
  assert (Hwf : wf_ImageData rgbw_2x2).
  { split; [reflexivity|]. unfold rgbw_2x2; simpl. repeat constructor; lia. }
  split; [exact Hwf|].
  destruct (encodeBMP_layout rgbw_2x2 Hwf ltac:(simpl; lia) ltac:(simpl; lia))
    as (blob & Henc & Hlen & _).
  exists blob. split; [exact Henc | exact Hlen].
Defined.

End BmpEncoderFacts.

(** ** The input validator *)

Section FileValidationFacts.
Import SecurityConstants FileValidation.

Lemma byte_at_true header i b : byte_at header i b = true <-> header !! i = Some b.
Proof.
  unfold byte_at. destruct (header !! i) as [b'|]; [|split; discriminate].
  rewrite Z.eqb_eq. split; [by intros ->|by intros [= ->]].
Qed.

Lemma every_byte_spec header i sig :
  every_byte header i sig = true <-> sig `prefix_of` drop i header.
Proof.
  revert i. induction sig as [|b sig IH]; intros i; simpl.
  - split; [intros _; apply prefix_nil|done].
  - rewrite andb_true_iff, byte_at_true, IH. split.
    + intros [Hb Hp]. rewrite (drop_S _ _ _ Hb). by apply prefix_cons.
    + intros [k Hk]. destruct (header !! i) as [b'|] eqn:Hb.
      * rewrite (drop_S _ _ _ Hb) in Hk. simpl in Hk.
        injection Hk as -> Hk. split; [done|]. by exists k.
      * apply lookup_ge_None in Hb. rewrite drop_ge in Hk by done. discriminate.
Qed.

Lemma prefix_of_take (sig l : list Z) n :
  (length sig <= n)%nat -> sig `prefix_of` take n l <-> sig `prefix_of` l.
Proof.
  intros Hn. split.
  - intros Hp. etrans; [exact Hp|]. apply prefix_take.
  - intros [k ->]. rewrite take_app_ge by done. by apply prefix_app_r.
Qed.

Lemma prefix_of_full (sig l : list Z) :
  (length l <= length sig)%nat -> sig `prefix_of` l <-> l = sig.
Proof.
  intros Hl. split; [|intros ->; done].
  intros [k ->]. rewrite length_app in Hl. destruct k; [by rewrite app_nil_r|].
  simpl in Hl. lia.
Qed.

Lemma matchesSignature_spec header signatures :
  matchesSignature header signatures = true
  <-> exists sig, In sig signatures /\ sig `prefix_of` header.
Proof.
  unfold matchesSignature. rewrite existsb_exists.
  split; intros (sig & Hin & H); exists sig; (split; [done|]).
  - by apply every_byte_spec in H.
  - by apply every_byte_spec.
Qed.

Lemma isWebP_spec file :
  isWebP file = true
  <-> [0x52; 0x49; 0x46; 0x46] `prefix_of` file_bytes file
      /\ take 4 (drop 8 (file_bytes file)) = [0x57; 0x45; 0x42; 0x50].
Proof.
  unfold isWebP, readFileHeader. cbv zeta.
  set (header := take 12 (file_bytes file)).
  assert (Hr : byte_at header 0 82 && byte_at header 1 73
               && byte_at header 2 70 && byte_at header 3 70
               = every_byte header 0 [82; 73; 70; 70]).
  { simpl. rewrite andb_true_r. by rewrite !andb_assoc. }
  assert (Hw : byte_at header 8 87 && byte_at header 9 69
               && byte_at header 10 66 && byte_at header 11 80
               = every_byte header 8 [87; 69; 66; 80]).
  { simpl. rewrite andb_true_r. by rewrite !andb_assoc. }
  rewrite Hr, Hw, andb_true_iff, !every_byte_spec. unfold header.
  rewrite drop_0, prefix_of_take by (simpl; lia).
  rewrite skipn_firstn_comm. change (12 - 8)%nat with 4%nat.
  rewrite (prefix_of_full [87; 69; 66; 80])
    by (rewrite length_take; cbn [length]; lia).
  done.
Qed.

(** Every signature of the table fits in the 16-byte header that
    [detectImageType] reads. *)
Lemma matches_header_spec file signatures :
  Forall (fun sig => (length sig <= 16)%nat) signatures ->
  matchesSignature (readFileHeader file 16) signatures = true
  <-> exists sig, In sig signatures /\ sig `prefix_of` file_bytes file.
Proof.
  intros Hall. rewrite matchesSignature_spec. unfold readFileHeader.
  rewrite List.Forall_forall in Hall.
  split; intros (sig & Hin & Hp); exists sig; (split; [done|]).
  - exact (proj1 (prefix_of_take sig _ 16 (Hall _ Hin)) Hp).
  - exact (proj2 (prefix_of_take sig _ 16 (Hall _ Hin)) Hp).
Qed.

Ltac table_lengths := repeat constructor; simpl; lia.

(** The loop of [detectImageType], unrolled over the five table entries. *)
Lemma detectImageType_unfold file :
  detectImageType file =
  let header := readFileHeader file 16 in
  if matchesSignature header
       [[255; 216; 255; 224]; [255; 216; 255; 225];
        [255; 216; 255; 232]; [255; 216; 255; 219]]
  then Some "image/jpeg"%string
  else if matchesSignature header [[137; 80; 78; 71; 13; 10; 26; 10]]
  then Some "image/png"%string
  else if isWebP file then Some "image/webp"%string
  else if matchesSignature header [[66; 77]] then Some "image/bmp"%string
  else if matchesSignature header
            [[71; 73; 70; 56; 55; 97]; [71; 73; 70; 56; 57; 97]]
  then Some "image/gif"%string
  else None.
Proof. reflexivity. Qed.

Lemma detectImageType_sound file mime :
  detectImageType file = Some mime -> allowlisted (file_bytes file) mime.
Proof.
  rewrite detectImageType_unfold. cbv zeta.
  repeat match goal with
  | |- context [matchesSignature ?h ?s] =>
      let E := fresh "E" in destruct (matchesSignature h s) eqn:E
  | |- context [isWebP ?f] =>
      let E := fresh "E" in destruct (isWebP f) eqn:E
  end; cbv iota; intros Heq; try discriminate Heq; injection Heq as <-;
  repeat match goal with
  | E : matchesSignature _ _ = false |- _ => clear E
  | E : isWebP _ = false |- _ => clear E
  end.
  all: match goal with
       | E : matchesSignature _ _ = true |- _ =>
           apply matches_header_spec in E; [|table_lengths];
           destruct E as (sig & Hin & Hp);
           eexists _, sig; split; [simpl; eauto 10|];
           split; [done|]; split; [done|discriminate]
       | E : isWebP _ = true |- _ =>
           apply isWebP_spec in E; destruct E as [Hr Hw];
           eexists _, _; split; [simpl; eauto 10|]; split; [by left|]; by split
       end.
Qed.

Ltac some_branch E :=
  rewrite E;
  repeat first [ destruct (matchesSignature _ _) | destruct (isWebP _) ];
  cbv iota; discriminate.

Lemma detectImageType_complete file mime :
  allowlisted (file_bytes file) mime -> detectImageType file <> None.
Proof.
  intros (signatures & sig & Hin & Hsig & Hp & Hw).
  rewrite detectImageType_unfold. cbv zeta.
  unfold FILE_SIGNATURES in Hin. simpl in Hin.
  destruct Hin as [Hin|[Hin|[Hin|[Hin|[Hin|[]]]]]]; injection Hin as <- <-.
  - assert (E : matchesSignature (readFileHeader file 16)
                  [[255; 216; 255; 224]; [255; 216; 255; 225];
                   [255; 216; 255; 232]; [255; 216; 255; 219]] = true)
      by (apply matches_header_spec; [table_lengths|eauto]).
    some_branch E.
  - assert (E : matchesSignature (readFileHeader file 16)
                  [[137; 80; 78; 71; 13; 10; 26; 10]] = true)
      by (apply matches_header_spec; [table_lengths|eauto]).
    some_branch E.
  - assert (E : isWebP file = true).
    { apply isWebP_spec. destruct Hsig as [<-|[]]. split; [done|by apply Hw]. }
    some_branch E.
  - assert (E : matchesSignature (readFileHeader file 16) [[66; 77]] = true)
      by (apply matches_header_spec; [table_lengths|eauto]).
    some_branch E.
  - assert (E : matchesSignature (readFileHeader file 16)
                  [[71; 73; 70; 56; 55; 97]; [71; 73; 70; 56; 57; 97]] = true)
      by (apply matches_header_spec; [table_lengths|eauto]).
    some_branch E.
Qed.

Lemma detectImageType_None file :
  detectImageType file = None <-> forall mime, ~ allowlisted (file_bytes file) mime.
Proof.
  split.
  - intros Hn mime Ha. by apply (detectImageType_complete file mime).
  - intros Hno. destruct (detectImageType file) as [mime|] eqn:E; [|done].
    exfalso. apply (Hno mime). by apply detectImageType_sound.
Qed.

(** Every signature of the table has at least two bytes, and its first
    byte tells the format. *)
Lemma allowlisted_head bytes mime :
  allowlisted bytes mime ->
  (2 <= length bytes)%nat
  /\ ((mime = "image/jpeg"%string /\ bytes !! 0%nat = Some 0xFF)
      \/ (mime = "image/png"%string /\ bytes !! 0%nat = Some 0x89)
      \/ (mime = "image/webp"%string /\ bytes !! 0%nat = Some 0x52)
      \/ (mime = "image/bmp"%string /\ bytes !! 0%nat = Some 0x42)
      \/ (mime = "image/gif"%string /\ bytes !! 0%nat = Some 0x47)).
Proof.
  intros (signatures & sig & Hin & Hsig & [k ->] & _).
  unfold FILE_SIGNATURES in Hin. simpl in Hin.
  destruct Hin as [Hin|[Hin|[Hin|[Hin|[Hin|[]]]]]]; injection Hin as <- <-;
    simpl in Hsig;
    repeat match goal with
    | H : _ \/ _ |- _ => destruct H as [H|H]
    | H : False |- _ => destruct H
    end; subst sig; (split; [cbn; lia|]); cbn; tauto.
Qed.

Lemma allowlisted_unique bytes m1 m2 :
  allowlisted bytes m1 -> allowlisted bytes m2 -> m1 = m2.
Proof.
  intros H1 H2.
  destruct (allowlisted_head _ _ H1) as [_ C1].
  destruct (allowlisted_head _ _ H2) as [_ C2].
  destruct C1 as [[-> E1]|[[-> E1]|[[-> E1]|[[-> E1]|[-> E1]]]]];
    destruct C2 as [[-> E2]|[[-> E2]|[[-> E2]|[[-> E2]|[-> E2]]]]];
    try reflexivity; rewrite E1 in E2; discriminate.
Qed.

End FileValidationFacts.

Section ValidateImageFileFacts.
Import SecurityConstants FileValidation.

Variable createImageBitmap : File -> option ImageBitmap.

Lemma rejection_reasons_distinct (type : string) :
  empty_error <> size_error
  /\ empty_error <> mime_error type
  /\ empty_error <> signature_error
  /\ size_error <> mime_error type
  /\ size_error <> signature_error
  /\ mime_error type <> signature_error.
Proof.
  unfold mime_error. destruct (String.eqb type EmptyString);
    repeat split; vm_compute; discriminate.
Qed.

(** C6. [validateImageFile] checks in a fixed order and stops at the first
    failure: an empty file is rejected as empty whatever else is wrong with
    it; otherwise a file above MAX_FILE_SIZE is rejected for its size;
    otherwise a declared type that does not start with "image/" is rejected
    as an invalid MIME type; otherwise a content that carries no signature
    of the allowlist (four JPEG variants, PNG, RIFF with the nested WEBP
    tag, BMP, GIF87a and GIF89a) is rejected as an unsupported format.  The
    four reasons are pairwise different, and none of these rejections
    consults the decoder. *)
Theorem validateImageFile_check_order (file : File) :
  let size := file_size file in
  let type := file_type file in
  (size = 0 ->
     validateImageFile createImageBitmap file = reject "File is empty (0 bytes)")
  /\ (size <> 0 -> size > MAX_FILE_SIZE ->
     validateImageFile createImageBitmap file
     = reject "File size exceeds limit of 100MB")
  /\ (size <> 0 -> size <= MAX_FILE_SIZE -> String.prefix "image/" type = false ->
     validateImageFile createImageBitmap file = reject (mime_error type))
  /\ (size <> 0 -> size <= MAX_FILE_SIZE -> String.prefix "image/" type = true ->
     (forall mime, ~ allowlisted (file_bytes file) mime) ->
     validateImageFile createImageBitmap file
     = reject "File header does not match any supported image format (JPG, PNG, WebP, BMP)")
  /\ (empty_error <> size_error /\ empty_error <> mime_error type
      /\ empty_error <> signature_error /\ size_error <> mime_error type
      /\ size_error <> signature_error /\ mime_error type <> signature_error).
Proof.
  intros size type. unfold validateImageFile. fold size type.
  split; [|split; [|split; [|split]]].
  - intros ->. reflexivity.
  - intros Hne Hgt. rewrite (proj2 (Z.eqb_neq _ _) Hne).
    rewrite (proj2 (Z.gtb_gt _ _)) by lia. reflexivity.
  - intros Hne Hle Hp. rewrite (proj2 (Z.eqb_neq _ _) Hne).
    destruct (Z.gtb_spec size MAX_FILE_SIZE); [lia|]. by rewrite Hp.
  - intros Hne Hle Hp Hno. rewrite (proj2 (Z.eqb_neq _ _) Hne).
    destruct (Z.gtb_spec size MAX_FILE_SIZE); [lia|]. rewrite Hp. simpl.
    by rewrite (proj2 (detectImageType_None file) Hno).
  - apply rejection_reasons_distinct.
Qed.

(** C7. The dimension guard fails closed: for a file that passed the size,
    MIME and signature checks, [validateImageFile] rejects when the decode
    probe throws, and rejects when the probed width exceeds MAX_WIDTH, the
    height exceeds MAX_HEIGHT or their product exceeds MAX_PIXELS. *)
Theorem validateImageFile_fails_closed (file : File) (detected : string) :
  file_size file <> 0 -> file_size file <= MAX_FILE_SIZE ->
  String.prefix "image/" (file_type file) = true ->
  detectImageType file = Some detected ->
  (createImageBitmap file = None ->
     validateImageFile createImageBitmap file = reject dimension_error
     /\ isValid (validateImageFile createImageBitmap file) = false)
  /\ (forall bitmap, createImageBitmap file = Some bitmap ->
        bm_width bitmap > MAX_WIDTH \/ bm_height bitmap > MAX_HEIGHT
        \/ bm_width bitmap * bm_height bitmap > MAX_PIXELS ->
        validateImageFile createImageBitmap file = reject dimension_error
        /\ isValid (validateImageFile createImageBitmap file) = false).
Proof.
  intros Hne Hle Hp Hd.
  assert (Hv : validateImageFile createImageBitmap file
               = if negb (checkDimensions createImageBitmap file)
                 then reject dimension_error
                 else {| isValid := true; error := None;
                         detectedType := Some detected |}).
  { unfold validateImageFile. rewrite (proj2 (Z.eqb_neq _ _) Hne).
    destruct (Z.gtb_spec (file_size file) MAX_FILE_SIZE); [lia|].
    by rewrite Hp, Hd. }
  rewrite Hv. unfold checkDimensions. split.
  - intros ->. by split.
  - intros bitmap -> Hbig. cbv zeta.
    destruct (Z.gtb_spec (bm_width bitmap) MAX_WIDTH);
      destruct (Z.gtb_spec (bm_height bitmap) MAX_HEIGHT); simpl; try done.
    destruct (Z.gtb_spec (bm_width bitmap * bm_height bitmap) MAX_PIXELS);
      simpl; [done|]. lia.
Qed.

(** C10, as amended.  The declared subtype is never compared with the
    detected one: a file of at most MAX_FILE_SIZE bytes whose declared type
    starts with "image/", whose content carries the signature of an
    allowlisted format and whose probed dimensions are within the limits is
    accepted, and the result reports the format of the signature, whatever
    the declared subtype is; the format found does not depend on the
    declared type at all. *)
Theorem validateImageFile_reports_detected_type
  (file : File) (mime : string) (bitmap : ImageBitmap) :
  file_size file <= MAX_FILE_SIZE ->
  String.prefix "image/" (file_type file) = true ->
  allowlisted (file_bytes file) mime ->
  createImageBitmap file = Some bitmap ->
  bm_width bitmap <= MAX_WIDTH -> bm_height bitmap <= MAX_HEIGHT ->
  bm_width bitmap * bm_height bitmap <= MAX_PIXELS ->
  validateImageFile createImageBitmap file
  = {| isValid := true; error := None; detectedType := Some mime |}
  /\ (forall declared,
        detectImageType (mkFile declared (file_bytes file)) = Some mime).
Proof.
  intros Hle Hp Ha Hb Hw Hh Hwh.
  assert (Hdet : forall f, file_bytes f = file_bytes file ->
                   detectImageType f = Some mime).
  { intros f Hf. destruct (detectImageType f) as [found|] eqn:Hd.
    - f_equal. apply detectImageType_sound in Hd. rewrite Hf in Hd.
      by apply (allowlisted_unique (file_bytes file)).
    - exfalso. apply (detectImageType_complete f mime); [|done]. by rewrite Hf. }
  split; [|intros declared; by apply Hdet].
  assert (Hne : file_size file <> 0).
  { apply allowlisted_head in Ha. unfold file_size. lia. }
  unfold validateImageFile. rewrite (proj2 (Z.eqb_neq _ _) Hne).
  destruct (Z.gtb_spec (file_size file) MAX_FILE_SIZE); [lia|].
  rewrite Hp, (Hdet file eq_refl). simpl. unfold checkDimensions. rewrite Hb.
  cbv zeta.
  destruct (Z.gtb_spec (bm_width bitmap) MAX_WIDTH); [lia|].
  destruct (Z.gtb_spec (bm_height bitmap) MAX_HEIGHT); [lia|].
  destruct (Z.gtb_spec (bm_width bitmap * bm_height bitmap) MAX_PIXELS); [lia|].
  reflexivity.
Qed.

End ValidateImageFileFacts.

Lemma unknown_image_not_allowlisted mime :
  ~ FileValidation.allowlisted (file_bytes unknown_image) mime.
Proof.
  apply (proj1 (detectImageType_None unknown_image)). reflexivity.
Qed.

Lemma validateImageFile_check_order_witness :
  FileValidation.validateImageFile decode_fails empty_file
  = FileValidation.reject "File is empty (0 bytes)"
  /\ FileValidation.validateImageFile decode_fails text_file
     = FileValidation.reject "Invalid MIME type: text/plain"
  /\ FileValidation.validateImageFile decode_fails unknown_image
     = FileValidation.reject
         "File header does not match any supported image format (JPG, PNG, WebP, BMP)".
Proof.
  split; [|split].
  - apply (validateImageFile_check_order decode_fails empty_file). reflexivity.
  - apply (validateImageFile_check_order decode_fails text_file).
    + vm_compute; discriminate.
    + vm_compute; discriminate.
    + reflexivity.
  - apply (validateImageFile_check_order decode_fails unknown_image).
    + vm_compute; discriminate.
    + vm_compute; discriminate.
    + reflexivity.
    + apply unknown_image_not_allowlisted.
Defined.

Lemma validateImageFile_fails_closed_witness :
  FileValidation.isValid
    (FileValidation.validateImageFile decode_fails png_declared_jpeg) = false
  /\ FileValidation.isValid
       (FileValidation.validateImageFile (decode_as 20000 10) png_declared_jpeg)
     = false.
Proof.
  split.
  - apply (validateImageFile_fails_closed decode_fails png_declared_jpeg
             "image/png");
      [vm_compute; discriminate | vm_compute; discriminate
      | reflexivity | reflexivity | reflexivity].
  - apply (proj2 (validateImageFile_fails_closed (decode_as 20000 10)
                    png_declared_jpeg "image/png"
                    ltac:(vm_compute; discriminate)
                    ltac:(vm_compute; discriminate) eq_refl eq_refl)
             (mkImageBitmap 20000 10) eq_refl).
    left. vm_compute. reflexivity.
Defined.

(** The example of C10: declared "image/jpeg", content a PNG, accepted as
    "image/png". *)
Lemma validateImageFile_reports_detected_type_witness :
  FileValidation.validateImageFile (decode_as 640 480) png_declared_jpeg
  = {| FileValidation.isValid := true;
       FileValidation.error := None;
       FileValidation.detectedType := Some "image/png"%string |}.
Proof.
  apply (validateImageFile_reports_detected_type (decode_as 640 480)
           png_declared_jpeg "image/png" (mkImageBitmap 640 480));
    try first [ reflexivity | vm_compute; discriminate ].
  by apply (detectImageType_sound png_declared_jpeg).
Defined.

(** The claim C10 as stated fails here: a file declared "image/png" that
    starts with the PNG signature and decodes to 640 x 480, but is eight
    bytes longer than MAX_FILE_SIZE, is rejected for its size. *)
Lemma oversized_image_is_rejected :
  String.prefix "image/" (file_type oversized_png) = true
  /\ FileValidation.allowlisted (file_bytes oversized_png) "image/png"
  /\ FileValidation.checkDimensions (decode_as 640 480) oversized_png = true
  /\ file_size oversized_png = SecurityConstants.MAX_FILE_SIZE + 8
  /\ FileValidation.validateImageFile (decode_as 640 480) oversized_png
     = FileValidation.reject FileValidation.size_error.
Proof.
  assert (Hsize : file_size oversized_png = SecurityConstants.MAX_FILE_SIZE + 8).
  { unfold file_size, oversized_png. cbn [file_bytes].
    rewrite length_app, repeat_length, Nat2Z.inj_add, Z2Nat.id by done.
    cbn [length]. lia. }
  split; [reflexivity|]. split.
  { exists [[0x89; 0x50; 0x4E; 0x47; 0x0D; 0x0A; 0x1A; 0x0A]],
      [0x89; 0x50; 0x4E; 0x47; 0x0D; 0x0A; 0x1A; 0x0A].
    split; [right; left; reflexivity|]. split; [left; reflexivity|].
    split; [|discriminate].
    by exists (repeat 0 (Z.to_nat SecurityConstants.MAX_FILE_SIZE)). }
  split; [reflexivity|]. split; [exact Hsize|].
  unfold FileValidation.validateImageFile. rewrite Hsize.
  reflexivity.
Qed.

(** ** The transform engine *)

Section ImageProcessorFacts.
Import SecurityConstants ImageProcessor.

Variable createImageBitmap : File -> option ImageBitmap.
Variable getContext : Z -> Z -> bool.
Variable getImageData : Canvas -> list Z.
Variable convertToBlob : Canvas -> string -> option Q -> option Blob.

Local Abbreviation processImage :=
  (processImage createImageBitmap getContext getImageData convertToBlob).
Local Abbreviation process_body := (process_body getContext getImageData convertToBlob).
Local Abbreviation mergeImages := (mergeImages createImageBitmap getContext convertToBlob).
Local Abbreviation merge_body := (merge_body getContext convertToBlob).
Local Abbreviation sizeSearch := (sizeSearch convertToBlob).
Local Abbreviation search_loop := (search_loop convertToBlob).
Local Abbreviation export := (export convertToBlob).
Local Abbreviation export_stage :=
  (export_stage getImageData convertToBlob).
Local Abbreviation size_at := (size_at convertToBlob).

Lemma quiet_nil : quiet [].
Proof. by repeat split. Qed.

Lemma quiet_app l1 l2 : quiet l1 -> quiet l2 -> quiet (l1 ++ l2).
Proof.
  unfold quiet, canvases, decoded, closed. rewrite !flat_map_app.
  intros (-> & -> & ->) (-> & -> & ->). by repeat split.
Qed.

Lemma bind_log {A B} (m : Run A) (k : A -> Run B) (P : list Event -> Prop) :
  (forall l1 l2, P l1 -> P l2 -> P (l1 ++ l2)) ->
  P m.1 -> (forall a, P (k a).1) -> P (bind m k).1.
Proof.
  intros Happ Hm Hk. destruct m as [log [a|e]]; simpl in *; [|done].
  specialize (Hk a). destruct (k a) as [log' r]. simpl in *. by apply Happ.
Qed.

Lemma export_quiet canvas type q : quiet (export canvas type q).1.
Proof. unfold ImageProcessor.export. by destruct (convertToBlob _ _ _). Qed.

Lemma search_loop_quiet canvas mime target n lo hi best :
  quiet (search_loop canvas mime target n lo hi best).1.
Proof.
  revert lo hi best. induction n as [|n IH]; intros lo hi best; simpl.
  - apply quiet_nil.
  - apply bind_log; [apply quiet_app|apply export_quiet|].
    intros a. destruct (Qltb _ _); apply IH.
Qed.

Lemma sizeSearch_quiet canvas mime kb : quiet (sizeSearch canvas mime kb).1.
Proof.
  unfold ImageProcessor.sizeSearch.
  apply bind_log; [apply quiet_app|apply export_quiet|].
  intros a. destruct (Qle_bool _ _); [apply quiet_nil|].
  apply bind_log; [apply quiet_app|apply search_loop_quiet|].
  intros [[? ?] [b|]]; [apply quiet_nil|apply export_quiet].
Qed.

Lemma export_stage_quiet canvas options :
  quiet (export_stage canvas options).1.
Proof.
  unfold ImageProcessor.export_stage.
  destruct (format_eqb (format options) bmp).
  - cbn [tell bind]. destruct (BmpEncoder.encodeBMP _); by repeat split.
  - cbv zeta. destruct (targetSizeKB options) as [kb|]; [|apply export_quiet].
    destruct (_ && _); [apply sizeSearch_quiet|apply export_quiet].
Qed.

Lemma drawn_quiet bitmap options tw th : quiet (drawn bitmap options tw th).
Proof.
  unfold drawn. destruct (source_region bitmap options) as [[[sx sy] sw] sh].
  cbv zeta. destruct (_ || _); by repeat split.
Qed.

(** The [try] block of [processImage]: with a NaN dimension it throws at
    once; otherwise it either stops at the pixel limit before any canvas
    exists, or creates exactly one canvas, of the clamped size.  It neither
    decodes nor closes a bitmap itself. *)
Lemma process_body_log bitmap file options :
  (exists tw th,
     targetWidth options = Some tw /\ targetHeight options = Some th
     /\ ((tw * th > MAX_PIXELS
          /\ process_body bitmap file options = ([], Threw (Message limit_error)))
         \/ (tw * th <= MAX_PIXELS
             /\ exists rest,
                 (process_body bitmap file options).1 = EvNewCanvas tw th :: rest
                 /\ quiet rest)))
  \/ ((targetWidth options = None \/ targetHeight options = None)
      /\ process_body bitmap file options = ([], Threw TypeError)).
Proof.
  unfold ImageProcessor.process_body.
  destruct (targetWidth options) as [tw|]; [|right; split; [by left|done]].
  destruct (targetHeight options) as [th|]; [|right; split; [by right|done]].
  left. exists tw, th. split; [done|]. split; [done|].
  destruct (Z.gtb_spec (tw * th) MAX_PIXELS) as [Hgt|Hle].
  { left. split; [lia|done]. }
  right. split; [lia|].
  unfold tell, bind. destruct (getContext tw th); cbn [negb].
  2:{ exists []. split; [done|apply quiet_nil]. }
  pose proof (export_stage_quiet
                (mkCanvas tw th (drawn bitmap options tw th)) options) as Hm.
  destruct (export_stage _ _) as [log' r]. cbn [fst] in *.
  exists (drawn bitmap options tw th ++ log'). split; [done|].
  apply quiet_app; [apply drawn_quiet|exact Hm].
Qed.




(** *** Releasing the decoded bitmaps *)

Lemma decode_all_events files :
  decoded (map EvDecoded (decode_all createImageBitmap files).1)
  = (decode_all createImageBitmap files).1.
Proof.
  generalize (decode_all createImageBitmap files).1. intros l.
  induction l as [|b l IH]; [done|]. cbn. by f_equal.
Qed.

Lemma decoded_map_decoded l : decoded (map EvDecoded l) = l.
Proof. induction l as [|b l IH]; [done|]. cbn. by f_equal. Qed.
Lemma closed_map_decoded l : closed (map EvDecoded l) = [].
Proof. induction l as [|b l IH]; [done|]. by cbn. Qed.
Lemma decoded_map_close l : decoded (map EvClose l) = [].
Proof. induction l as [|b l IH]; [done|]. by cbn. Qed.
Lemma closed_map_close l : closed (map EvClose l) = l.
Proof. induction l as [|b l IH]; [done|]. cbn. by f_equal. Qed.
Lemma canvases_map_decoded l : canvases (map EvDecoded l) = [].
Proof. induction l as [|b l IH]; [done|]. by cbn. Qed.
Lemma canvases_map_close l : canvases (map EvClose l) = [].
Proof. induction l as [|b l IH]; [done|]. by cbn. Qed.

Lemma draw_all_quiet cols cw ch i l : quiet (draw_all cols cw ch i l).
Proof.
  revert i. induction l as [|b l IH]; intros i; [apply quiet_nil|].
  cbn [draw_all]. destruct (placement _ _ _ _ _) as [x y].
  apply (quiet_app [_]); [by repeat split|apply IH].
Qed.

(** The rest of the [try] block of [mergeImages] creates at most one
    canvas and touches no bitmap handle. *)
Lemma merge_body_log bitmaps :
  let log := (merge_body bitmaps).1 in
  decoded log = [] /\ closed log = []
  /\ (canvases log = []
      \/ exists w h, canvases log = [(w, h)] /\ w * h <= MAX_PIXELS).
Proof.
  unfold ImageProcessor.merge_body. cbv zeta.
  set (cw := _ * Math_ceil_sqrt _). set (ch := _ * Math_ceil_div _ _).
  destruct (Z.gtb_spec (cw * ch) MAX_PIXELS) as [Hgt|Hle]; [cbn; tauto|].
  cbn [tell bind]. destruct (getContext cw ch); cbn [negb].
  2:{ cbn. repeat split; try done. right. exists cw, ch. split; [done|lia]. }
  match goal with
  | |- context [(EvFillRect ?s ?a ?b ?c ?d :: ?draws)] =>
      set (ops := EvFillRect s a b c d :: draws);
      assert (Hops : quiet ops)
        by (apply (quiet_app [_]); [by repeat split|apply draw_all_quiet])
  end.
  match goal with
  | |- context [let '(log', r) := ?m in _] =>
      assert (Hm : quiet m.1) by apply export_quiet; destruct m as [log' r]
  end.
  cbn [fst snd] in *.
  destruct (quiet_app _ _ Hops Hm) as (Hc & Hd & Hcl).
  unfold canvases, decoded, closed in *. cbn [flat_map app].
  rewrite Hc, Hd, Hcl. repeat split; try done.
  right. exists cw, ch. split; [done|lia].
Qed.

(** C9. Every decoded bitmap is closed on every exit path.  In
    [processImage], once the file decoded, the run decodes that one bitmap,
    closes it exactly once, and the close is its last action, whether the
    run returns a blob (normal export, BMP branch, size search) or throws;
    when decoding fails there is no bitmap.  In [mergeImages], the bitmaps
    closed are exactly the bitmaps decoded, in order and after everything
    else, whether compositing succeeded, threw, or a later file failed to
    decode. *)
Theorem bitmaps_closed_on_every_path
  (file : File) (options : ProcessOptions) (files : list File) :
  (forall bitmap, createImageBitmap file = Some bitmap ->
     let log := (processImage file options).1 in
     decoded log = [bitmap] /\ closed log = [bitmap]
     /\ exists middle, log = EvDecoded bitmap :: middle ++ [EvClose bitmap]
                       /\ decoded middle = [] /\ closed middle = [])
  /\ (createImageBitmap file = None ->
        processImage file options = ([], Threw DecodeFailed))
  /\ (let log := (mergeImages files).1 in
      closed log = decoded log
      /\ (files <> [] -> decoded log = (decode_all createImageBitmap files).1)
      /\ exists middle,
           log = map EvDecoded (decoded log) ++ middle ++ map EvClose (decoded log)
           /\ decoded middle = [] /\ closed middle = []).
Proof.
  split; [|split].
  - intros bitmap Hb log. unfold log, ImageProcessor.processImage, decode.
    rewrite Hb. cbn [bind].
    assert (Hbody : exists middle,
              (process_body bitmap file options).1 = middle
              /\ decoded middle = [] /\ closed middle = []).
    { destruct (process_body_log bitmap file options)
        as [(tw & th & _ & _ & [[_ ->]|[_ (rest & -> & _ & Hd & Hc)]])|[_ ->]].
      - by exists [].
      - eexists. split; [done|]. split; [exact Hd|exact Hc].
      - by exists []. }
    destruct Hbody as (middle & Hm & Hd & Hc).
    destruct (process_body bitmap file options) as [log' r]. cbn in Hm. subst log'.
    cbn [finally fst]. unfold decoded, closed in *.
    cbn [flat_map app]. rewrite !flat_map_app, Hd, Hc. cbn.
    repeat split; try done. exists middle. by rewrite Hd, Hc.
  - intros Hb. unfold ImageProcessor.processImage, decode. by rewrite Hb.
  - unfold ImageProcessor.mergeImages.
    destruct files as [|f files']; [cbn; split; [done|split; [done|by exists []]]|].
    cbn [length Nat.eqb].
    destruct (decode_all createImageBitmap (f :: files')) as [bitmaps ok] eqn:Hdec.
    assert (Hmid : exists middle r,
              (if ok then merge_body bitmaps else throw DecodeFailed) = (middle, r)
              /\ decoded middle = [] /\ closed middle = []).
    { destruct ok.
      - pose proof (merge_body_log bitmaps) as (Hd & Hc & _).
        destruct (merge_body bitmaps) as [middle r]. by exists middle, r.
      - by exists [], (Threw DecodeFailed). }
    destruct Hmid as (middle & r & -> & Hd & Hc). cbn [fst].
    assert (Hdl : decoded (map EvDecoded bitmaps ++ middle ++ map EvClose bitmaps)
                  = bitmaps).
    { unfold decoded in *. rewrite !flat_map_app, Hd.
      fold (decoded (map EvDecoded bitmaps)). fold (decoded (map EvClose bitmaps)).
      rewrite decoded_map_decoded, decoded_map_close. by rewrite app_nil_r. }
    assert (Hcl : closed (map EvDecoded bitmaps ++ middle ++ map EvClose bitmaps)
                  = bitmaps).
    { unfold closed in *. rewrite !flat_map_app, Hc.
      fold (closed (map EvDecoded bitmaps)). fold (closed (map EvClose bitmaps)).
      by rewrite closed_map_decoded, closed_map_close. }
    rewrite Hdl, Hcl. split; [done|]. split; [done|]. by exists middle.
Qed.

(** *** The size search *)

Lemma Qltb_lt x y : Qltb x y = true <-> (x < y)%Q.
Proof.
  unfold Qltb. rewrite Qlt_alt. destruct (x ?= y)%Q; split; congruence.
Qed.

Lemma Qltb_ge x y : Qltb x y = false <-> (y <= x)%Q.
Proof.
  rewrite <- not_true_iff_false, Qltb_lt. split.
  - apply Qnot_lt_le.
  - intros Hle Hlt. by apply (Qle_not_lt _ _ Hle).
Qed.

Lemma midpoint_between (lo hi : Q) :
  (lo < hi)%Q -> (lo < (lo + hi) / 2)%Q /\ ((lo + hi) / 2 < hi)%Q.
Proof.
  intros H. split.
  - apply Qlt_shift_div_l; [reflexivity|]. lra.
  - apply Qlt_shift_div_r; [reflexivity|]. lra.
Qed.

Section SizeSearchFacts.

Variable canvas : Canvas.
Variable mimeType : string.
Variable targetBytes : Q.

(** The encoder produces a blob at every quality it is asked for. *)
Hypothesis encoder_total :
  forall q, is_Some (convertToBlob canvas mimeType (Some q)).

Local Abbreviation under := (under_budget (size_at canvas mimeType) targetBytes).
Local Abbreviation probe := (fun q => EvConvertToBlob mimeType (Some q)).

Lemma under_spec q :
  under q = true
  <-> exists b, convertToBlob canvas mimeType (Some q) = Some b
                /\ (inject_Z (blob_size b) < targetBytes)%Q.
Proof.
  unfold under_budget, ImageProcessor.size_at.
  destruct (convertToBlob canvas mimeType (Some q)) as [b|]; simpl.
  - rewrite Qltb_lt. split; [by exists b|]. by intros (? & [= <-] & ?).
  - split; [done|]. by intros (? & [=] & _).
Qed.

(** The loop: [n] probes along the bisection; its final [bestBlob] is the
    initial one when no probe went under budget, and otherwise the blob of
    the under-budget probe of highest quality. *)
Lemma search_loop_spec n : forall lo hi best,
  (lo < hi)%Q ->
  exists qs lo' hi' best',
    search_loop canvas mimeType targetBytes n lo hi best
    = (map probe qs, Returned (lo', hi', best'))
    /\ length qs = n
    /\ bisection (size_at canvas mimeType) targetBytes lo hi qs
    /\ Forall (fun q => lo < q /\ q < hi)%Q qs
    /\ (Forall (fun q => under q = false) qs -> best' = best)
    /\ (Exists (fun q => under q = true) qs ->
        exists q b, In q qs /\ under q = true
          /\ convertToBlob canvas mimeType (Some q) = Some b
          /\ best' = Some b
          /\ Forall (fun q' => under q' = true -> q' <= q)%Q qs).
Proof.
  induction n as [|n IH]; intros lo hi best Hlt.
  { exists [], lo, hi, best. repeat split; try constructor.
    intros H; inversion H. }
  cbn [ImageProcessor.search_loop]. cbv zeta.
  set (mid := ((lo + hi) / 2)%Q).
  destruct (midpoint_between lo hi Hlt) as [Hlo Hhi]. fold mid in Hlo, Hhi.
  unfold ImageProcessor.export.
  destruct (encoder_total mid) as [b Hb]. rewrite Hb. cbn [bind].
  assert (Hu : under mid = Qltb (inject_Z (blob_size b)) targetBytes).
  { unfold under_budget, ImageProcessor.size_at. by rewrite Hb. }
  destruct (Qltb (inject_Z (blob_size b)) targetBytes) eqn:Hcmp.
  - destruct (IH mid hi (Some b) Hhi)
      as (qs & lo' & hi' & best' & Hrun & Hlen & Hbis & Hin & Hnone & Hsome).
    rewrite Hrun. exists (mid :: qs), lo', hi', best'.
    split; [done|]. split; [by simpl; rewrite Hlen|].
    split; [by apply bisection_raise|].
    split.
    { constructor; [done|]. eapply Forall_impl; [exact Hin|].
      intros q [H1 H2]. split; [|done]. by apply (Qlt_trans _ mid). }
    split.
    { intros Hall. inversion Hall; subst. congruence. }
    intros _.
    destruct (decide (Exists (fun q => under q = true) qs)) as [Hex|Hnex].
    + destruct (Hsome Hex) as (q & b' & Hq & Huq & Hbq & -> & Hmax).
      exists q, b'. split; [by right|]. do 3 (split; [done|]).
      constructor; [|done]. intros _.
      rewrite Forall_forall in Hin. apply Qlt_le_weak.
      by apply (Hin q); apply list_elem_of_In.
    + exists mid, b. split; [by left|]. split; [done|]. split; [done|].
      split.
      { apply Hnone. apply Forall_Exists_neg in Hnex.
        eapply Forall_impl; [exact Hnex|]. intros q Hq. simpl in Hq.
        by destruct (under q). }
      constructor; [intros _; apply Qle_refl|].
      apply Forall_Exists_neg in Hnex.
      eapply Forall_impl; [exact Hnex|]. intros q Hq Hq'. simpl in Hq. done.
  - destruct (IH lo mid best Hlo)
      as (qs & lo' & hi' & best' & Hrun & Hlen & Hbis & Hin & Hnone & Hsome).
    rewrite Hrun. exists (mid :: qs), lo', hi', best'.
    split; [done|]. split; [by simpl; rewrite Hlen|].
    split; [by apply bisection_lower|].
    split.
    { constructor; [done|]. eapply Forall_impl; [exact Hin|].
      intros q [H1 H2]. split; [done|]. by apply (Qlt_trans _ mid). }
    split.
    { intros Hall. inversion Hall; subst. by apply Hnone. }
    intros Hex. inversion Hex as [? ? Hx|? ? Hx]; subst; [congruence|].
    destruct (Hsome Hx) as (q & b' & Hq & Huq & Hbq & -> & Hmax).
    exists q, b'. split; [by right|]. do 3 (split; [done|]).
    constructor; [|done]. intros Hcontra. congruence.
Qed.

End SizeSearchFacts.

Lemma Qle_bool_gt x y : Qle_bool x y = false <-> (y < x)%Q.
Proof.
  rewrite <- not_true_iff_false, Qle_bool_iff. split.
  - apply Qnot_le_lt.
  - intros Hlt Hle. by apply (Qlt_not_le _ _ Hlt).
Qed.

(** [sizeSearch] as a whole, for an encoder that produces a blob at every
    quality. *)
Lemma sizeSearch_spec canvas mimeType kb :
  (forall q, is_Some (convertToBlob canvas mimeType (Some q))) ->
  let targetBytes := (kb * 1024)%Q in
  let conv := fun q => convertToBlob canvas mimeType (Some q) in
  let under := under_budget (size_at canvas mimeType) targetBytes in
  let probe := fun q => EvConvertToBlob mimeType (Some q) in
  exists first, conv 1%Q = Some first
    /\ ((inject_Z (blob_size first) <= targetBytes)%Q ->
        sizeSearch canvas mimeType kb = ([probe 1%Q], Returned first))
    /\ ((targetBytes < inject_Z (blob_size first))%Q ->
        exists qs,
          length qs = 5%nat
          /\ bisection (size_at canvas mimeType) targetBytes (1 # 100) 1 qs
          /\ Forall (fun q => (1 # 100) < q /\ q < 1)%Q qs
          /\ (Exists (fun q => under q = true) qs ->
                exists q best,
                  In q qs /\ under q = true /\ conv q = Some best
                  /\ Forall (fun q' => under q' = true -> q' <= q)%Q qs
                  /\ sizeSearch canvas mimeType kb
                     = (probe 1%Q :: map probe qs, Returned best))
          /\ (Forall (fun q => under q = false) qs ->
                exists low,
                  conv (1 # 100)%Q = Some low
                  /\ sizeSearch canvas mimeType kb
                     = (probe 1%Q :: map probe qs ++ [probe (1 # 100)%Q],
                        Returned low))).
Proof.
  intros Htotal targetBytes conv under probe.
  destruct (Htotal 1%Q) as [first Hfirst]. exists first. split; [done|].
  unfold ImageProcessor.sizeSearch, ImageProcessor.export. cbv zeta.
  fold targetBytes. rewrite Hfirst. cbn [bind].
  split.
  - intros Hle. apply Qle_bool_iff in Hle. by rewrite Hle.
  - intros Hgt. rewrite (proj2 (Qle_bool_gt _ _) Hgt).
    destruct (search_loop_spec canvas mimeType targetBytes Htotal 5
                (1 # 100)%Q 1%Q None ltac:(reflexivity))
      as (qs & lo' & hi' & best' & Hrun & Hlen & Hbis & Hin & Hnone & Hsome).
    exists qs. do 3 (split; [done|]). rewrite Hrun. cbn [bind]. split.
    + intros Hex. destruct (Hsome Hex) as (q & b & Hq & Hu & Hb & -> & Hmax).
      exists q, b. do 4 (split; [done|]). cbn. by rewrite app_nil_r.
    + intros Hall. rewrite (Hnone Hall).
      destruct (Htotal (1 # 100)%Q) as [low Hlow]. exists low.
      split; [done|]. by rewrite Hlow.
Qed.

Lemma exports_app l1 l2 : exports (l1 ++ l2) = exports l1 ++ exports l2.
Proof. apply flat_map_app. Qed.

Lemma exports_probes mimeType qs :
  exports (map (fun q => EvConvertToBlob mimeType (Some q)) qs) = map Some qs.
Proof. induction qs as [|q qs IH]; [done|]. cbn. by f_equal. Qed.

Lemma drawn_exports bitmap options tw th :
  exports (drawn bitmap options tw th) = [].
Proof.
  unfold drawn. destruct (source_region bitmap options) as [[[sx sy] sw] sh].
  cbv zeta. by destruct (_ || _).
Qed.

(** When the size search applies, [processImage] is the search wrapped in
    the decode, the drawing and the final close. *)
Lemma processImage_runs_sizeSearch file options bitmap tw th kb :
  createImageBitmap file = Some bitmap ->
  targetWidth options = Some tw -> targetHeight options = Some th ->
  tw * th <= MAX_PIXELS ->
  getContext tw th = true ->
  format options = jpeg \/ format options = webp ->
  targetSizeKB options = Some kb -> (0 < kb)%Q ->
  let canvas := mkCanvas tw th (drawn bitmap options tw th) in
  let mimeType := String.append "image/" (format_name (format options)) in
  let search := sizeSearch canvas mimeType kb in
  (processImage file options).2 = search.2
  /\ exports (processImage file options).1 = exports search.1.
Proof.
  intros Hb Hw Hh Hpx Hctx Hfmt Hkb Hpos canvas mimeType search.
  unfold ImageProcessor.processImage, decode. rewrite Hb. cbn [bind].
  unfold ImageProcessor.process_body. rewrite Hw, Hh.
  destruct (Z.gtb_spec (tw * th) MAX_PIXELS); [lia|].
  rewrite Hctx. unfold tell, bind. cbn [negb]. fold canvas.
  assert (Hstage : export_stage canvas options = search).
  { assert (Hnb : format_eqb (format options) bmp = false)
      by (destruct Hfmt as [Hf|Hf]; by rewrite Hf).
    assert (Hlossy : format_eqb (format options) jpeg
                     || format_eqb (format options) webp = true)
      by (destruct Hfmt as [Hf|Hf]; by rewrite Hf).
    unfold ImageProcessor.export_stage. cbv zeta.
    by rewrite Hnb, Hkb, Hlossy, (proj2 (Qltb_lt 0 kb) Hpos). }
  rewrite Hstage. destruct search as [log r]. cbn [finally fst snd].
  split; [done|].
  change (exports (EvDecoded bitmap :: (EvNewCanvas tw th
            :: drawn bitmap options tw th ++ log) ++ [EvClose bitmap]))
    with (exports ((drawn bitmap options tw th ++ log) ++ [EvClose bitmap])).
  rewrite !exports_app, drawn_exports. cbn. by rewrite app_nil_r.
Qed.

(** C3. The size-targeted quality search of [processImage], for a lossy
    format, a positive target and an encoder that produces a blob at every
    quality.  The first export is at quality 1 and is returned at once when
    its size is at most the target.  Otherwise exactly five probes follow,
    along the bisection of [0.01, 1]: each at the midpoint, the lower bound
    raised when the probe is strictly smaller than the target and the upper
    bound lowered otherwise.  The result is then the under-budget probe of
    highest quality, or, when no probe went under budget, one more export at
    quality 0.01, returned whatever its size.  In every case the run returns
    a blob, after five probes at most beyond the first export and seven
    exports in all. *)
Theorem processImage_size_search
  (file : File) (options : ProcessOptions) (bitmap : ImageBitmap) (tw th : Z)
  (kb : Q) :
  createImageBitmap file = Some bitmap ->
  targetWidth options = Some tw -> targetHeight options = Some th ->
  tw * th <= MAX_PIXELS ->
  getContext tw th = true ->
  format options = jpeg \/ format options = webp ->
  targetSizeKB options = Some kb -> (0 < kb)%Q ->
  let canvas := mkCanvas tw th (drawn bitmap options tw th) in
  let mimeType := String.append "image/" (format_name (format options)) in
  let targetBytes := (kb * 1024)%Q in
  let conv := fun q => convertToBlob canvas mimeType (Some q) in
  let under := under_budget (size_at canvas mimeType) targetBytes in
  (forall q, is_Some (conv q)) ->
  let run := processImage file options in
  exists first, conv 1%Q = Some first
    /\ ((inject_Z (blob_size first) <= targetBytes)%Q ->
        run.2 = Returned first /\ exports run.1 = [Some 1%Q])
    /\ ((targetBytes < inject_Z (blob_size first))%Q ->
        exists qs,
          length qs = 5%nat
          /\ bisection (size_at canvas mimeType) targetBytes (1 # 100) 1 qs
          /\ Forall (fun q => (1 # 100) < q /\ q < 1)%Q qs
          /\ (Exists (fun q => under q = true) qs ->
                exists q best,
                  In q qs /\ conv q = Some best
                  /\ (inject_Z (blob_size best) < targetBytes)%Q
                  /\ Forall (fun q' => under q' = true -> q' <= q)%Q qs
                  /\ run.2 = Returned best
                  /\ exports run.1 = Some 1%Q :: map Some qs)
          /\ (Forall (fun q => under q = false) qs ->
                exists low,
                  conv (1 # 100)%Q = Some low
                  /\ run.2 = Returned low
                  /\ exports run.1
                     = Some 1%Q :: map Some qs ++ [Some (1 # 100)%Q]))
    /\ (exists blob, run.2 = Returned blob)
    /\ (length (exports run.1) <= 7)%nat.
Proof.
  intros Hb Hw Hh Hpx Hctx Hfmt Hkb Hpos canvas mimeType targetBytes conv under
    Htotal run.
  destruct (processImage_runs_sizeSearch file options bitmap tw th kb
              Hb Hw Hh Hpx Hctx Hfmt Hkb Hpos) as [Hres Hexp].
  fold canvas mimeType run in Hres, Hexp.
  destruct (sizeSearch_spec canvas mimeType kb Htotal)
    as (first & Hfirst & Hquick & Hsearch).
  fold targetBytes in Hquick, Hsearch.
  exists first. split; [done|].
  assert (Hq : (inject_Z (blob_size first) <= targetBytes)%Q ->
               run.2 = Returned first /\ exports run.1 = [Some 1%Q]).
  { intros Hle. rewrite Hres, Hexp, (Hquick Hle). by split. }
  assert (Hs : (targetBytes < inject_Z (blob_size first))%Q ->
    exists qs,
      length qs = 5%nat
      /\ bisection (size_at canvas mimeType) targetBytes (1 # 100) 1 qs
      /\ Forall (fun q => (1 # 100) < q /\ q < 1)%Q qs
      /\ (Exists (fun q => under q = true) qs ->
            exists q best,
              In q qs /\ conv q = Some best
              /\ (inject_Z (blob_size best) < targetBytes)%Q
              /\ Forall (fun q' => under q' = true -> q' <= q)%Q qs
              /\ run.2 = Returned best
              /\ exports run.1 = Some 1%Q :: map Some qs)
      /\ (Forall (fun q => under q = false) qs ->
            exists low,
              conv (1 # 100)%Q = Some low
              /\ run.2 = Returned low
              /\ exports run.1
                 = Some 1%Q :: map Some qs ++ [Some (1 # 100)%Q])).
  { intros Hgt. destruct (Hsearch Hgt) as (qs & Hlen & Hbis & Hin & Hex & Hall).
    exists qs. do 3 (split; [done|]). split.
    - intros HE. destruct (Hex HE) as (q & best & Hq' & Hu & Hc & Hmax & Hrun).
      exists q, best. split; [done|]. split; [done|]. split.
      { apply (under_spec canvas mimeType targetBytes) in Hu.
        destruct Hu as (b & Hb' & Hlt). unfold conv in Hc. congruence. }
      split; [done|]. rewrite Hres, Hexp, Hrun. cbn [fst snd]. split; [done|].
      cbn [exports flat_map app]. f_equal. apply exports_probes.
    - intros HA. destruct (Hall HA) as (low & Hlow & Hrun).
      exists low. split; [done|]. rewrite Hres, Hexp, Hrun. cbn [fst snd].
      split; [done|]. cbn [exports flat_map app]. f_equal.
      fold (exports (map (fun q => EvConvertToBlob mimeType (Some q)) qs
                     ++ [EvConvertToBlob mimeType (Some (1 # 100)%Q)])).
      by rewrite exports_app, exports_probes. }
  split; [exact Hq|]. split; [exact Hs|].
  destruct (Qlt_le_dec targetBytes (inject_Z (blob_size first))) as [Hgt|Hle].
  - destruct (Hs Hgt) as (qs & Hlen & _ & _ & Hex & Hall).
    destruct (decide (Exists (fun q => under q = true) qs)) as [HE|HN].
    + destruct (Hex HE) as (q & best & _ & _ & _ & _ & Hr & He).
      split; [by exists best|]. rewrite He. cbn. rewrite length_map. lia.
    + assert (HA : Forall (fun q => under q = false) qs).
      { apply Forall_Exists_neg in HN. eapply Forall_impl; [exact HN|].
        intros q Hnq. simpl in Hnq. by destruct (under q). }
      destruct (Hall HA) as (low & _ & Hr & He).
      split; [by exists low|]. rewrite He. cbn.
      rewrite length_app, length_map. cbn. lia.
  - destruct (Hq Hle) as [Hr He]. split; [by exists first|]. rewrite He. cbn. lia.
Qed.

(** *** The grid merge *)

Lemma Math_ceil_sqrt_spec n :
  0 < n ->
  let c := Math_ceil_sqrt n in
  0 < c /\ (c - 1) * (c - 1) < n <= c * c.
Proof.
  intros Hn c. unfold c, Math_ceil_sqrt.
  pose proof (Z.sqrt_spec n ltac:(lia)) as [Hlo Hhi].
  pose proof (Z.sqrt_nonneg n) as Hs.
  set (s := Z.sqrt n) in *. cbv zeta.
  destruct (Z.eqb_spec (s * s) n) as [Heq|Hne]; nia.
Qed.

Lemma Math_ceil_div_eq n d : 0 < d -> Math_ceil_div n d = - ((- n) / d).
Proof.
  intros Hd. unfold Math_ceil_div, Qceiling. f_equal.
  rewrite (Zdiv_Qdiv (- n) d). apply Qfloor_comp.
  rewrite inject_Z_opp. unfold Qdiv. ring.
Qed.

Lemma Math_ceil_div_spec n d :
  0 < d ->
  let r := Math_ceil_div n d in (r - 1) * d < n <= r * d.
Proof.
  intros Hd r. unfold r. rewrite Math_ceil_div_eq by done.
  pose proof (Z.div_mod (- n) d ltac:(lia)) as Hdm.
  pose proof (Z.mod_pos_bound (- n) d Hd) as Hm. nia.
Qed.

Lemma fold_left_max_spec (vs : list Z) (v : Z) :
  let m := fold_left Z.max vs v in
  v <= m /\ Forall (fun x => x <= m) vs /\ (m = v \/ In m vs).
Proof.
  revert v. induction vs as [|x vs IH]; intros v; simpl.
  - repeat split; [lia|constructor|by left].
  - destruct (IH (Z.max v x)) as (H1 & H2 & H3).
    split; [lia|]. split; [constructor; [lia|done]|].
    destruct H3 as [H3|H3]; [|by right; right].
    rewrite H3. destruct (Z.max_spec v x) as [[_ ->]|[_ ->]]; [right; by left|by left].
Qed.

Lemma Math_max_spec (vs : list Z) :
  vs <> [] ->
  Forall (fun x => x <= Math_max vs) vs /\ In (Math_max vs) vs.
Proof.
  destruct vs as [|v vs]; [done|]. intros _. unfold Math_max.
  destruct (fold_left_max_spec vs v) as (H1 & H2 & H3).
  split; [by constructor|]. destruct H3 as [->|H3]; [by left|by right].
Qed.

Lemma draw_all_lookup cols cw ch bitmaps : forall start (i : nat) b,
  bitmaps !! i = Some b ->
  draw_all cols cw ch start bitmaps !! i
  = Some (EvDrawAt b (placement cols cw ch (start + Z.of_nat i) b).1
                     (placement cols cw ch (start + Z.of_nat i) b).2).
Proof.
  induction bitmaps as [|b0 bitmaps IH]; intros start i b Hb; [done|].
  cbn [draw_all]. destruct i as [|i].
  - injection Hb as ->. rewrite Z.add_0_r.
    by destruct (placement cols cw ch start b).
  - destruct (placement cols cw ch start b0) as [x0 y0].
    change ((EvDrawAt b0 x0 y0 :: draw_all cols cw ch (start + 1) bitmaps) !! S i)
      with (draw_all cols cw ch (start + 1) bitmaps !! i).
    rewrite (IH (start + 1) i b Hb).
    replace (start + 1 + Z.of_nat i) with (start + Z.of_nat (S i)) by lia.
    reflexivity.
Qed.

Lemma draw_all_length cols cw ch bitmaps start :
  length (draw_all cols cw ch start bitmaps) = length bitmaps.
Proof.
  revert start. induction bitmaps as [|b0 bitmaps IH]; intros start; [done|].
  cbn [draw_all]. destruct (placement _ _ _ _ _). cbn. by rewrite IH.
Qed.

(** A bitmap of extent [w] drawn at [a + (cell - w) / 2] sits inside the
    cell [a, a + cell], with the same margin on both sides. *)
Lemma centered_in_cell (a cell w : Z) :
  w <= cell ->
  let x := (inject_Z a + inject_Z (cell - w) / 2)%Q in
  (inject_Z a <= x)%Q
  /\ (x + inject_Z w <= inject_Z (a + cell))%Q
  /\ (x - inject_Z a == inject_Z (a + cell) - (x + inject_Z w))%Q.
Proof.
  intros Hw x. unfold x.
  rewrite Zle_Qle in Hw.
  unfold Z.sub. rewrite !inject_Z_plus, inject_Z_opp.
  set (A := inject_Z a) in *. set (C := inject_Z cell) in *.
  set (W := inject_Z w) in *.
  unfold Qdiv. change (/ 2)%Q with (1 # 2)%Q.
  repeat split; [lra|lra|ring].
Qed.

Lemma decode_all_Forall2 files bitmaps :
  Forall2 (fun f b => createImageBitmap f = Some b) files bitmaps ->
  decode_all createImageBitmap files = (bitmaps, true).
Proof.
  induction 1 as [|f b files bitmaps Hf _ IH]; [done|].
  cbn. by rewrite Hf, IH.
Qed.

(** C8. The grid of [mergeImages], for N >= 1 files that all decode:
    cols is the ceiling of the square root of N and rows the ceiling of
    N / cols; the cell is as wide as the widest source and as high as the
    highest; when the canvas area cols * cellW x rows * cellH exceeds
    MAX_PIXELS the run throws before any canvas exists; otherwise it
    creates that canvas, fills it white, and draws image i inside cell
    (i div cols, i mod cols) with equal margins left and right, and above
    and below. *)
Theorem mergeImages_grid (files : list File) (bitmaps : list ImageBitmap) :
  files <> [] ->
  Forall2 (fun f b => createImageBitmap f = Some b) files bitmaps ->
  let N := Z.of_nat (length files) in
  let cols := Math_ceil_sqrt N in
  let rows := Math_ceil_div N cols in
  let cellW := Math_max (map bm_width bitmaps) in
  let cellH := Math_max (map bm_height bitmaps) in
  let run := mergeImages files in
  (cols - 1) * (cols - 1) < N <= cols * cols
  /\ (rows - 1) * cols < N <= rows * cols
  /\ Forall (fun b => bm_width b <= cellW /\ bm_height b <= cellH) bitmaps
  /\ In cellW (map bm_width bitmaps) /\ In cellH (map bm_height bitmaps)
  /\ (cellW * cols * (cellH * rows) > MAX_PIXELS ->
        canvases run.1 = []
        /\ run.2 = Threw (Message (merge_error (cellW * cols) (cellH * rows))))
  /\ (cellW * cols * (cellH * rows) <= MAX_PIXELS ->
      canvases run.1 = [(cellW * cols, cellH * rows)])
  /\ (cellW * cols * (cellH * rows) <= MAX_PIXELS ->
      getContext (cellW * cols) (cellH * rows) = true ->
      exists draws,
        run.1 = map EvDecoded bitmaps
                ++ [EvNewCanvas (cellW * cols) (cellH * rows);
                    EvFillRect "white" 0 0 (cellW * cols) (cellH * rows)]
                ++ draws
                ++ [EvConvertToBlob "image/jpeg" (Some (9 # 10)%Q)]
                ++ map EvClose bitmaps
        /\ length draws = length bitmaps
        /\ forall (i : nat) b, bitmaps !! i = Some b ->
             let r := Z.of_nat i / cols in
             let c := Z.of_nat i mod cols in
             0 <= r < rows /\ 0 <= c < cols
             /\ exists x y,
                  draws !! i = Some (EvDrawAt b x y)
                  /\ (inject_Z (c * cellW) <= x)%Q
                  /\ (x + inject_Z (bm_width b) <= inject_Z ((c + 1) * cellW))%Q
                  /\ (x - inject_Z (c * cellW)
                      == inject_Z ((c + 1) * cellW) - (x + inject_Z (bm_width b)))%Q
                  /\ (inject_Z (r * cellH) <= y)%Q
                  /\ (y + inject_Z (bm_height b) <= inject_Z ((r + 1) * cellH))%Q
                  /\ (y - inject_Z (r * cellH)
                      == inject_Z ((r + 1) * cellH) - (y + inject_Z (bm_height b)))%Q).
Proof.
  intros Hne Hdec N cols rows cellW cellH run.
  assert (Hlen : length bitmaps = length files)
    by (symmetry; by eapply Forall2_length).
  assert (HN : 0 < N) by (unfold N; destruct files; [done|simpl; lia]).
  assert (Hbne : bitmaps <> []) by (destruct bitmaps; [simpl in Hlen; lia|done]).
  destruct (Math_ceil_sqrt_spec N HN) as [Hcpos Hcols]. fold cols in Hcpos, Hcols.
  pose proof (Math_ceil_div_spec N cols Hcpos) as Hrows.
  cbv zeta in Hrows. fold rows in Hrows.
  destruct (Math_max_spec (map bm_width bitmaps)) as [HWle HWin];
    [by destruct bitmaps|]. fold cellW in HWle, HWin.
  destruct (Math_max_spec (map bm_height bitmaps)) as [HHle HHin];
    [by destruct bitmaps|]. fold cellH in HHle, HHin.
  rewrite Forall_map in HWle, HHle.
  assert (Hcell : Forall (fun b => bm_width b <= cellW /\ bm_height b <= cellH)
                    bitmaps).
  { rewrite Forall_forall in *. intros b Hb. split; [by apply HWle|by apply HHle]. }
  do 5 (split; [done|]).
  assert (Hrun : run = let '(log, r) := merge_body bitmaps in
                       (map EvDecoded bitmaps ++ log ++ map EvClose bitmaps, r)).
  { unfold run, ImageProcessor.mergeImages.
    destruct files as [|f files']; [done|]. cbn [length Nat.eqb].
    by rewrite (decode_all_Forall2 _ _ Hdec). }
  assert (Hbody : merge_body bitmaps =
    if cellW * cols * (cellH * rows) >? MAX_PIXELS
    then throw (Message (merge_error (cellW * cols) (cellH * rows)))
    else
      bind (tell [EvNewCanvas (cellW * cols) (cellH * rows)]) (fun _ =>
        if negb (getContext (cellW * cols) (cellH * rows))
        then throw (Message "Failed to create canvas context")
        else
          let ops := EvFillRect "white" 0 0 (cellW * cols) (cellH * rows)
                     :: draw_all cols cellW cellH 0 bitmaps in
          bind (tell ops) (fun _ =>
            export (mkCanvas (cellW * cols) (cellH * rows) ops) "image/jpeg"
              (Some (9 # 10)%Q)))).
  { unfold ImageProcessor.merge_body. rewrite Hlen. reflexivity. }
  rewrite Hrun, Hbody. split; [|split].
  - intros Hgt. rewrite (proj2 (Z.gtb_gt _ _)) by lia.
    unfold throw. cbn [fst snd app]. split; [|done].
    unfold canvases. rewrite !flat_map_app. cbn [flat_map app].
    fold (canvases (map EvDecoded bitmaps)). fold (canvases (map EvClose bitmaps)).
    by rewrite canvases_map_decoded, canvases_map_close.
  - intros Hle.
    destruct (Z.gtb_spec (cellW * cols * (cellH * rows)) MAX_PIXELS); [lia|].
    cbv zeta. unfold tell, bind, throw, ImageProcessor.export.
    pose proof (draw_all_quiet cols cellW cellH 0 bitmaps) as (Hdq & _ & _).
    destruct (getContext _ _); cbn [negb]; [destruct (convertToBlob _ _ _)|];
      cbn [fst]; unfold canvases in *; rewrite !flat_map_app;
      cbn [flat_map app]; rewrite ?flat_map_app, ?Hdq;
      fold (canvases (map EvDecoded bitmaps));
      fold (canvases (map EvClose bitmaps));
      by rewrite canvases_map_decoded, canvases_map_close.
  - intros Hle Hctx.
    destruct (Z.gtb_spec (cellW * cols * (cellH * rows)) MAX_PIXELS); [lia|].
    rewrite Hctx. cbv zeta. unfold tell, bind, ImageProcessor.export. cbn [negb].
    exists (draw_all cols cellW cellH 0 bitmaps).
    split.
    { destruct (convertToBlob _ _ _); cbn [fst]; by rewrite <- !app_assoc. }
    split; [apply draw_all_length|].
    intros i b Hb.
    set (r := Z.of_nat i / cols). set (c := Z.of_nat i mod cols).
    assert (Hi : 0 <= Z.of_nat i < N).
    { apply lookup_lt_Some in Hb. unfold N. lia. }
    assert (Hc : 0 <= c < cols) by (apply Z.mod_pos_bound; lia).
    assert (Hr : 0 <= r < rows).
    { split; [apply Z.div_pos; lia|]. apply Z.div_lt_upper_bound; [lia|]. nia. }
    split; [done|]. split; [done|].
    rewrite Forall_forall in Hcell.
    destruct (Hcell b) as [Hw Hh]; [by eapply list_elem_of_lookup_2|].
    pose proof (draw_all_lookup cols cellW cellH bitmaps 0 i b Hb) as Hd.
    rewrite Z.add_0_l in Hd. unfold placement in Hd. cbn [fst snd] in Hd.
    fold r c in Hd. eexists _, _. split; [exact Hd|].
    destruct (centered_in_cell (c * cellW) cellW (bm_width b) Hw) as (X1 & X2 & X3).
    destruct (centered_in_cell (r * cellH) cellH (bm_height b) Hh) as (Y1 & Y2 & Y3).
    replace ((c + 1) * cellW) with (c * cellW + cellW) by lia.
    replace ((r + 1) * cellH) with (r * cellH + cellH) by lia.
    done.
Qed.

End ImageProcessorFacts.

(** ** The job scheduler *)

Section WorkerManagerFacts.
Import WorkerManager.

Variable clonable : WorkerMessage -> bool.

Local Abbreviation dispatch := (dispatch clonable).
Local Abbreviation step := (step clonable).
Local Abbreviation run := (run clonable).
Local Abbreviation onmessage := (onmessage clonable).


Lemma in_flight_nonneg st : 0 <= in_flight st.
Proof. unfold in_flight. destruct (worker st); lia. Qed.

Lemma dispatch_slots_ok queue : forall st,
  slots_ok st -> slots_ok (dispatch queue st).1.
Proof.
  induction queue as [|job rest IH]; intros st [[H0 H1] H2]; [done|].
  cbn [WorkerManager.dispatch].
  destruct (Z.ltb_spec (activeJobs st) MAX_CONCURRENCY) as [Hlt|Hge]; [|done].
  unfold getWorker, in_flight in *. cbn [worker].
  destruct (worker st) as [inbox|] eqn:Hw;
    (destruct (clonable (job_message job));
     [ unfold slots_ok, in_flight, post; cbn; rewrite ?length_app; cbn; lia
     | cbn [activeJobs jobQueue worker pendingOperations];
       match goal with
       | |- context [dispatch rest ?s] =>
           specialize (IH s); destruct (dispatch rest s) as [st5 effs]
       end;
       apply IH; unfold slots_ok, in_flight; cbn; lia ]).
Qed.

Lemma answer_length id inbox :
  In id (map msg_id inbox) -> length inbox = S (length (answer id inbox)).
Proof.
  induction inbox as [|m inbox IH]; [done|]. cbn [map In answer].
  destruct (String.eqb_spec (msg_id m) id) as [Heq|Hne]; [done|].
  intros [Hin|Hin]; [done|]. cbn. by rewrite <- IH.
Qed.

Lemma step_slots_ok st input :
  slots_ok st -> admissible st input -> slots_ok (step st input).1.
Proof.
  intros Hok Hadm. destruct input as [message promise|response| |]; cbn.
  - unfold enqueueJob, processNextJob. cbn [jobQueue].
    apply dispatch_slots_ok. exact Hok.
  - destruct Hadm as (inbox & Hw & Hin). rewrite Hw.
    unfold WorkerManager.onmessage. cbn [pendingOperations answered].
    destruct Hok as [[H0 H1] H2]. unfold in_flight in H0, H1.
    rewrite Hw in H0, H1. pose proof (answer_length _ _ Hin) as Hlen.
    destruct (map_get (resp_id response) (pendingOperations st)) as [p|].
    + unfold processNextJob. cbn [jobQueue].
      match goal with
      | |- context [dispatch ?q ?s] =>
          pose proof (dispatch_slots_ok q s) as Hd;
          destruct (dispatch q s) as [st2 effs]
      end.
      apply Hd. unfold slots_ok, in_flight. cbn. rewrite Hw. cbn. lia.
    + cbn. unfold slots_ok, in_flight. cbn. rewrite Hw. cbn. lia.
  - destruct (worker st); [|done]. cbn. unfold slots_ok, in_flight. cbn.
    unfold MAX_CONCURRENCY. lia.
  - unfold slots_ok, in_flight. cbn. unfold MAX_CONCURRENCY. lia.
Qed.

Lemma reachable_slots_ok st : reachable clonable st -> slots_ok st.
Proof.
  induction 1 as [|st input _ IH Hadm].
  - unfold slots_ok, in_flight. cbn. unfold MAX_CONCURRENCY. lia.
  - by apply step_slots_ok.
Qed.

(** *** FIFO *)

Lemma dispatched_app l1 l2 : dispatched (l1 ++ l2) = dispatched l1 ++ dispatched l2.
Proof. apply flat_map_app. Qed.
Lemma posted_app l1 l2 : posted (l1 ++ l2) = posted l1 ++ posted l2.
Proof. apply flat_map_app. Qed.
Lemma rejected_app l1 l2 : rejected (l1 ++ l2) = rejected l1 ++ rejected l2.
Proof. apply flat_map_app. Qed.

Lemma getWorker_effects st :
  dispatched (getWorker st).2 = [] /\ posted (getWorker st).2 = []
  /\ rejected (getWorker st).2 = [].
Proof. unfold getWorker. by destruct (worker st). Qed.

(** What one call of [processNextJob] does to the queue: it starts a
    prefix of it, oldest first; every started job but the last failed its
    hand-off and was rejected; at most one job, the last started, reached
    the worker. *)
Lemma dispatch_spec queue : forall st,
  exists failed ok,
    queue = failed ++ ok ++ jobQueue (dispatch queue st).1
    /\ dispatched (dispatch queue st).2 = failed ++ ok
    /\ Forall (fun j => clonable (job_message j) = false) failed
    /\ rejected (dispatch queue st).2
       = map (fun j => (job_promise j, clone_reason)) failed
    /\ posted (dispatch queue st).2 = map job_message ok
    /\ (ok = [] \/ exists j, ok = [j] /\ clonable (job_message j) = true)
    /\ activeJobs (dispatch queue st).1 = activeJobs st + Z.of_nat (length ok)
    /\ (ok = [] -> activeJobs st < MAX_CONCURRENCY ->
        jobQueue (dispatch queue st).1 = []).
Proof.
  induction queue as [|job rest IH]; intros st.
  { exists [], []. cbn. repeat split; try done; try lia; by left. }
  cbn [WorkerManager.dispatch].
  destruct (Z.ltb_spec (activeJobs st) MAX_CONCURRENCY) as [Hlt|Hge].
  2:{ exists [], []. cbn. repeat split; try done; try lia; by left. }
  match goal with
  | |- context [getWorker ?s] =>
      pose proof (getWorker_effects s) as (Hg1 & Hg2 & Hg3);
      assert (Hga : activeJobs (getWorker s).1 = activeJobs st + 1)
        by (unfold getWorker; cbn; by destruct (worker st));
      assert (Hgq : jobQueue (getWorker s).1 = rest)
        by (unfold getWorker; cbn; by destruct (worker st));
      destruct (getWorker s) as [st2 spawned]
  end.
  cbn [fst snd] in *.
  destruct (clonable (job_message job)) eqn:Hc.
  - exists [], [job]. cbn [fst snd app map length].
    unfold dispatched, posted, rejected in *. cbn [flat_map app].
    rewrite !flat_map_app, Hg1, Hg2, Hg3. cbn.
    repeat split; try done; try lia; [by rewrite Hgq|right; by exists job].
  - cbn [activeJobs jobQueue worker pendingOperations].
    match goal with
    | |- context [dispatch rest ?s] =>
        destruct (IH s) as (failed & ok & Hq & Hd & Hf & Hr & Hp & Hok & Ha & He);
        destruct (dispatch rest s) as [st5 effs]
    end.
    cbn [fst snd activeJobs] in *.
    exists (job :: failed), ok.
    unfold dispatched, posted, rejected in *. cbn [flat_map app].
    rewrite !flat_map_app, Hg1, Hg2, Hg3. cbn [flat_map app map].
    rewrite Hd, Hr, Hp.
    split; [by rewrite Hq at 1|]. split; [done|]. split; [by constructor|].
    split; [done|]. split; [done|]. split; [done|]. split; [lia|].
    intros Hnil _. apply He; [done|lia].
Qed.

Lemma dispatch_fifo queue st :
  dispatched (dispatch queue st).2 ++ jobQueue (dispatch queue st).1 = queue.
Proof.
  destruct (dispatch_spec queue st) as (failed & ok & Hq & Hd & _).
  rewrite Hd, <- app_assoc. by rewrite <- Hq.
Qed.

Lemma step_fifo st input :
  resets input = false ->
  dispatched (step st input).2 ++ jobQueue (step st input).1
  = jobQueue st ++ submitted [input].
Proof.
  intros Hr. destruct input as [message promise|response| |]; try done; cbn.
  - unfold enqueueJob, processNextJob. cbn [jobQueue]. apply dispatch_fifo.
  - rewrite app_nil_r. destruct (worker st) as [inbox|]; [|done].
    unfold WorkerManager.onmessage. cbn [pendingOperations answered].
    destruct (map_get _ _) as [p|]; [|done].
    unfold processNextJob. cbn [jobQueue].
    match goal with
    | |- context [dispatch ?q ?s] =>
        pose proof (dispatch_fifo q s) as Hd; destruct (dispatch q s) as [st2 effs]
    end.
    cbn [fst snd] in *. rewrite dispatched_app.
    assert (Hs : dispatched (settle p response) = []).
    { unfold settle. destruct (resp_type response), (result response); done. }
    by rewrite Hs, app_nil_r.
Qed.

Lemma run_fifo inputs : forall st,
  forallb (fun i => negb (resets i)) inputs = true ->
  dispatched (run st inputs).2 ++ jobQueue (run st inputs).1
  = jobQueue st ++ submitted inputs.
Proof.
  induction inputs as [|input inputs IH]; intros st Hall.
  { cbn. by rewrite app_nil_r. }
  cbn [forallb] in Hall. apply andb_true_iff in Hall as [Hi Hall].
  apply negb_true_iff in Hi.
  cbn [WorkerManager.run]. pose proof (step_fifo st input Hi) as Hs.
  destruct (step st input) as [st1 effs1]. specialize (IH st1 Hall).
  destruct (run st1 inputs) as [st2 effs2]. cbn [fst snd] in *.
  rewrite dispatched_app, <- app_assoc, IH, app_assoc, Hs, <- app_assoc.
  f_equal. unfold submitted. cbn [flat_map]. by rewrite app_nil_r.
Qed.

(** *** Which promises can still be settled *)

Lemma map_get_In {V} key (m : list (string * V)) v :
  map_get key m = Some v -> In v (map snd m).
Proof.
  induction m as [|[k w] m IH]; [done|]. cbn.
  destruct (String.eqb k key); [intros [= ->]; by left|]. intros H. right. auto.
Qed.

Lemma map_set_In {V} key (v0 : V) m v :
  In v (map snd (map_set key v0 m)) -> v = v0 \/ In v (map snd m).
Proof.
  induction m as [|[k w] m IH]; cbn.
  - intros [<-|[]]. by left.
  - destruct (String.eqb k key); cbn.
    + intros [<-|H]; [by left|right; by right].
    + intros [<-|H]; [right; by left|]. destruct (IH H); [by left|right; by right].
Qed.

Lemma map_delete_In {V} key (m : list (string * V)) v :
  In v (map snd (map_delete key m)) -> In v (map snd m).
Proof.
  induction m as [|[k w] m IH]; [done|]. cbn.
  destruct (String.eqb k key); cbn; [by right|].
  intros [<-|H]; [by left|]. right. auto.
Qed.

Lemma dispatch_promises queue : forall st p,
  (In p (settled (dispatch queue st).2) -> In p (map job_promise queue))
  /\ (In p (promises (dispatch queue st).1) ->
      In p (map job_promise queue) \/ In p (map snd (pendingOperations st))).
Proof.
  induction queue as [|job rest IH]; intros st p.
  { cbn. split; [done|]. unfold promises. cbn. by right. }
  cbn [WorkerManager.dispatch].
  destruct (Z.ltb_spec (activeJobs st) MAX_CONCURRENCY) as [Hlt|Hge].
  2:{ cbn [fst snd]. split; [done|]. unfold promises. cbn [jobQueue pendingOperations].
      rewrite in_app_iff. tauto. }
  assert (Hg : forall s, pendingOperations (getWorker s).1 = pendingOperations s
                         /\ jobQueue (getWorker s).1 = jobQueue s
                         /\ settled (getWorker s).2 = [])
    by (intros s; unfold getWorker; by destruct (worker s)).
  match goal with
  | |- context [getWorker ?s] =>
      destruct (Hg s) as (Hgp & Hgq & Hgs); destruct (getWorker s) as [st2 spawned]
  end.
  cbn [fst snd pendingOperations jobQueue] in *.
  destruct (clonable (job_message job)).
  - cbn [fst snd]. unfold settled, promises, post in *.
    cbn [flat_map app jobQueue pendingOperations map].
    rewrite flat_map_app, Hgs, Hgq, Hgp. cbn. split; [done|].
    rewrite in_app_iff. intros [H|H]; [left; by right|].
    destruct (map_set_In _ _ _ _ H) as [->|H']; [left; by left|by right].
  - match goal with
    | |- context [dispatch rest ?s] =>
        destruct (IH s p) as [IH1 IH2]; destruct (dispatch rest s) as [st5 effs]
    end.
    cbn [fst snd pendingOperations] in *. rewrite Hgp in IH2.
    unfold settled in *. cbn [flat_map app map].
    rewrite flat_map_app, Hgs. cbn [flat_map app]. split.
    + intros [<-|H]; [by left|]. right. by apply IH1.
    + intros H. destruct (IH2 H) as [H'|H']; [left; by right|].
      destruct (map_set_In _ _ _ _ H') as [->|H'']; [left; by left|by right].
Qed.

Lemma step_promises st input p :
  In p (settled (step st input).2) \/ In p (promises (step st input).1) ->
  In p (promises st) \/ In p (map job_promise (submitted [input])).
Proof.
  destruct input as [message promise|response| |]; cbn [WorkerManager.step].
  - unfold enqueueJob, processNextJob. cbn [jobQueue].
    match goal with
    | |- context [dispatch ?q ?s] => destruct (dispatch_promises q s p) as [H1 H2]
    end.
    cbn [pendingOperations] in H2. unfold promises at 2. cbn.
    rewrite map_app, !in_app_iff in *. cbn in *. tauto.
  - destruct (worker st) as [inbox|]; [|cbn; tauto].
    unfold WorkerManager.onmessage. cbn [pendingOperations answered].
    destruct (map_get _ _) as [pending|] eqn:Hget.
    2:{ cbn. unfold promises. cbn. tauto. }
    apply map_get_In in Hget. unfold processNextJob. cbn [jobQueue].
    match goal with
    | |- context [dispatch ?q ?s] =>
        destruct (dispatch_promises q s p) as [H1 H2];
        destruct (dispatch q s) as [st2 effs]
    end.
    cbn [fst snd pendingOperations] in *. unfold settled in *.
    rewrite flat_map_app, in_app_iff. unfold promises at 2.
    rewrite in_app_iff. intros [[H|H]|H].
    + left. left. by apply H1.
    + left. right.
      assert (Hp : p = pending).
      { unfold settle in H.
        destruct (resp_type response), (result response); cbn in H;
          intuition congruence. }
      by subst p.
    + left. destruct (H2 H) as [H'|H']; [by left|].
      right. by apply map_delete_In in H'.
  - destruct (worker st); [|cbn; tauto]. cbn [WorkerManager.onerror fst snd].
    unfold settled. rewrite flat_map_app, in_app_iff. cbn [flat_map].
    intros [[H|H]|H]; try done. left. unfold promises. rewrite in_app_iff. right.
    induction (pendingOperations st) as [|[k v] m IHm]; [done|].
    cbn in H |- *. destruct H as [<-|H]; [by left|right; auto].
  - cbn. destruct (worker st); cbn; tauto.
Qed.

(** Only a promise the module holds, or one submitted on the way, can ever
    be settled. *)
Lemma run_promises inputs : forall st p,
  In p (settled (run st inputs).2) ->
  In p (promises st) \/ In p (map job_promise (submitted inputs)).
Proof.
  induction inputs as [|input inputs IH]; intros st p; [done|].
  cbn [WorkerManager.run].
  pose proof (step_promises st input p) as Hs.
  destruct (step st input) as [st1 effs1]. specialize (IH st1 p).
  destruct (run st1 inputs) as [st2 effs2]. cbn [fst snd] in *.
  unfold settled in *. rewrite flat_map_app, in_app_iff.
  assert (Hsub : submitted (input :: inputs)
                 = submitted [input] ++ submitted inputs).
  { unfold submitted. cbn [flat_map]. by rewrite app_nil_r. }
  rewrite Hsub, map_app, in_app_iff.
  intros [H|H]; [destruct Hs; tauto|].
  destruct (IH H) as [H'|H']; [destruct Hs; tauto|tauto].
Qed.

(** [onerror] rejects the promises of the pending map, each with the same
    reason, resets all bookkeeping, and does not touch the promises of the
    queued jobs. *)
Lemma onerror_spec st :
  (onerror st).1 = initial
  /\ rejected (onerror st).2
     = map (fun entry => (entry.2, crash_reason)) (pendingOperations st)
  /\ settled (onerror st).2 = map snd (pendingOperations st).
Proof.
  unfold onerror. cbn [fst snd]. split; [done|].
  unfold rejected, settled. rewrite !flat_map_app. cbn [flat_map].
  rewrite !app_nil_r.
  induction (pendingOperations st) as [|[k v] m [IH1 IH2]]; [done|].
  cbn. by rewrite IH1, IH2.
Qed.

Lemma settle_effects p response :
  dispatched (settle p response) = [] /\ posted (settle p response) = [].
Proof. unfold settle. by destruct (resp_type response), (result response). Qed.

(** C1, as amended.  (1) In every reachable state the requests held by
    the worker number at most [activeJobs], which is at most 2.  (2) Jobs
    are started in the order they were submitted: along any inputs without
    a reset, the jobs started followed by the jobs still queued are the jobs
    queued before followed by the jobs submitted.  (3) When the response of
    a running request arrives, its slot is released and the queue is served
    oldest first: every job started but the last failed its hand-off, was
    rejected and gave its slot back; at most one job, the last started,
    reached the worker; if none did, the queue is empty.  In particular,
    when the oldest queued job can be handed to the worker, it is the one
    job started, and the slot count is what it was. *)
Theorem scheduler_bounded_fifo :
  (forall st, reachable clonable st ->
     0 <= in_flight st <= activeJobs st /\ activeJobs st <= 2)
  /\ (forall st inputs,
       forallb (fun i => negb (resets i)) inputs = true ->
       dispatched (run st inputs).2 ++ jobQueue (run st inputs).1
       = jobQueue st ++ submitted inputs)
  /\ (forall st response promise inbox,
       worker st = Some inbox ->
       map_get (resp_id response) (pendingOperations st) = Some promise ->
       activeJobs st <= MAX_CONCURRENCY ->
       let after := step st (Response response) in
       exists failed ok,
         jobQueue st = failed ++ ok ++ jobQueue after.1
         /\ dispatched after.2 = failed ++ ok
         /\ Forall (fun j => clonable (job_message j) = false) failed
         /\ rejected after.2
            = map (fun j => (job_promise j, clone_reason)) failed
              ++ rejected (settle promise response)
         /\ posted after.2 = map job_message ok
         /\ (ok = [] \/ exists j, ok = [j] /\ clonable (job_message j) = true)
         /\ activeJobs after.1 = activeJobs st - 1 + Z.of_nat (length ok)
         /\ (ok = [] -> jobQueue after.1 = [])
         /\ (forall oldest rest,
               jobQueue st = oldest :: rest ->
               clonable (job_message oldest) = true ->
               dispatched after.2 = [oldest]
               /\ posted after.2 = [job_message oldest]
               /\ jobQueue after.1 = rest
               /\ activeJobs after.1 = activeJobs st)).
Proof.
  split; [|split].
  - intros st Hr. apply reachable_slots_ok in Hr. exact Hr.
  - intros st inputs Hall. by apply run_fifo.
  - intros st response promise inbox Hw Hp Hmax after.
    unfold after. cbn [WorkerManager.step]. rewrite Hw.
    unfold WorkerManager.onmessage. cbn [pendingOperations answered].
    rewrite Hp. unfold processNextJob. cbn [jobQueue].
    match goal with
    | |- context [dispatch ?q ?s] =>
        destruct (dispatch_spec q s)
          as (failed & ok & Hq & Hd & Hf & Hr & Hpo & Hok & Ha & He);
        destruct (dispatch q s) as [st2 effs]
    end.
    unfold answered in *. cbn [fst snd activeJobs jobQueue] in *.
    destruct (settle_effects promise response) as [Hs1 Hs2].
    exists failed, ok.
    rewrite dispatched_app, posted_app, rejected_app, Hs1, Hs2, !app_nil_r.
    assert (Hempty : ok = [] -> jobQueue st2 = [])
      by (intros Hnil; apply He; [done|lia]).
    do 3 (split; [done|]). split; [by rewrite Hr|].
    do 2 (split; [done|]). split; [lia|]. split; [done|].
    intros oldest rest Hqueue Hc.
    assert (Hfailed : failed = []).
    { destruct failed as [|f failed']; [done|]. exfalso.
      rewrite Hqueue in Hq. injection Hq as -> _.
      inversion Hf; subst. congruence. }
    subst failed. cbn [app] in *.
    destruct Hok as [->|(j & -> & Hj)].
    + rewrite (Hempty eq_refl) in Hq. rewrite Hqueue in Hq. done.
    + rewrite Hqueue in Hq. injection Hq as <- <-.
      rewrite Hd, Hpo. cbn [length] in Ha. cbn. repeat split; try done. lia.
Qed.

End WorkerManagerFacts.

(** *** Concrete runs *)

Lemma busy_state_reachable : WorkerManager.reachable clonable_payload busy_state.
Proof.
  unfold busy_state.
  set (i1 := WorkerManager.Submit (request "r1" 1) 1%nat).
  set (i2 := WorkerManager.Submit (request "r2" 1) 2%nat).
  set (i3 := WorkerManager.Submit (request "a" 0) 3%nat).
  set (i4 := WorkerManager.Submit (request "b" 1) 4%nat).
  pose proof (WorkerManager.reachable_initial clonable_payload) as H0.
  pose proof (WorkerManager.reachable_step _ _ i1 H0 I) as H1.
  pose proof (WorkerManager.reachable_step _ _ i2 H1 I) as H2.
  pose proof (WorkerManager.reachable_step _ _ i3 H2 I) as H3.
  pose proof (WorkerManager.reachable_step _ _ i4 H3 I) as H4.
  exact H4.
Qed.

(** The claim C1 as stated fails here: the response of "r1" arrives while
    "a" (the oldest) and "b" wait; both are started, and the one that
    reaches the worker is "b", not the oldest. *)
Lemma completion_starts_two_queued_jobs :
  let after := WorkerManager.step clonable_payload busy_state
                 (WorkerManager.Response (completed "r1")) in
  let oldest := WorkerManager.mkJob (request "a" 0) 3%nat in
  let next := WorkerManager.mkJob (request "b" 1) 4%nat in
  WorkerManager.reachable clonable_payload busy_state
  /\ WorkerManager.activeJobs busy_state = 2
  /\ WorkerManager.map_get "r1" (WorkerManager.pendingOperations busy_state)
     = Some 1%nat
  /\ WorkerManager.jobQueue busy_state = [oldest; next]
  /\ WorkerManager.dispatched after.2 = [oldest; next]
  /\ WorkerManager.dispatched after.2 <> [oldest]
  /\ WorkerManager.posted after.2 = [request "b" 1]
  /\ WorkerManager.posted after.2 <> [request "a" 0]
  /\ WorkerManager.jobQueue after.1 = [].
Proof.
  split; [apply busy_state_reachable|].
  vm_compute. repeat split; discriminate.
Qed.

Lemma scheduler_bounded_fifo_witness :
  let after := WorkerManager.step always_clonable
                 (WorkerManager.run always_clonable WorkerManager.initial
                    [WorkerManager.Submit (request "r1" 1) 1%nat;
                     WorkerManager.Submit (request "r2" 1) 2%nat;
                     WorkerManager.Submit (request "r3" 1) 3%nat;
                     WorkerManager.Submit (request "r4" 1) 4%nat;
                     WorkerManager.Submit (request "r5" 1) 5%nat]).1
                 (WorkerManager.Response (completed "r1")) in
  WorkerManager.dispatched after.2
  = [WorkerManager.mkJob (request "r3" 1) 3%nat]
  /\ WorkerManager.activeJobs after.1 = 2.
Proof.
  intros after.
  destruct (proj2 (proj2 (scheduler_bounded_fifo always_clonable))
              (WorkerManager.run always_clonable WorkerManager.initial
                 [WorkerManager.Submit (request "r1" 1) 1%nat;
                  WorkerManager.Submit (request "r2" 1) 2%nat;
                  WorkerManager.Submit (request "r3" 1) 3%nat;
                  WorkerManager.Submit (request "r4" 1) 4%nat;
                  WorkerManager.Submit (request "r5" 1) 5%nat]).1
              (completed "r1") 1%nat [request "r1" 1; request "r2" 1]
              eq_refl eq_refl ltac:(vm_compute; discriminate))
    as (failed & ok & _ & _ & _ & _ & _ & _ & _ & _ & Hhead).
  destruct (Hhead (WorkerManager.mkJob (request "r3" 1) 3%nat)
              [WorkerManager.mkJob (request "r4" 1) 4%nat;
               WorkerManager.mkJob (request "r5" 1) 5%nat]
              eq_refl eq_refl) as (Hd & _ & _ & Ha).
  split; [exact Hd|exact Ha].
Defined.

(** C2 at its failing input: three requests are submitted, the worker
    fails before any completes.  The two running requests are rejected with
    the same reason and all bookkeeping is back to its initial value, but
    the promise of the queued third request is dropped with the queue and
    never settled.  The next submit starts a fresh worker. *)
Lemma worker_error_drops_queued_request :
  let out := WorkerManager.run always_clonable WorkerManager.initial
               [WorkerManager.Submit (request "r1" 1) 1%nat;
                WorkerManager.Submit (request "r2" 1) 2%nat;
                WorkerManager.Submit (request "r3" 1) 3%nat;
                WorkerManager.WorkerError] in
  out.1 = WorkerManager.initial
  /\ WorkerManager.rejected out.2
     = [(1%nat, "Worker crashed"%string); (2%nat, "Worker crashed"%string)]
  /\ WorkerManager.settled out.2 = [1%nat; 2%nat]
  /\ ~ In 3%nat (WorkerManager.settled out.2)
  /\ (WorkerManager.step always_clonable out.1
        (WorkerManager.Submit (request "r4" 1) 4%nat)).2
     = [WorkerManager.Dispatch (WorkerManager.mkJob (request "r4" 1) 4%nat);
        WorkerManager.Spawn; WorkerManager.Post (request "r4" 1)].
Proof.
  vm_compute. repeat split. intros [H|[H|[]]]; discriminate.
Qed.

(** After that run nothing refers to promise 3 any more: whatever happens
    next, it is never settled unless it is submitted again. *)
Lemma dropped_request_never_settles (later : list WorkerManager.Input) :
  ~ In 3%nat (map WorkerManager.job_promise (WorkerManager.submitted later)) ->
  ~ In 3%nat
      (WorkerManager.settled
         (WorkerManager.run always_clonable
            (WorkerManager.run always_clonable WorkerManager.initial
               [WorkerManager.Submit (request "r1" 1) 1%nat;
                WorkerManager.Submit (request "r2" 1) 2%nat;
                WorkerManager.Submit (request "r3" 1) 3%nat;
                WorkerManager.WorkerError]).1 later).2).
Proof.
  intros Hnot Hin.
  apply (run_promises always_clonable) in Hin. destruct Hin as [H|H]; [|done].
  vm_compute in H. exact H.
Qed.

(** ** The transform engine on concrete inputs *)



Lemma bitmaps_closed_on_every_path_witness :
  ImageProcessor.closed
    (ImageProcessor.processImage (decode_as 10 10) context_ok no_samples
       (encoder_of_size (fun _ => 2048)) png_declared_jpeg oversized_options).1
  = [mkImageBitmap 10 10].
Proof.
  destruct (bitmaps_closed_on_every_path (decode_as 10 10) context_ok
              no_samples (encoder_of_size (fun _ => 2048)) png_declared_jpeg
              oversized_options [])
    as (Hclose & _ & _).
  destruct (Hclose (mkImageBitmap 10 10) eq_refl) as (_ & Hc & _).
  exact Hc.
Defined.

Lemma processImage_size_search_witness :
  exists blob,
    (ImageProcessor.processImage (decode_as 10 10) context_ok no_samples
       (encoder_of_size (fun _ => 2048)) png_declared_jpeg search_options).2
    = ImageProcessor.Returned blob.
Proof.
  destruct (processImage_size_search (decode_as 10 10) context_ok no_samples
              (encoder_of_size (fun _ => 2048)) png_declared_jpeg search_options
              (mkImageBitmap 10 10) 100 100 1%Q
              eq_refl eq_refl eq_refl ltac:(vm_compute; discriminate) eq_refl
              (or_introl eq_refl) eq_refl ltac:(reflexivity)
              ltac:(intros q; by eexists))
    as (first & _ & _ & _ & Hret & _).
  exact Hret.
Defined.

(** An encoder whose output is exactly the target at every quality below
    1 and larger at quality 1: no probe is strictly under budget, so the
    search takes its five probes and falls back to quality 0.01. *)
Example size_search_equal_size_is_not_under_budget :
  let run := ImageProcessor.processImage (decode_as 10 10) context_ok no_samples
               (encoder_of_size (fun q => if Qle_bool 1 q then 2048 else 1024))
               png_declared_jpeg search_options in
  run.2 = ImageProcessor.Returned (mkBlob "image/jpeg" 1024 [])
  /\ length (ImageProcessor.exports run.1) = 7%nat
  /\ last (ImageProcessor.exports run.1) = Some (Some (1 # 100)%Q).
Proof. vm_compute. repeat split. Qed.

(** An encoder whose output grows with the quality: the search settles
    on its last under-budget probe and asks for no further export. *)
Example size_search_returns_best_probe :
  let run := ImageProcessor.processImage (decode_as 10 10) context_ok no_samples
               (encoder_of_size (fun q => Qfloor (q * 2000)))
               png_declared_jpeg search_options in
  length (ImageProcessor.exports run.1) = 6%nat
  /\ exists blob, run.2 = ImageProcessor.Returned blob /\ blob_size blob < 1024.
Proof. vm_compute. split; [done|]. eexists. split; [reflexivity|reflexivity]. Qed.

Lemma mergeImages_grid_witness :
  exists draws,
    (ImageProcessor.mergeImages (decode_as 100 100) context_ok
       (encoder_of_size (fun _ => 2048)) four_files).1
    = map ImageProcessor.EvDecoded (repeat (mkImageBitmap 100 100) 4)
      ++ [ImageProcessor.EvNewCanvas 200 200;
          ImageProcessor.EvFillRect "white" 0 0 200 200]
      ++ draws
      ++ [ImageProcessor.EvConvertToBlob "image/jpeg" (Some (9 # 10)%Q)]
      ++ map ImageProcessor.EvClose (repeat (mkImageBitmap 100 100) 4)
    /\ length draws = 4%nat.
Proof.
  destruct (mergeImages_grid (decode_as 100 100) context_ok
              (encoder_of_size (fun _ => 2048)) four_files
              (repeat (mkImageBitmap 100 100) 4)
              ltac:(discriminate) ltac:(repeat constructor))
    as (_ & _ & _ & _ & _ & _ & _ & Hfits).
  destruct (Hfits ltac:(vm_compute; discriminate) eq_refl)
    as (draws & Hlog & Hlen & _).
  exists draws. split; [exact Hlog|exact Hlen].
Defined.

(** The scenario of the specification: four 100 x 100 images give a
    200 x 200 canvas, one image per quadrant. *)
Example mergeImages_four_quadrants :
  let run := ImageProcessor.mergeImages (decode_as 100 100) context_ok
               (encoder_of_size (fun _ => 2048)) four_files in
  ImageProcessor.canvases run.1 = [(200, 200)]
  /\ Forall2 (fun ev corner =>
                match ev with
                | ImageProcessor.EvDrawAt _ x y =>
                    (x == inject_Z corner.1 /\ y == inject_Z corner.2)%Q
                | _ => False
                end)
       (List.filter (fun ev => match ev with
                          | ImageProcessor.EvDrawAt _ _ _ => true
                          | _ => false
                          end) run.1)
       [(0, 0); (100, 0); (0, 100); (100, 100)].
Proof. vm_compute. split; [done|]. repeat constructor. Qed.

(** * Further properties *)

(** ** The BMP encoder: addressing, headers, what is lost *)

Section BmpEncoderMore.
Import BmpEncoder.

Lemma lookup_flat_map_const {A B} (f : A -> list B) (c : nat) (l : list A) :
  (forall a, length (f a) = c) ->
  forall (i j : nat) (a : A),
    l !! i = Some a -> (j < c)%nat ->
    flat_map f l !! (i * c + j)%nat = f a !! j.
Proof.
  intros Hlen. induction l as [|a0 l IH]; intros i j a Hi Hj; [done|].
  cbn [flat_map]. destruct i as [|i].
  - injection Hi as ->. cbn. apply lookup_app_l. by rewrite Hlen.
  - cbn in Hi. rewrite lookup_app_r by (rewrite Hlen; lia).
    rewrite Hlen. replace (S i * c + j - c)%nat with (i * c + j)%nat by lia.
    by apply IH.
Qed.

Lemma lookup_repeat_lt {A} (x : A) (n i : nat) :
  (i < n)%nat -> repeat x n !! i = Some x.
Proof.
  revert i. induction n as [|n IH]; intros i Hi; [lia|].
  destruct i as [|i]; [done|]. cbn. apply IH. lia.
Qed.

Lemma flat_map_ext_seq {B} (f g : nat -> list B) (n : nat) :
  (forall i, (i < n)%nat -> f i = g i) ->
  flat_map f (seq 0 n) = flat_map g (seq 0 n).
Proof.
  intros H. assert (Hin : forall i, In i (seq 0 n) -> f i = g i)
    by (intros i Hi; apply in_seq in Hi; apply H; lia).
  induction (seq 0 n) as [|i l IH]; [done|]. cbn [flat_map].
  rewrite Hin by (by left). f_equal. apply IH. intros j Hj. apply Hin. by right.
Qed.

(** The bytes of the file, for any image. *)
Lemma encodeBMP_Some img blob :
  encodeBMP img = Some blob ->
  blob_bytes blob
  = file_header (fileSize_of img) ++ info_header (id_width img) (id_height img)
    ++ flat_map (row_out img) (seq 0 (id_height img))
  /\ blob_size blob = Z.of_nat (length (blob_bytes blob))
  /\ blob_type blob = "image/bmp"%string.
Proof.
  pose proof (encodeBMP_bytes img) as H. cbv zeta in H. rewrite H.
  intros [= <-]. cbn [blob_bytes blob_size blob_type].
  split; [reflexivity|]. split; reflexivity.
Qed.

Lemma row_out_length img y :
  length (row_out img y) = (id_width img * 3 + padding_of (id_width img))%nat.
Proof.
  unfold row_out. rewrite length_app, repeat_length.
  rewrite (flat_map_length_const _ 3) by done. by rewrite length_seq.
Qed.

Lemma row_out_lookup_pixel img x y k :
  (x < id_width img)%nat -> (k < 3)%nat ->
  row_out img y !! (x * 3 + k)%nat = pixel_out img y x !! k.
Proof.
  intros Hx Hk. unfold row_out.
  rewrite lookup_app_l
    by (rewrite (flat_map_length_const _ 3), length_seq by done; lia).
  apply lookup_flat_map_const; [done| |done].
  by apply lookup_seq_lt.
Qed.

Lemma file_header_length n : length (file_header n) = 14%nat.
Proof. reflexivity. Qed.

Lemma info_header_length w h : length (info_header w h) = 40%nat.
Proof. reflexivity. Qed.

Lemma bytes_lookup_row img blob y j :
  encodeBMP img = Some blob ->
  (y < id_height img)%nat ->
  (j < id_width img * 3 + padding_of (id_width img))%nat ->
  blob_bytes blob
    !! (54 + y * (id_width img * 3 + padding_of (id_width img)) + j)%nat
  = row_out img y !! j.
Proof.
  intros Henc Hy Hj. destruct (encodeBMP_Some _ _ Henc) as (-> & _ & _).
  rewrite app_assoc.
  rewrite lookup_app_r
    by (rewrite length_app, file_header_length, info_header_length; lia).
  rewrite length_app, file_header_length, info_header_length.
  replace (54 + y * (id_width img * 3 + padding_of (id_width img)) + j
           - (14 + 40))%nat
    with (y * (id_width img * 3 + padding_of (id_width img)) + j)%nat
    by lia.
  apply lookup_flat_map_const; [apply row_out_length| |done].
  by apply lookup_seq_lt.
Qed.

(** Byte [k] of the pixel (x, y) of the file is sample [2 - k] of the
    pixel of the source. *)
Lemma encodeBMP_lookup_channel (img : ImageData) (blob : Blob) (x y k : nat) :
  wf_ImageData img ->
  encodeBMP img = Some blob ->
  (x < id_width img)%nat -> (y < id_height img)%nat -> (k < 3)%nat ->
  blob_bytes blob
    !! (54 + y * (id_width img * 3 + padding_of (id_width img)) + (x * 3 + k))%nat
  = id_data img !! ((y * id_width img + x) * 4 + (2 - k))%nat.
Proof.
  intros [Hlen Hbytes] Henc Hx Hy Hk.
  rewrite (bytes_lookup_row img blob y (x * 3 + k) Henc Hy) by lia.
  rewrite row_out_lookup_pixel by done.
  rewrite (channel_in_range img x y (2 - k) Hlen Hx Hy) by lia.
  unfold pixel_out, channel. rewrite !sample_byte by done.
  destruct k as [|[|[|k]]]; [done|done|done|lia].
Qed.

(** X1. Pixel addressing: in the file produced for a well-formed image,
    the three bytes at offset 54 + y * stride + 3 x (stride = 3 W + pad) are
    the blue, green and red samples of pixel (x, y) of the source buffer,
    and the pad bytes that close each row are zero. *)
Theorem encodeBMP_pixel_at (img : ImageData) (blob : Blob) (x y : nat) :
  wf_ImageData img ->
  encodeBMP img = Some blob ->
  (x < id_width img)%nat -> (y < id_height img)%nat ->
  let W := id_width img in
  let stride := (3 * W + padding_of W)%nat in
  let off := (54 + y * stride + 3 * x)%nat in
  let src := ((y * W + x) * 4)%nat in
  blob_bytes blob !! off = id_data img !! (src + 2)%nat
  /\ blob_bytes blob !! (off + 1)%nat = id_data img !! (src + 1)%nat
  /\ blob_bytes blob !! (off + 2)%nat = id_data img !! src
  /\ is_Some (id_data img !! src)
  /\ (forall j, (j < padding_of W)%nat ->
        blob_bytes blob !! (54 + y * stride + 3 * W + j)%nat = Some 0).
Proof.
  intros Hwf Henc Hx Hy. cbv zeta.
  set (stride := (id_width img * 3 + padding_of (id_width img))%nat).
  replace (3 * id_width img + padding_of (id_width img))%nat with stride
    by (unfold stride; lia).
  assert (Hpix : forall k, (k < 3)%nat ->
            blob_bytes blob !! (54 + y * stride + (x * 3 + k))%nat
            = id_data img !! ((y * id_width img + x) * 4 + (2 - k))%nat).
  { intros k Hk. by apply encodeBMP_lookup_channel. }
  destruct Hwf as [Hlen Hbytes].
  split.
  { transitivity (blob_bytes blob !! (54 + y * stride + (x * 3 + 0))%nat);
      [f_equal; lia|apply (Hpix 0%nat); lia]. }
  split.
  { transitivity (blob_bytes blob !! (54 + y * stride + (x * 3 + 1))%nat);
      [f_equal; lia|apply (Hpix 1%nat); lia]. }
  split.
  { replace ((y * id_width img + x) * 4)%nat
      with ((y * id_width img + x) * 4 + (2 - 2))%nat by lia.
    transitivity (blob_bytes blob !! (54 + y * stride + (x * 3 + 2))%nat);
      [f_equal; lia|apply (Hpix 2%nat); lia]. }
  split.
  { replace ((y * id_width img + x) * 4)%nat
      with ((y * id_width img + x) * 4 + 0)%nat by lia.
    rewrite (channel_in_range img x y 0 Hlen Hx Hy) by lia. by eexists. }
  intros j Hj.
  replace (54 + y * stride + 3 * id_width img + j)%nat
    with (54 + y * stride + (id_width img * 3 + j))%nat by lia.
  unfold stride.
  rewrite (bytes_lookup_row img blob y _ Henc Hy) by lia.
  unfold row_out.
  rewrite lookup_app_r
    by (rewrite (flat_map_length_const _ 3), length_seq by done; lia).
  rewrite (flat_map_length_const _ 3), length_seq by done.
  replace (id_width img * 3 + j - id_width img * 3)%nat with j by lia.
  by apply lookup_repeat_lt.
Qed.

Lemma encodeBMP_pixel_at_witness :
  exists blob, encodeBMP rgbw_2x2 = Some blob
               /\ blob_bytes blob !! 62%nat = Some 255
               /\ blob_bytes blob !! 60%nat = Some 0.
Proof.
  assert (Hwf : wf_ImageData rgbw_2x2).
  { split; [reflexivity|]. unfold rgbw_2x2; simpl. repeat constructor; lia. }
  pose proof (encodeBMP_bytes rgbw_2x2) as Henc. cbv zeta in Henc.
  eexists. split; [exact Henc|].
  destruct (encodeBMP_pixel_at rgbw_2x2 _ 0 1 Hwf Henc (le_S _ _ (le_n 1))
              (le_n 2)) as (Hb & _ & _ & _ & Hpad).
  split; [exact Hb|]. exact (Hpad 0%nat (le_S _ _ (le_n 1))).
Defined.

Lemma encodeBMP_total img : exists blob, encodeBMP img = Some blob.
Proof. pose proof (encodeBMP_bytes img) as H. cbv zeta in H. by eexists. Qed.

(** X2. Only the alpha channel is lost: two well-formed images of the same
    dimensions have the same encoding exactly when they agree on the red,
    green and blue samples of every pixel. *)
Theorem encodeBMP_equal_iff_rgb (img1 img2 : ImageData) :
  wf_ImageData img1 -> wf_ImageData img2 ->
  id_width img1 = id_width img2 -> id_height img1 = id_height img2 ->
  encodeBMP img1 = encodeBMP img2
  <-> (forall x y c, (x < id_width img1)%nat -> (y < id_height img1)%nat ->
         (c < 3)%nat -> channel img1 x y c = channel img2 x y c).
Proof.
  intros Hwf1 Hwf2 HW HH. split.
  - intros Heq x y c Hx Hy Hc.
    destruct (encodeBMP_total img1) as [blob Henc1].
    assert (Henc2 : encodeBMP img2 = Some blob) by (by rewrite <- Heq).
    pose proof (encodeBMP_lookup_channel img1 blob x y (2 - c) Hwf1 Henc1 Hx Hy
                  ltac:(lia)) as A.
    pose proof (encodeBMP_lookup_channel img2 blob x y (2 - c) Hwf2 Henc2
                  ltac:(by rewrite <- HW) ltac:(by rewrite <- HH) ltac:(lia)) as B.
    rewrite <- HW in B. rewrite A in B.
    replace (2 - (2 - c))%nat with c in B by lia.
    destruct Hwf1 as [Hl1 _], Hwf2 as [Hl2 _].
    pose proof (channel_in_range img1 x y c Hl1 Hx Hy ltac:(lia)) as C1.
    pose proof (channel_in_range img2 x y c Hl2 ltac:(by rewrite <- HW)
                  ltac:(by rewrite <- HH) ltac:(lia)) as C2.
    rewrite <- HW in C2.
    rewrite C1, C2 in B. by injection B.
  - intros Hrgb.
    pose proof (encodeBMP_bytes img1) as H1. pose proof (encodeBMP_bytes img2) as H2.
    cbv zeta in H1, H2. rewrite H1, H2.
    assert (Hrows : flat_map (row_out img1) (seq 0 (id_height img1))
                    = flat_map (row_out img2) (seq 0 (id_height img2))).
    { rewrite <- HH. apply flat_map_ext_seq. intros y Hy.
      unfold row_out. rewrite <- HW. f_equal.
      apply flat_map_ext_seq. intros x Hx. unfold pixel_out.
      rewrite (Hrgb x y 2%nat), (Hrgb x y 1%nat), (Hrgb x y 0%nat) by lia.
      reflexivity. }
    unfold fileSize_of. rewrite <- HW, <- HH in *. by rewrite Hrows.
Qed.

(** The image [rgbw_2x2] with every alpha sample set to 0. *)
Lemma encodeBMP_equal_iff_rgb_witness :
  encodeBMP rgbw_2x2
  = encodeBMP (mkImageData 2 2 [255; 0; 0; 0;   0; 255; 0; 0;
                                0; 0; 255; 0;   255; 255; 255; 0]).
Proof.
  apply (proj2 (encodeBMP_equal_iff_rgb rgbw_2x2
                  (mkImageData 2 2 [255; 0; 0; 0;   0; 255; 0; 0;
                                    0; 0; 255; 0;   255; 255; 255; 0])
                  ltac:(split; [reflexivity|simpl; repeat constructor; lia])
                  ltac:(split; [reflexivity|simpl; repeat constructor; lia])
                  eq_refl eq_refl)).
  intros x y c Hx Hy Hc. simpl in Hx, Hy.
  destruct x as [|[|x]]; [| |lia]; destruct y as [|[|y]]; try lia;
    destruct c as [|[|[|c]]]; try lia; reflexivity.
Defined.

(** X3. The header describes the file that follows it: for any image
    whose file stays below 2^32 bytes, the size field holds the actual
    number of bytes, the data offset is the 54 bytes of the two headers, and
    the format fields say one plane, 24 bits per pixel, no compression and
    2835 pixels per metre. *)
Theorem encodeBMP_header_fields (img : ImageData) (blob : Blob) :
  encodeBMP img = Some blob ->
  Z.of_nat (length (blob_bytes blob)) < 2 ^ 32 ->
  let bytes := blob_bytes blob in
  le_value (take 4 (drop 2 bytes)) = Z.of_nat (length bytes)
  /\ take 4 (drop 6 bytes) = [0; 0; 0; 0]
  /\ le_value (take 4 (drop 10 bytes)) = 54
  /\ le_value (take 4 (drop 14 bytes)) = 40
  /\ le_value (take 2 (drop 26 bytes)) = 1
  /\ le_value (take 2 (drop 28 bytes)) = 24
  /\ le_value (take 4 (drop 30 bytes)) = 0
  /\ le_value (take 4 (drop 38 bytes)) = 2835
  /\ le_value (take 4 (drop 42 bytes)) = 2835
  /\ blob_size blob = Z.of_nat (length bytes).
Proof.
  intros Henc Hsmall bytes.
  destruct (encodeBMP_Some _ _ Henc) as (Hb & Hsize & _).
  assert (Hlen : length bytes = fileSize_of img).
  { unfold bytes. rewrite Hb, !length_app, file_header_length, info_header_length.
    rewrite (flat_map_length_const _ _ _ (row_out_length img)), length_seq.
    unfold fileSize_of. lia. }
  unfold bytes in *. rewrite Hlen in *. rewrite Hb.
  unfold file_header, info_header. cbn [app le_bytes skipn firstn].
  split.
  { change (le_value (le_bytes 4 (Z.of_nat (fileSize_of img)))
            = Z.of_nat (fileSize_of img)).
    rewrite le_value_le_bytes. apply Z.mod_small.
    change (256 ^ Z.of_nat 4) with (2 ^ 32). lia. }
  repeat split; try reflexivity. by rewrite Hsize, Hb in *.
Qed.

Lemma encodeBMP_header_fields_witness :
  exists blob, encodeBMP rgbw_2x2 = Some blob
    /\ le_value (take 4 (drop 2 (blob_bytes blob))) = 70.
Proof.
  destruct (encodeBMP_total rgbw_2x2) as [blob Henc]. exists blob.
  split; [exact Henc|].
  assert (Hlen : length (blob_bytes blob) = 70%nat).
  { destruct (encodeBMP_Some _ _ Henc) as (-> & _ & _). reflexivity. }
  destruct (encodeBMP_header_fields rgbw_2x2 blob Henc
              ltac:(rewrite Hlen; reflexivity)) as (Hsize & _).
  cbv zeta in Hsize. rewrite Hsize, Hlen. reflexivity.
Defined.

Lemma le_bytes_range n v : Forall (fun b => 0 <= b < 256) (le_bytes n v).
Proof.
  revert v. induction n as [|n IH]; intros v; cbn; constructor; [|apply IH].
  apply Z.mod_pos_bound. lia.
Qed.

Lemma Forall_flat_map {A B} (P : B -> Prop) (f : A -> list B) (l : list A) :
  (forall a, Forall P (f a)) -> Forall P (flat_map f l).
Proof.
  intros H. induction l as [|a l IH]; cbn; [constructor|].
  apply Forall_app. split; [apply H|apply IH].
Qed.

Lemma encodeBMP_length img blob :
  encodeBMP img = Some blob ->
  length (blob_bytes blob)
  = (54 + id_height img * (3 * id_width img + padding_of (id_width img)))%nat.
Proof.
  intros Henc. destruct (encodeBMP_Some _ _ Henc) as (Hb & _ & _).
  rewrite Hb, !length_app, file_header_length, info_header_length.
  rewrite (flat_map_length_const _ _ _ (row_out_length img)), length_seq.
  lia.
Qed.

(** X4. [encodeBMP] never runs off its buffer: for every width, height and
    sample array, of whatever length and content, it returns a file of
    54 + H * (3 W + pad) bytes, each of them a byte; an empty image gives
    the 54 header bytes alone. *)
Theorem encodeBMP_always_returns (img : ImageData) :
  exists blob,
    encodeBMP img = Some blob
    /\ length (blob_bytes blob)
       = (54 + id_height img * (3 * id_width img + padding_of (id_width img)))%nat
    /\ Forall (fun b => 0 <= b < 256) (blob_bytes blob)
    /\ (id_height img = 0%nat -> length (blob_bytes blob) = 54%nat).
Proof.
  destruct (encodeBMP_total img) as [blob Henc]. exists blob.
  split; [done|]. destruct (encodeBMP_Some _ _ Henc) as (Hb & _ & _).
  pose proof (encodeBMP_length img blob Henc) as Hlen.
  split; [done|]. split.
  - rewrite Hb. unfold file_header, info_header.
    repeat (apply Forall_app; split);
      try apply le_bytes_range; try (repeat constructor; lia).
    apply Forall_flat_map. intros y. unfold row_out.
    apply Forall_app. split.
    + apply Forall_flat_map. intros x. unfold pixel_out.
      repeat constructor; apply Z.mod_pos_bound; lia.
    + apply List.Forall_forall. intros b Hb'. apply repeat_spec in Hb'. lia.
  - intros H0. rewrite Hlen, H0. lia.
Qed.

Lemma encodeBMP_always_returns_witness :
  exists blob, encodeBMP (mkImageData 3 0 []) = Some blob
               /\ length (blob_bytes blob) = 54%nat.
Proof.
  destruct (encodeBMP_always_returns (mkImageData 3 0 []))
    as (blob & Henc & _ & _ & Hempty).
  exists blob. split; [exact Henc|exact (Hempty eq_refl)].
Defined.

End BmpEncoderMore.

(** ** The input validator: exact acceptance, the quick variant *)

Section SignatureFacts.
Import SecurityConstants FileValidation.

(** X5. [detectImageType] finds exactly the format whose signature the
    content carries; a content carries the signature of at most one format,
    so the order of the table does not matter; and the answer is always one
    of the five types of the table. *)
Theorem detectImageType_exact (file : File) (mime : string) :
  (detectImageType file = Some mime <-> allowlisted (file_bytes file) mime)
  /\ (forall other, allowlisted (file_bytes file) mime ->
        allowlisted (file_bytes file) other -> other = mime)
  /\ (detectImageType file = Some mime ->
        In mime ["image/jpeg"; "image/png"; "image/webp"; "image/bmp";
                 "image/gif"]%string).
Proof.
  split; [split|split].
  - apply detectImageType_sound.
  - intros Ha. destruct (detectImageType file) as [found|] eqn:Hd.
    + f_equal. apply detectImageType_sound in Hd.
      by apply (allowlisted_unique (file_bytes file)).
    + by apply detectImageType_complete in Ha.
  - intros other H1 H2. by apply (allowlisted_unique (file_bytes file)).
  - intros Hd. apply detectImageType_sound, allowlisted_head in Hd.
    destruct Hd as [_ [[-> _]|[[-> _]|[[-> _]|[[-> _]|[-> _]]]]]]; simpl; tauto.
Qed.

Lemma detectImageType_exact_witness :
  detectImageType png_declared_jpeg = Some "image/png"%string
  /\ allowlisted (file_bytes png_declared_jpeg) "image/png".
Proof.
  assert (Hd : detectImageType png_declared_jpeg = Some "image/png"%string)
    by reflexivity.
  split; [exact Hd|].
  exact (proj1 (proj1 (detectImageType_exact png_declared_jpeg "image/png")) Hd).
Defined.

End SignatureFacts.

Section FileValidationMore.
Import SecurityConstants FileValidation.

Variable createImageBitmap : File -> option ImageBitmap.

Lemma checkDimensions_true (file : File) :
  checkDimensions createImageBitmap file = true
  <-> exists bitmap, createImageBitmap file = Some bitmap
        /\ bm_width bitmap <= MAX_WIDTH /\ bm_height bitmap <= MAX_HEIGHT
        /\ bm_width bitmap * bm_height bitmap <= MAX_PIXELS.
Proof.
  unfold checkDimensions. destruct (createImageBitmap file) as [bitmap|].
  - cbv zeta.
    destruct (Z.gtb_spec (bm_width bitmap) MAX_WIDTH);
      destruct (Z.gtb_spec (bm_height bitmap) MAX_HEIGHT); cbn [orb];
      try destruct (Z.gtb_spec (bm_width bitmap * bm_height bitmap) MAX_PIXELS);
      (split; [try discriminate; intros _; exists bitmap; repeat split; lia
              |intros (b & [= <-] & ? & ? & ?); try lia; done]).
  - split; [discriminate|]. by intros (b & [=] & _).
Qed.

(** X6. The exact acceptance condition of [validateImageFile]: a file is
    valid if and only if it is non-empty, at most MAX_FILE_SIZE bytes long
    (the limit itself is accepted), declared with a type starting with
    "image/", carries an allowlisted signature, and decodes to a bitmap of
    at most MAX_WIDTH by MAX_HEIGHT and MAX_PIXELS (bounds included).  A
    valid result has no error and reports the format of the signature; an
    invalid one has an error and no detected type. *)
Theorem validateImageFile_valid_iff (file : File) :
  let result := validateImageFile createImageBitmap file in
  (isValid result = true
   <-> 0 < file_size file <= MAX_FILE_SIZE
       /\ String.prefix "image/" (file_type file) = true
       /\ (exists mime, allowlisted (file_bytes file) mime)
       /\ (exists bitmap, createImageBitmap file = Some bitmap
             /\ bm_width bitmap <= MAX_WIDTH /\ bm_height bitmap <= MAX_HEIGHT
             /\ bm_width bitmap * bm_height bitmap <= MAX_PIXELS))
  /\ (isValid result = true ->
        error result = None
        /\ exists mime, detectedType result = Some mime
                        /\ allowlisted (file_bytes file) mime)
  /\ (isValid result = false ->
        detectedType result = None /\ is_Some (error result)).
Proof.
  intros result.
  assert (Hsize : 0 <= file_size file) by (unfold file_size; lia).
  assert (Hcases :
    (file_size file = 0 \/ file_size file > MAX_FILE_SIZE
     \/ String.prefix "image/" (file_type file) = false
     \/ detectImageType file = None
     \/ checkDimensions createImageBitmap file = false) /\ isValid result = false
      /\ detectedType result = None /\ is_Some (error result)
    \/ (0 < file_size file <= MAX_FILE_SIZE
        /\ String.prefix "image/" (file_type file) = true
        /\ checkDimensions createImageBitmap file = true
        /\ exists mime, detectImageType file = Some mime
             /\ result = {| isValid := true; error := None;
                            detectedType := Some mime |})).
  { unfold result, validateImageFile.
    destruct (Z.eqb_spec (file_size file) 0) as [H0|H0];
      [left; cbn; split; [tauto|by eauto]|].
    destruct (Z.gtb_spec (file_size file) MAX_FILE_SIZE) as [Hg|Hg];
      [left; cbn; split; [lia|by eauto]|].
    destruct (String.prefix "image/" (file_type file)) eqn:Hp; cbn [negb];
      [|left; cbn; split; [tauto|by eauto]].
    destruct (detectImageType file) as [mime|] eqn:Hd;
      [|left; cbn; split; [tauto|by eauto]].
    destruct (checkDimensions createImageBitmap file) eqn:Hc; cbn [negb];
      [|left; cbn; split; [tauto|by eauto]].
    right. split; [lia|]. split; [done|]. split; [done|]. by exists mime. }
  split; [split|split].
  - intros Hv. destruct Hcases as [(_ & Hinv & _)|(Hs & Hp & Hc & mime & Hd & _)];
      [congruence|].
    split; [done|]. split; [done|]. split.
    + exists mime. by apply detectImageType_sound.
    + by apply checkDimensions_true.
  - intros (Hs & Hp & (mime & Ha) & Hb).
    destruct Hcases as [(Hbad & _)|(_ & _ & _ & m & _ & ->)]; [|done].
    exfalso. apply checkDimensions_true in Hb.
    destruct Hbad as [H|[H|[H|[H|H]]]]; try lia; try congruence.
    by apply (detectImageType_complete file mime).
  - intros Hv. destruct Hcases as [(_ & Hinv & _)|(_ & _ & _ & mime & Hd & ->)];
      [congruence|]. split; [done|]. exists mime. split; [done|].
    by apply detectImageType_sound.
  - intros Hv. destruct Hcases as [(_ & _ & Hd & He)|(_ & _ & _ & m & _ & Hr)];
      [done|]. rewrite Hr in Hv. discriminate.
Qed.

(** X7. A content shorter than two bytes is never accepted, whatever its
    declared type and whatever the decoder says. *)
Theorem validateImageFile_rejects_short (file : File) :
  (length (file_bytes file) < 2)%nat ->
  isValid (validateImageFile createImageBitmap file) = false
  /\ quickValidateImage file = false.
Proof.
  intros Hshort.
  assert (Hd : detectImageType file = None).
  { apply detectImageType_None. intros mime Ha.
    apply allowlisted_head in Ha. lia. }
  split.
  - unfold validateImageFile. rewrite Hd.
    destruct (_ =? _); [done|]. destruct (_ >? _); [done|].
    by destruct (negb _).
  - unfold quickValidateImage. rewrite Hd. by destruct (_ || _).
Qed.

(** X8. [quickValidateImage] is [validateImageFile] without the dimension
    probe: it answers true exactly when the full validation either accepts
    the file or rejects it for its dimensions alone. *)
Theorem quickValidateImage_spec (file : File) :
  quickValidateImage file = true
  <-> isValid (validateImageFile createImageBitmap file) = true
      \/ validateImageFile createImageBitmap file = reject dimension_error.
Proof.
  unfold quickValidateImage, validateImageFile.
  destruct (file_size file =? 0); cbn [orb negb andb].
  { rewrite orb_true_r. cbn. split; [discriminate|].
    intros [H|H]; [discriminate|]. vm_compute in H. discriminate. }
  destruct (file_size file >? MAX_FILE_SIZE).
  { rewrite !orb_true_r. cbn. split; [discriminate|].
    intros [H|H]; [discriminate|]. vm_compute in H. discriminate. }
  destruct (String.prefix "image/" (file_type file)); cbn [orb negb].
  2:{ split; [discriminate|]. intros [H|H]; [discriminate|].
      unfold reject, mime_error, dimension_error in H.
      injection H as H. cbn in H. discriminate. }
  destruct (detectImageType file) as [mime|].
  - split; [intros _|done].
    destruct (checkDimensions createImageBitmap file); cbn; tauto.
  - split; [discriminate|]. intros [H|H]; [discriminate|].
    vm_compute in H. discriminate.
Qed.

End FileValidationMore.

Lemma validateImageFile_valid_iff_witness :
  FileValidation.isValid
    (FileValidation.validateImageFile (decode_as 15000 3333) png_declared_jpeg)
  = true.
Proof.
  apply (proj1 (validateImageFile_valid_iff (decode_as 15000 3333)
                  png_declared_jpeg)).
  split; [vm_compute; split; [reflexivity|discriminate]|].
  split; [reflexivity|]. split.
  - exists "image/png"%string.
    by apply (detectImageType_sound png_declared_jpeg).
  - exists (mkImageBitmap 15000 3333). repeat split; vm_compute; discriminate.
Defined.

Lemma validateImageFile_rejects_short_witness :
  FileValidation.isValid
    (FileValidation.validateImageFile (decode_as 1 1) (mkFile "image/bmp"%string [66]))
  = false.
Proof.
  apply (validateImageFile_rejects_short (decode_as 1 1) (mkFile "image/bmp"%string [66])).
  simpl. lia.
Defined.

Lemma quickValidateImage_spec_witness :
  FileValidation.quickValidateImage png_declared_jpeg = true.
Proof.
  apply (proj2 (quickValidateImage_spec (decode_as 20000 20000) png_declared_jpeg)).
  right. reflexivity.
Defined.

(** ** sanitizeFilename *)

Section FilenameFacts.
Import Filename.

Lemma remove_dotdot_cons a b rest :
  remove_dotdot (a :: b :: rest)
  = if ((a =? dot) && (b =? dot))%N then remove_dotdot rest
    else a :: remove_dotdot (b :: rest).
Proof. reflexivity. Qed.

Lemma has_dotdot_cons a b rest :
  has_dotdot (a :: b :: rest)
  = ((a =? dot) && (b =? dot))%N || has_dotdot (b :: rest).
Proof. reflexivity. Qed.

Lemma remove_dotdot_head a rest :
  a <> dot -> exists out, remove_dotdot (a :: rest) = a :: out.
Proof.
  intros Ha. destruct rest as [|b rest]; [by exists []|].
  cbn [remove_dotdot]. destruct (N.eqb_spec a dot); [done|].
  cbn [andb]. by eexists.
Qed.

(** After the replacement no two dots are left side by side: a match
    removed never brings two dots together. *)
Lemma remove_dotdot_clean name : has_dotdot (remove_dotdot name) = false.
Proof.
  assert (H : forall n name, (length name <= n)%nat ->
                             has_dotdot (remove_dotdot name) = false).
  { clear name. induction n as [|n IH]; intros name Hlen.
    - destruct name; [done|simpl in Hlen; lia].
    - destruct name as [|a [|b rest]]; [done|done|].
      rewrite remove_dotdot_cons.
      pose proof (IH (b :: rest) ltac:(simpl in *; lia)) as Hrec.
      destruct (N.eqb_spec a dot) as [Ha|Ha]; cbn [andb].
      + destruct (N.eqb_spec b dot) as [Hb|Hb].
        * apply IH. simpl in Hlen. lia.
        * destruct (remove_dotdot_head b rest Hb) as [out Hout].
          rewrite Hout in *. rewrite has_dotdot_cons.
          by rewrite (proj2 (N.eqb_neq b dot) Hb), andb_false_r.
      + destruct (remove_dotdot (b :: rest)) as [|c out]; [done|].
        rewrite has_dotdot_cons.
        by rewrite (proj2 (N.eqb_neq a dot) Ha). }
  by apply (H (length name)).
Qed.

Lemma remove_dotdot_id name : has_dotdot name = false -> remove_dotdot name = name.
Proof.
  assert (H : forall n name, (length name <= n)%nat ->
                has_dotdot name = false -> remove_dotdot name = name).
  { clear name. induction n as [|n IH]; intros name Hlen Hno.
    - destruct name; [done|simpl in Hlen; lia].
    - destruct name as [|a [|b rest]]; [done|done|].
      rewrite has_dotdot_cons in Hno. apply orb_false_iff in Hno as [Hab Hrest].
      rewrite remove_dotdot_cons, Hab. f_equal.
      apply IH; [simpl in *; lia|done]. }
  by apply (H (length name)).
Qed.

Lemma has_dotdot_map (f : N -> N) name :
  (forall c, f c = dot <-> c = dot) ->
  has_dotdot (map f name) = has_dotdot name.
Proof.
  intros Hf.
  assert (He : forall c, (f c =? dot)%N = (c =? dot)%N).
  { intros c. destruct (N.eqb_spec (f c) dot) as [E|E], (N.eqb_spec c dot) as [E'|E'];
      try reflexivity; exfalso.
    - apply E'. by apply Hf.
    - apply E. by apply Hf. }
  induction name as [|a [|b rest] IH]; [done|done|].
  change (map f (a :: b :: rest)) with (f a :: f b :: map f rest).
  rewrite !has_dotdot_cons. change (f b :: map f rest) with (map f (b :: rest)).
  by rewrite IH, !He.
Qed.

Lemma has_dotdot_take n name :
  has_dotdot name = false -> has_dotdot (take n name) = false.
Proof.
  revert n. induction name as [|a [|b rest] IH]; intros n Hno.
  - by destruct n.
  - by destruct n as [|[|n]].
  - rewrite has_dotdot_cons in Hno. apply orb_false_iff in Hno as [Hab Hrest].
    destruct n as [|[|n]]; [done|done|].
    change (take (S (S n)) (a :: b :: rest)) with (a :: b :: take n rest).
    rewrite has_dotdot_cons, Hab. cbn [orb].
    exact (IH (S n) Hrest).
Qed.

Lemma is_safe_not_control c : is_safe c = true -> is_control c = false.
Proof.
  unfold is_safe, is_control. intros H.
  repeat match goal with
  | H : (_ || _) = true |- _ => apply orb_true_iff in H as [H|H]
  | H : (_ && _) = true |- _ => apply andb_true_iff in H as [? ?]
  | H : (_ <=? _)%N = true |- _ => apply N.leb_le in H
  | H : (_ =? _)%N = true |- _ => apply N.eqb_eq in H
  end;
  (apply orb_false_iff; split;
   [apply N.leb_gt; lia
   |apply andb_false_iff; left; apply N.leb_gt; lia]).
Qed.

Lemma filter_id {A} (p : A -> bool) (l : list A) :
  Forall (fun a => p a = true) l -> List.filter p l = l.
Proof.
  induction 1 as [|a l Ha _ IH]; [done|]. cbn. by rewrite Ha, IH.
Qed.

(** The name before the final test for an empty name or a single dot. *)
Lemma sanitize_body_spec (filename : list N) :
  let name1 := List.filter (fun c => negb (is_control c)) filename in
  let name2 := remove_dotdot name1 in
  let name3 := map (fun c => if is_safe c then c else underscore) name2 in
  let name4 := if (200 <? length name3)%nat then take 200 name3 else name3 in
  Forall (fun c => is_safe c = true) name4
  /\ (length name4 <= 200)%nat
  /\ has_dotdot name4 = false.
Proof.
  intros name1 name2 name3 name4.
  assert (H3 : Forall (fun c => is_safe c = true) name3).
  { unfold name3. apply Forall_map. apply Forall_forall. intros c _. cbn.
    destruct (is_safe c) eqn:Hc; [done|reflexivity]. }
  assert (D3 : has_dotdot name3 = false).
  { unfold name3. rewrite has_dotdot_map; [apply remove_dotdot_clean|].
    intros c. destruct (is_safe c) eqn:Hc; [done|].
    split; [discriminate|]. intros ->. discriminate. }
  unfold name4. destruct (Nat.ltb_spec 200 (length name3)).
  - split; [by apply Forall_take|]. split; [rewrite length_take; lia|].
    by apply has_dotdot_take.
  - done.
Qed.

Lemma sanitizeFilename_result (filename : list N) :
  let name := sanitizeFilename filename in
  Forall (fun c => is_safe c = true) name
  /\ (1 <= length name <= 200)%nat
  /\ has_dotdot name = false /\ name <> [dot].
Proof.
  intros name. unfold name, sanitizeFilename.
  destruct (sanitize_body_spec filename) as (Hs & Hl & Hd). cbv zeta in *.
  set (name4 := if (200 <? _)%nat then _ else _) in *. clearbody name4.
  destruct name4 as [|c [|c' rest]].
  - cbn. repeat split; try lia; try discriminate. repeat constructor.
  - cbn [length Nat.eqb orb is_single_dot].
    destruct (N.eqb_spec c dot) as [->|Hc].
    + repeat split; try (cbn; lia); try discriminate. repeat constructor.
    + repeat split; try done; try (cbn; lia). congruence.
  - cbn [length Nat.eqb orb is_single_dot].
    repeat split; try done; try (cbn in *; lia).
Qed.

(** X9. Whatever the input, [sanitizeFilename] returns a name of 1 to 200
    code units, all of them letters, digits, dot, underscore or hyphen (so
    no separator and no control character), which is not the single dot
    and in which no two dots follow each other. *)
Theorem sanitizeFilename_safe (filename : list N) :
  let name := sanitizeFilename filename in
  Forall (fun c => is_safe c = true) name
  /\ (1 <= length name <= 200)%nat
  /\ has_dotdot name = false
  /\ name <> [dot]
  /\ Forall (fun c => is_control c = false /\ c <> 47 /\ c <> 92)%N name.
Proof.
  intros name.
  destruct (sanitizeFilename_result filename) as (Hs & Hl & Hd & Hn).
  fold name in Hs, Hl, Hd, Hn. do 4 (split; [done|]).
  eapply Forall_impl; [exact Hs|]. intros c Hc. cbn beta in *.
  split; [by apply is_safe_not_control|].
  split; intros ->; discriminate.
Qed.

Lemma sanitizeFilename_fixpoint (name : list N) :
  Forall (fun c => is_safe c = true) name ->
  (1 <= length name <= 200)%nat ->
  has_dotdot name = false -> name <> [dot] ->
  sanitizeFilename name = name.
Proof.
  intros Hs Hl Hd Hn. unfold sanitizeFilename.
  rewrite filter_id
    by (eapply Forall_impl; [exact Hs|];
        intros c Hc; cbn beta; by rewrite is_safe_not_control).
  rewrite remove_dotdot_id by done.
  assert (Hmap : map (fun c => if is_safe c then c else underscore) name = name).
  { clear Hl Hd Hn. induction Hs as [|c l Hc _ IH]; [done|]. cbn.
    by rewrite Hc, IH. }
  rewrite Hmap.
  destruct (Nat.ltb_spec 200 (length name)); [lia|].
  destruct name as [|c [|c' rest]]; [simpl in Hl; lia| |done].
  cbn. destruct (N.eqb_spec c dot) as [->|]; [done|done].
Qed.

(** X10. [sanitizeFilename] leaves a name alone when it is already safe
    (1 to 200 allowed characters, no two dots in a row, not the single
    dot), and is therefore idempotent: sanitizing twice gives what
    sanitizing once gives. *)
Theorem sanitizeFilename_idempotent (filename : list N) :
  sanitizeFilename (sanitizeFilename filename) = sanitizeFilename filename
  /\ (Forall (fun c => is_safe c = true) filename ->
      (1 <= length filename <= 200)%nat ->
      has_dotdot filename = false -> filename <> [dot] ->
      sanitizeFilename filename = filename).
Proof.
  split; [|apply sanitizeFilename_fixpoint].
  destruct (sanitizeFilename_result filename) as (Hs & Hl & Hd & Hn).
  by apply sanitizeFilename_fixpoint.
Qed.

End FilenameFacts.

(** "../../etc/passwd" comes out as "__etc_passwd", and "a.b-c_1" is kept. *)
Example sanitizeFilename_traversal :
  Filename.sanitizeFilename
    [46; 46; 47; 46; 46; 47; 101; 116; 99; 47; 112; 97; 115; 115; 119; 100]%N
  = [95; 95; 101; 116; 99; 95; 112; 97; 115; 115; 119; 100]%N.
Proof. reflexivity. Qed.

Lemma sanitizeFilename_idempotent_witness :
  Filename.sanitizeFilename [97; 46; 98; 45; 99; 95; 49]%N
  = [97; 46; 98; 45; 99; 95; 49]%N.
Proof.
  apply (proj2 (sanitizeFilename_idempotent [97; 46; 98; 45; 99; 95; 49]%N)).
  - repeat constructor.
  - simpl. lia.
  - reflexivity.
  - discriminate.
Defined.

(** ** The transform engine: the other export paths, crops, precision *)

Section ImageProcessorMore.
Import SecurityConstants ImageProcessor.

Variable createImageBitmap : File -> option ImageBitmap.
Variable getContext : Z -> Z -> bool.
Variable getImageData : Canvas -> list Z.
Variable convertToBlob : Canvas -> string -> option Q -> option Blob.

Local Abbreviation processImage :=
  (processImage createImageBitmap getContext getImageData convertToBlob).
Local Abbreviation process_body := (process_body getContext getImageData convertToBlob).
Local Abbreviation export_stage := (export_stage getImageData convertToBlob).
Local Abbreviation export := (export convertToBlob).

(** Once the file decoded, the canvas fits and a context exists,
    [processImage] is its export stage between the drawing and the close. *)
Lemma processImage_stage file options bitmap tw th :
  createImageBitmap file = Some bitmap ->
  targetWidth options = Some tw -> targetHeight options = Some th ->
  tw * th <= MAX_PIXELS ->
  getContext tw th = true ->
  let canvas := mkCanvas tw th (drawn bitmap options tw th) in
  processImage file options
  = (EvDecoded bitmap
     :: EvNewCanvas tw th
     :: drawn bitmap options tw th ++ (export_stage canvas options).1
        ++ [EvClose bitmap],
     (export_stage canvas options).2).
Proof.
  intros Hb Hw Hh Hpx Hctx canvas.
  unfold ImageProcessor.processImage, decode. rewrite Hb. cbn [bind].
  unfold ImageProcessor.process_body. rewrite Hw, Hh.
  destruct (Z.gtb_spec (tw * th) MAX_PIXELS); [lia|].
  rewrite Hctx. unfold tell, bind. cbn [negb]. fold canvas.
  destruct (export_stage canvas options) as [log r]. cbn [finally fst snd app].
  by rewrite <- app_assoc.
Qed.

Lemma exports_stage_run file options bitmap tw th :
  createImageBitmap file = Some bitmap ->
  targetWidth options = Some tw -> targetHeight options = Some th ->
  tw * th <= MAX_PIXELS ->
  getContext tw th = true ->
  let canvas := mkCanvas tw th (drawn bitmap options tw th) in
  exports (processImage file options).1 = exports (export_stage canvas options).1
  /\ (processImage file options).2 = (export_stage canvas options).2.
Proof.
  intros Hb Hw Hh Hpx Hctx canvas.
  rewrite (processImage_stage file options bitmap tw th Hb Hw Hh Hpx Hctx).
  fold canvas. cbn [fst snd]. split; [|done].
  change (exports (EvDecoded bitmap :: EvNewCanvas tw th
            :: drawn bitmap options tw th
            ++ (export_stage canvas options).1 ++ [EvClose bitmap]))
    with (exports (drawn bitmap options tw th ++ (export_stage canvas options).1
                   ++ [EvClose bitmap])).
  rewrite !exports_app, drawn_exports. cbn. by rewrite app_nil_r.
Qed.

(** X11. The BMP path: for format bmp, whatever the quality and the
    target size asked for, [processImage] fills the canvas white, draws
    the source region (the rounded crop when it has a positive width and
    height, the full bitmap otherwise) over the whole canvas, reads the
    pixels of that canvas back and returns what [encodeBMP] makes of them:
    a file of type image/bmp and 54 + H * (3 W + pad) bytes for the clamped
    W x H.  The canvas encoder is never called and the bitmap is closed
    last. *)
Theorem processImage_bmp (file : File) (options : ProcessOptions)
  (bitmap : ImageBitmap) (tw th : Z) :
  createImageBitmap file = Some bitmap ->
  targetWidth options = Some tw -> targetHeight options = Some th ->
  tw * th <= MAX_PIXELS ->
  getContext tw th = true ->
  format options = bmp ->
  let region :=
    match crop options with
    | Some c =>
        if Qltb 0 (crop_width c) && Qltb 0 (crop_height c)
        then (Math_round (crop_x c), Math_round (crop_y c),
              Math_round (crop_width c), Math_round (crop_height c))
        else (0, 0, bm_width bitmap, bm_height bitmap)
    | None => (0, 0, bm_width bitmap, bm_height bitmap)
    end in
  let '(sx, sy, sw, sh) := region in
  let ops := [EvFillRect "white" 0 0 tw th;
              EvDrawRegion bitmap sx sy sw sh 0 0 tw th] in
  let canvas := mkCanvas tw th ops in
  let W := Z.to_nat tw in
  let H := Z.to_nat th in
  let imageData := mkImageData W H (getImageData canvas) in
  let run := processImage file options in
  exists blob,
    BmpEncoder.encodeBMP imageData = Some blob
    /\ run.2 = Returned blob
    /\ blob_type blob = "image/bmp"%string
    /\ blob_size blob = Z.of_nat (54 + H * (3 * W + BmpEncoder.padding_of W))
    /\ length (blob_bytes blob) = (54 + H * (3 * W + BmpEncoder.padding_of W))%nat
    /\ exports run.1 = []
    /\ run.1 = [EvDecoded bitmap; EvNewCanvas tw th] ++ ops
               ++ [EvGetImageData 0 0 tw th; EvClose bitmap].
Proof.
  intros Hb Hw Hh Hpx Hctx Hfmt region.
  assert (Hregion : source_region bitmap options = region) by reflexivity.
  destruct region as [[[sx sy] sw] sh]. intros ops canvas W H imageData run.
  assert (Hdrawn : drawn bitmap options tw th = ops).
  { unfold drawn. rewrite Hregion, Hfmt. reflexivity. }
  unfold run.
  rewrite (processImage_stage file options bitmap tw th Hb Hw Hh Hpx Hctx).
  rewrite Hdrawn. fold canvas.
  unfold ImageProcessor.export_stage. rewrite Hfmt. cbn [format_eqb].
  unfold tell, bind. cbn [cv_width cv_height canvas]. fold canvas W H imageData.
  destruct (encodeBMP_total imageData) as [blob Henc].
  pose proof (encodeBMP_length imageData blob Henc) as Hlen.
  destruct (encodeBMP_Some imageData blob Henc) as (_ & Hsize & Htype).
  rewrite Henc. cbn [ret fst snd app]. exists blob.
  split; [done|]. split; [done|]. split; [done|].
  split; [by rewrite Hsize, Hlen|]. split; [exact Hlen|].
  split; reflexivity.
Qed.

(** X12. The plain export: when the format is not bmp and the size search
    does not apply (PNG, no target, or a target that is not positive),
    [processImage] calls the canvas encoder exactly once, with quality / 100
    for jpeg and webp and with no quality for png, and returns its blob or
    fails with its failure. *)
Theorem processImage_single_export (file : File) (options : ProcessOptions)
  (bitmap : ImageBitmap) (tw th : Z) :
  createImageBitmap file = Some bitmap ->
  targetWidth options = Some tw -> targetHeight options = Some th ->
  tw * th <= MAX_PIXELS ->
  getContext tw th = true ->
  format options <> bmp ->
  (format options = png
   \/ forall kb, targetSizeKB options = Some kb -> (kb <= 0)%Q) ->
  let canvas := mkCanvas tw th (drawn bitmap options tw th) in
  let mimeType := String.append "image/" (format_name (format options)) in
  let q := match format options with
           | png => None
           | _ => Some (quality options / 100)%Q
           end in
  let run := processImage file options in
  exports run.1 = [q]
  /\ run.2 = match convertToBlob canvas mimeType q with
             | Some blob => Returned blob
             | None => Threw ExportFailed
             end.
Proof.
  intros Hb Hw Hh Hpx Hctx Hfmt Hskip canvas mimeType q run.
  destruct (exports_stage_run file options bitmap tw th Hb Hw Hh Hpx Hctx)
    as [He Hr].
  fold canvas run in He, Hr. rewrite He, Hr.
  assert (Hstage : export_stage canvas options = export canvas mimeType q).
  { unfold ImageProcessor.export_stage. cbv zeta. fold mimeType.
    destruct (format options) eqn:Ef; try done; cbn [format_eqb orb];
      destruct (targetSizeKB options) as [kb|] eqn:Ekb; try reflexivity;
      try (rewrite andb_false_r; reflexivity).
    all: destruct Hskip as [Hpng|Hle]; [discriminate|].
    all: rewrite (proj2 (Qltb_ge 0 kb) (Hle kb eq_refl)); reflexivity. }
  rewrite Hstage. unfold ImageProcessor.export.
  by destruct (convertToBlob canvas mimeType q).
Qed.

(** X13. A crop whose width or height is not positive is ignored: the run
    is the run without any crop, on the full bitmap. *)
Theorem processImage_ignores_empty_crop (file : File) (options : ProcessOptions)
  (c : PixelCrop) :
  crop options = Some c ->
  ~ (0 < crop_width c /\ 0 < crop_height c)%Q ->
  processImage file options = processImage file (without_crop options).
Proof.
  intros Hc Hempty.
  assert (Hregion : forall bitmap,
            source_region bitmap options
            = source_region bitmap (without_crop options)).
  { intros bitmap. unfold source_region. rewrite Hc. cbn [crop without_crop].
    destruct (Qltb 0 (crop_width c)) eqn:Hw; [|done].
    destruct (Qltb 0 (crop_height c)) eqn:Hh; [|done].
    exfalso. apply Hempty. split; by apply Qltb_lt. }
  unfold ImageProcessor.processImage. destruct (decode _ file) as [log [bitmap|e]];
    [|done]. cbn [bind].
  assert (Hbody : process_body bitmap file options
                  = process_body bitmap file (without_crop options)).
  { unfold ImageProcessor.process_body, drawn. cbn [targetWidth targetHeight].
    change (targetWidth (without_crop options)) with (targetWidth options).
    change (targetHeight (without_crop options)) with (targetHeight options).
    change (format (without_crop options)) with (format options).
    destruct (targetWidth options) as [tw|]; [|done].
    destruct (targetHeight options) as [th|]; [|done].
    by rewrite Hregion. }
  by rewrite Hbody.
Qed.

End ImageProcessorMore.

(** *** How close the size search gets *)

Section SizeSearchMore.
Import SecurityConstants ImageProcessor.

Variable convertToBlob : Canvas -> string -> option Q -> option Blob.

Local Abbreviation sizeSearch := (sizeSearch convertToBlob).
Local Abbreviation search_loop := (search_loop convertToBlob).
Local Abbreviation size_at := (size_at convertToBlob).

Section SearchPrecision.

Variable canvas : Canvas.
Variable mimeType : string.
Variable targetBytes : Q.

Hypothesis encoder_total :
  forall q, is_Some (convertToBlob canvas mimeType (Some q)).

Local Abbreviation conv := (fun q => convertToBlob canvas mimeType (Some q)).
Local Abbreviation under := (under_budget (size_at canvas mimeType) targetBytes).

(** After [n] rounds the interval is 2^n times narrower; its upper end is
    the initial one or a probe that was not under budget; its lower end is
    the initial one, with the initial [bestBlob], or a probe under budget
    whose blob is [bestBlob]. *)
Lemma search_loop_interval n : forall lo hi best,
  (lo <= hi)%Q ->
  exists log lo' hi' best',
    search_loop canvas mimeType targetBytes n lo hi best
    = (log, Returned (lo', hi', best'))
    /\ ((hi' - lo') * inject_Z (2 ^ Z.of_nat n) == hi - lo)%Q
    /\ (lo <= lo')%Q /\ (hi' <= hi)%Q
    /\ (hi' = hi \/ under hi' = false)
    /\ ((lo' = lo /\ best' = best) \/ (under lo' = true /\ best' = conv lo')).
Proof.
  induction n as [|n IH]; intros lo hi best Hle.
  { exists [], lo, hi, best. split; [done|]. split.
    - change (inject_Z (2 ^ Z.of_nat 0)) with 1%Q. ring.
    - split; [lra|]. split; [lra|]. split; by left. }
  cbn [ImageProcessor.search_loop]. cbv zeta.
  set (mid := ((lo + hi) / 2)%Q).
  assert (Hmid : (lo <= mid)%Q /\ (mid <= hi)%Q).
  { unfold mid, Qdiv. change (/ 2)%Q with (1 # 2)%Q. split; lra. }
  assert (Hhalf : (2 * (hi - mid) == hi - lo)%Q /\ (2 * (mid - lo) == hi - lo)%Q).
  { unfold mid. split; field. }
  unfold ImageProcessor.export.
  destruct (encoder_total mid) as [b Hb]. rewrite Hb. cbn [bind].
  assert (Hpow : (inject_Z (2 ^ Z.of_nat (S n)) == 2 * inject_Z (2 ^ Z.of_nat n))%Q).
  { rewrite Nat2Z.inj_succ, Z.pow_succ_r by lia. by rewrite inject_Z_mult. }
  destruct (Qltb (inject_Z (blob_size b)) targetBytes) eqn:Hcmp.
  - destruct (IH mid hi (Some b) (proj2 Hmid))
      as (log & lo' & hi' & best' & Hrun & Hw & Hl & Hh & Hhi & Hlo).
    rewrite Hrun. cbn [fst snd]. eexists _, lo', hi', best'. split; [reflexivity|].
    split.
    { rewrite Hpow.
      transitivity (2 * ((hi' - lo') * inject_Z (2 ^ Z.of_nat n)))%Q; [ring|].
      rewrite Hw. apply Hhalf. }
    split; [lra|]. split; [lra|]. split; [exact Hhi|].
    right. destruct Hlo as [[-> ->]|Hlo]; [|exact Hlo].
    split; [|by rewrite Hb].
    unfold under_budget, ImageProcessor.size_at. by rewrite Hb.
  - destruct (IH lo mid best (proj1 Hmid))
      as (log & lo' & hi' & best' & Hrun & Hw & Hl & Hh & Hhi & Hlo).
    rewrite Hrun. cbn [fst snd]. eexists _, lo', hi', best'. split; [reflexivity|].
    split.
    { rewrite Hpow.
      transitivity (2 * ((hi' - lo') * inject_Z (2 ^ Z.of_nat n)))%Q; [ring|].
      rewrite Hw. apply Hhalf. }
    split; [lra|]. split; [lra|]. split; [|exact Hlo].
    right. destruct Hhi as [->|Hhi]; [|exact Hhi].
    unfold under_budget, ImageProcessor.size_at. by rewrite Hb.
Qed.

End SearchPrecision.

(** X14. With an encoder that answers at every quality and whose output
    does not shrink when the quality grows, and a full-quality export over
    the target, the search returns the export at some quality q in
    [0.01, 1) such that every export at a quality of q + 99/3200 or more is
    at or over the target: the five rounds locate the budget to within
    0.031 of quality.  The returned blob is under the target unless q is
    the floor 0.01. *)
Theorem sizeSearch_precision (canvas : Canvas) (mimeType : string) (kb : Q)
  (first : Blob) :
  (forall q, is_Some (convertToBlob canvas mimeType (Some q))) ->
  (forall q1 q2 b1 b2, (q1 <= q2)%Q ->
     convertToBlob canvas mimeType (Some q1) = Some b1 ->
     convertToBlob canvas mimeType (Some q2) = Some b2 ->
     blob_size b1 <= blob_size b2) ->
  convertToBlob canvas mimeType (Some 1%Q) = Some first ->
  (kb * 1024 < inject_Z (blob_size first))%Q ->
  exists q blob,
    (sizeSearch canvas mimeType kb).2 = Returned blob
    /\ convertToBlob canvas mimeType (Some q) = Some blob
    /\ ((1 # 100) <= q)%Q /\ (q < 1)%Q
    /\ (q = (1 # 100)%Q \/ (inject_Z (blob_size blob) < kb * 1024)%Q)
    /\ (forall q' b', (q + (99 # 3200) <= q')%Q ->
          convertToBlob canvas mimeType (Some q') = Some b' ->
          (kb * 1024 <= inject_Z (blob_size b'))%Q).
Proof.
  intros Htotal Hmono Hfirst Hover.
  unfold ImageProcessor.sizeSearch. cbv zeta. unfold ImageProcessor.export at 1.
  rewrite Hfirst. cbn [bind].
  destruct (Qle_bool (inject_Z (blob_size first)) (kb * 1024)) eqn:Hle.
  { apply Qle_bool_iff in Hle. lra. }
  destruct (search_loop_interval canvas mimeType (kb * 1024)%Q Htotal 5
              (1 # 100)%Q 1%Q None ltac:(lra))
    as (log & lo' & hi' & best' & Hrun & Hw & Hl & Hh & Hhi & Hlo).
  rewrite Hrun. cbn [bind fst snd].
  change (inject_Z (2 ^ Z.of_nat 5)) with 32%Q in Hw.
  assert (Hgap : (hi' == lo' + (99 # 3200))%Q) by lra.
  assert (Hupper : forall q' b', (hi' <= q')%Q ->
            convertToBlob canvas mimeType (Some q') = Some b' ->
            (kb * 1024 <= inject_Z (blob_size b'))%Q).
  { intros q' b' Hq Hb'. destruct Hhi as [->|Hhi].
    - pose proof (Hmono _ _ _ _ Hq Hfirst Hb') as Hs.
      rewrite Zle_Qle in Hs. lra.
    - destruct (Htotal hi') as [bh Hbh].
      unfold under_budget, ImageProcessor.size_at in Hhi. rewrite Hbh in Hhi.
      cbn in Hhi. apply Qltb_ge in Hhi.
      pose proof (Hmono _ _ _ _ Hq Hbh Hb') as Hs.
      rewrite Zle_Qle in Hs. lra. }
  assert (Hlow : ((1 # 100) <= lo')%Q /\ (lo' < 1)%Q) by (split; lra).
  destruct Hlo as [[-> ->]|[Hunder ->]].
  - destruct (Htotal (1 # 100)%Q) as [low Hlow']. unfold ImageProcessor.export.
    rewrite Hlow'. cbn [ret snd]. exists (1 # 100)%Q, low.
    split; [done|]. split; [done|]. split; [lra|]. split; [lra|].
    split; [by left|]. intros q' b' Hq. apply Hupper. lra.
  - destruct (Htotal lo') as [best Hbest]. rewrite Hbest. cbn [ret snd].
    exists lo', best. split; [done|]. split; [done|].
    split; [tauto|]. split; [tauto|]. split.
    + right. unfold under_budget, ImageProcessor.size_at in Hunder.
      rewrite Hbest in Hunder. cbn in Hunder. by apply Qltb_lt.
    + intros q' b' Hq. apply Hupper. lra.
Qed.

End SizeSearchMore.

(** *** mergeImages: failures and placement *)

Section MergeImagesMore.
Import SecurityConstants ImageProcessor.

Variable createImageBitmap : File -> option ImageBitmap.
Variable getContext : Z -> Z -> bool.
Variable convertToBlob : Canvas -> string -> option Q -> option Blob.

Local Abbreviation mergeImages := (mergeImages createImageBitmap getContext convertToBlob).

Lemma decode_all_failure good pre bad rest :
  Forall2 (fun f b => createImageBitmap f = Some b) good pre ->
  createImageBitmap bad = None ->
  decode_all createImageBitmap (good ++ bad :: rest) = (pre, false).
Proof.
  intros Hgood Hbad. induction Hgood as [|f b good pre Hf _ IH].
  - cbn. by rewrite Hbad.
  - cbn [app decode_all]. by rewrite Hf, IH.
Qed.

(** X15. A file that does not decode stops [mergeImages] at once: the
    files before it were decoded and are closed again, the files after it
    are never decoded, no canvas is created and nothing is exported; the
    call fails with the decoder's error. *)
Theorem mergeImages_decode_failure (good rest : list File) (bad : File)
  (pre : list ImageBitmap) :
  Forall2 (fun f b => createImageBitmap f = Some b) good pre ->
  createImageBitmap bad = None ->
  mergeImages (good ++ bad :: rest)
  = (map EvDecoded pre ++ map EvClose pre, Threw DecodeFailed).
Proof.
  intros Hgood Hbad. unfold ImageProcessor.mergeImages.
  rewrite length_app. cbn [length].
  destruct (Nat.eqb_spec (length good + S (length rest)) 0) as [E|_]; [lia|].
  by rewrite (decode_all_failure good pre bad rest Hgood Hbad).
Qed.

(** X16. No two images of a merge overlap: for two different positions of
    the grid, and bitmaps no larger than the cell, the rectangles drawn at
    their placements are apart horizontally or vertically. *)
Theorem placement_disjoint (cols maxCellW maxCellH i j : Z)
  (bi bj : ImageBitmap) :
  0 < cols -> 0 <= i -> 0 <= j -> i <> j ->
  0 <= bm_width bi <= maxCellW -> 0 <= bm_height bi <= maxCellH ->
  0 <= bm_width bj <= maxCellW -> 0 <= bm_height bj <= maxCellH ->
  let pi := placement cols maxCellW maxCellH i bi in
  let pj := placement cols maxCellW maxCellH j bj in
  (pi.1 + inject_Z (bm_width bi) <= pj.1)%Q
  \/ (pj.1 + inject_Z (bm_width bj) <= pi.1)%Q
  \/ (pi.2 + inject_Z (bm_height bi) <= pj.2)%Q
  \/ (pj.2 + inject_Z (bm_height bj) <= pi.2)%Q.
Proof.
  intros Hcols Hi Hj Hij Hwi Hhi Hwj Hhj pi pj.
  unfold pi, pj, placement. cbv zeta. cbn [fst snd].
  pose proof (Z.div_mod i cols ltac:(lia)) as Hdi.
  pose proof (Z.div_mod j cols ltac:(lia)) as Hdj.
  pose proof (Z.mod_pos_bound i cols Hcols) as Hmi.
  pose proof (Z.mod_pos_bound j cols Hcols) as Hmj.
  set (ci := i mod cols) in *. set (cj := j mod cols) in *.
  set (ri := i / cols) in *. set (rj := j / cols) in *.
  destruct (centered_in_cell (ci * maxCellW) maxCellW (bm_width bi) ltac:(lia))
    as (Hxi1 & Hxi2 & _).
  destruct (centered_in_cell (cj * maxCellW) maxCellW (bm_width bj) ltac:(lia))
    as (Hxj1 & Hxj2 & _).
  destruct (centered_in_cell (ri * maxCellH) maxCellH (bm_height bi) ltac:(lia))
    as (Hyi1 & Hyi2 & _).
  destruct (centered_in_cell (rj * maxCellH) maxCellH (bm_height bj) ltac:(lia))
    as (Hyj1 & Hyj2 & _).
  cbv zeta in *.
  assert (Hcase : ci < cj \/ cj < ci \/ ri < rj \/ rj < ri) by nia.
  destruct Hcase as [H|[H|[H|H]]].
  - left. eapply Qle_trans; [exact Hxi2|]. eapply Qle_trans; [|exact Hxj1].
    rewrite <- Zle_Qle. nia.
  - right; left. eapply Qle_trans; [exact Hxj2|]. eapply Qle_trans; [|exact Hxi1].
    rewrite <- Zle_Qle. nia.
  - right; right; left. eapply Qle_trans; [exact Hyi2|].
    eapply Qle_trans; [|exact Hyj1]. rewrite <- Zle_Qle. nia.
  - right; right; right. eapply Qle_trans; [exact Hyj2|].
    eapply Qle_trans; [|exact Hyi1]. rewrite <- Zle_Qle. nia.
Qed.

End MergeImagesMore.

(** ** The scheduler: what a waiting job waits for, bursts, resets *)

Section WorkerManagerMore.
Import WorkerManager.

Variable clonable : WorkerMessage -> bool.

Local Abbreviation dispatch := (dispatch clonable).
Local Abbreviation enqueueJob := (enqueueJob clonable).
Local Abbreviation step := (step clonable).
Local Abbreviation run := (run clonable).
Local Abbreviation onmessage := (onmessage clonable).

(** Called with at most one slot free, or with at most one job queued,
    [processNextJob] leaves the queue empty or the slots full. *)
Lemma dispatch_conserves queue : forall st,
  MAX_CONCURRENCY - 1 <= activeJobs st \/ (length queue <= 1)%nat ->
  jobQueue (dispatch queue st).1 = []
  \/ MAX_CONCURRENCY <= activeJobs (dispatch queue st).1.
Proof.
  induction queue as [|job rest IH]; intros st Hpre; [by left|].
  cbn [WorkerManager.dispatch].
  destruct (Z.ltb_spec (activeJobs st) MAX_CONCURRENCY) as [Hlt|Hge].
  2:{ right. cbn. lia. }
  unfold getWorker. cbn [worker activeJobs jobQueue pendingOperations].
  destruct (worker st) as [inbox|]; cbn [fst snd activeJobs jobQueue worker
    pendingOperations]; destruct (clonable (job_message job)).
  all: try (cbn [fst post activeJobs jobQueue];
            destruct Hpre as [Hpre|Hpre];
            [right; lia | left; destruct rest; [done|cbn in Hpre; lia]]).
  all: match goal with
       | |- context [dispatch ?q ?s] =>
           specialize (IH s); destruct (dispatch q s) as [st5 effs]
       end; cbn [fst snd activeJobs] in *; apply IH;
       (destruct Hpre as [Hpre|Hpre]; [left; lia | right; cbn in Hpre; lia]).
Qed.

Lemma step_conserves st input :
  (jobQueue st <> [] -> MAX_CONCURRENCY <= activeJobs st) ->
  jobQueue (step st input).1 <> [] ->
  MAX_CONCURRENCY <= activeJobs (step st input).1.
Proof.
  intros Hinv.
  assert (Hcase : forall queue s,
            MAX_CONCURRENCY - 1 <= activeJobs s \/ (length queue <= 1)%nat ->
            jobQueue (dispatch queue s).1 <> [] ->
            MAX_CONCURRENCY <= activeJobs (dispatch queue s).1).
  { intros queue s Hpre Hne. by destruct (dispatch_conserves queue s Hpre). }
  destruct input as [message promise|response| |]; cbn [WorkerManager.step].
  - unfold WorkerManager.enqueueJob, processNextJob. cbn [jobQueue].
    apply Hcase. cbn [activeJobs].
    destruct (jobQueue st) as [|j q]; [right; cbn; lia|].
    left. specialize (Hinv ltac:(done)). lia.
  - destruct (worker st) as [inbox|]; [|exact Hinv].
    unfold WorkerManager.onmessage. cbn [pendingOperations answered].
    destruct (map_get _ _) as [pending|]; [|exact Hinv].
    unfold processNextJob. cbn [jobQueue].
    match goal with
    | |- context [dispatch ?q ?s] =>
        pose proof (Hcase q s) as Hd; destruct (dispatch q s) as [st2 effs]
    end.
    cbn [fst snd activeJobs] in *. apply Hd.
    unfold answered. cbn [activeJobs jobQueue].
    destruct (jobQueue st) as [|j q]; [right; cbn; lia|].
    left. specialize (Hinv ltac:(done)). lia.
  - destruct (worker st); [|exact Hinv]. by cbn.
  - by cbn.
Qed.

(** X17. A job waits only while both slots are taken: in every reachable
    state with a non-empty queue, [activeJobs] is MAX_CONCURRENCY. *)
Theorem queued_only_when_full (st : State) :
  reachable clonable st ->
  jobQueue st <> [] ->
  activeJobs st = MAX_CONCURRENCY.
Proof.
  intros Hreach Hne.
  destruct (reachable_slots_ok clonable st Hreach) as [_ Hle].
  enough (MAX_CONCURRENCY <= activeJobs st) by lia.
  clear Hle. revert Hne. induction Hreach as [|st input _ IH _]; [done|].
  by apply step_conserves.
Qed.

(** With both slots taken, submissions only lengthen the queue. *)
Lemma run_submit_full jobs : forall st,
  MAX_CONCURRENCY <= activeJobs st ->
  run st (map (fun j => Submit (job_message j) (job_promise j)) jobs)
  = ({| activeJobs := activeJobs st; jobQueue := jobQueue st ++ jobs;
        worker := worker st; pendingOperations := pendingOperations st |}, []).
Proof.
  induction jobs as [|[m p] jobs IH]; intros st Hfull.
  { cbn. rewrite app_nil_r. by destruct st. }
  cbn [map WorkerManager.run WorkerManager.step job_message job_promise].
  unfold WorkerManager.enqueueJob, processNextJob. cbn [jobQueue].
  destruct (jobQueue st ++ [mkJob m p]) as [|j q] eqn:Eq.
  { by destruct (jobQueue st). }
  cbn [WorkerManager.dispatch activeJobs].
  destruct (Z.ltb_spec (activeJobs st) MAX_CONCURRENCY) as [Hlt|_]; [lia|].
  rewrite IH by done. cbn [activeJobs jobQueue worker pendingOperations app].
  change (j :: q ++ jobs) with ((j :: q) ++ jobs).
  by rewrite <- Eq, <- app_assoc.
Qed.

(** A submission that finds a free slot and an empty queue, and can be
    handed over, goes to the worker at once. *)
Lemma enqueueJob_free st m p :
  activeJobs st < MAX_CONCURRENCY ->
  jobQueue st = [] ->
  clonable m = true ->
  enqueueJob m p st
  = ({| activeJobs := activeJobs st + 1; jobQueue := [];
        worker := Some (default [] (worker st) ++ [m]);
        pendingOperations := map_set (msg_id m) p (pendingOperations st) |},
     Dispatch (mkJob m p)
     :: match worker st with Some _ => [] | None => [Spawn] end ++ [Post m]).
Proof.
  intros Hfree Hq Hm.
  unfold WorkerManager.enqueueJob, processNextJob. cbn [jobQueue]. rewrite Hq.
  cbn [app WorkerManager.dispatch activeJobs].
  destruct (Z.ltb_spec (activeJobs st) MAX_CONCURRENCY) as [_|Hge]; [|lia].
  unfold getWorker. cbn [worker job_message job_promise].
  by destruct (worker st) as [inbox|]; cbn [fst snd activeJobs jobQueue worker
    pendingOperations]; rewrite Hm.
Qed.

(** X18. A burst of submissions to the idle module: the first two jobs,
    when they can be handed over, are posted to one worker created for the
    first; every later job waits in the queue, in submission order, and
    nothing is posted or settled for it. *)
Theorem burst_fills_two_slots (a b : Job) (rest : list Job) :
  clonable (job_message a) = true ->
  clonable (job_message b) = true ->
  run initial
    (map (fun j => Submit (job_message j) (job_promise j)) (a :: b :: rest))
  = ({| activeJobs := 2; jobQueue := rest;
        worker := Some [job_message a; job_message b];
        pendingOperations :=
          map_set (msg_id (job_message b)) (job_promise b)
            [(msg_id (job_message a), job_promise a)] |},
     [Dispatch a; Spawn; Post (job_message a);
      Dispatch b; Post (job_message b)]).
Proof.
  intros Ha Hb. destruct a as [ma pa], b as [mb pb].
  cbn [job_message job_promise] in *.
  cbn [map WorkerManager.run WorkerManager.step job_message job_promise].
  rewrite (enqueueJob_free initial ma pa) by (done || (cbn; unfold MAX_CONCURRENCY; lia)).
  cbn [initial worker activeJobs pendingOperations default app map_set].
  rewrite (enqueueJob_free _ mb pb) by (done || (cbn; unfold MAX_CONCURRENCY; lia)).
  cbn [worker activeJobs pendingOperations default app].
  rewrite run_submit_full by (cbn; unfold MAX_CONCURRENCY; lia).
  cbn [activeJobs jobQueue worker pendingOperations app]. reflexivity.
Qed.

(** X19. [terminateWorker] settles nothing and forgets every promise the
    module held, queued or pending: whatever happens afterwards, such a
    promise is never resolved nor rejected, unless it is submitted again. *)
Theorem terminateWorker_abandons_promises (st : State) (later : list Input)
  (p : Promise) :
  In p (promises st) ->
  ~ In p (map job_promise (submitted later)) ->
  ~ In p (settled ((terminateWorker st).2
                   ++ (run (terminateWorker st).1 later).2)).
Proof.
  intros _ Hfresh Hin. unfold settled in Hin.
  rewrite flat_map_app, in_app_iff in Hin. destruct Hin as [Hin|Hin].
  - unfold terminateWorker in Hin. cbn [snd] in Hin.
    by destruct (worker st).
  - apply (run_promises clonable) in Hin. destruct Hin as [Hin|Hin]; [|done].
    by cbn in Hin.
Qed.

Lemma map_get_set_same {V} key (v : V) m :
  map_get key (map_set key v m) = Some v.
Proof.
  induction m as [|[k w] m IH]; cbn.
  - by rewrite String.eqb_refl.
  - destruct (String.eqb k key) eqn:E; cbn; by rewrite E.
Qed.

Lemma map_get_entry {V} key (m : list (string * V)) v :
  map_get key m = Some v -> exists k, In (k, v) m.
Proof.
  induction m as [|[k w] m IH]; [done|]. cbn.
  destruct (String.eqb k key).
  - intros [= ->]. exists k. by left.
  - intros H. destruct (IH H) as [k' Hk]. exists k'. by right.
Qed.

(** X20. A request whose hand-off to the worker throws is rejected and
    gives its slot back, but its entry stays in [pendingOperations]: a
    later crash of the worker rejects the same promise a second time. *)
Theorem failed_handoff_stays_pending (st : State) (m : WorkerMessage)
  (p : Promise) :
  clonable m = false ->
  activeJobs st < MAX_CONCURRENCY ->
  jobQueue st = [] ->
  let st' := (enqueueJob m p st).1 in
  let effects := (enqueueJob m p st).2 in
  rejected effects = [(p, clone_reason)]
  /\ posted effects = []
  /\ activeJobs st' = activeJobs st
  /\ map_get (msg_id m) (pendingOperations st') = Some p
  /\ In (p, crash_reason) (rejected (onerror st').2).
Proof.
  intros Hm Hfree Hq st' effects.
  assert (Hrun : exists spawned w,
            (spawned = [] \/ spawned = [Spawn])
            /\ enqueueJob m p st
               = ({| activeJobs := activeJobs st + 1 - 1; jobQueue := [];
                     worker := Some w;
                     pendingOperations :=
                       map_set (msg_id m) p (pendingOperations st) |},
                  Dispatch (mkJob m p) :: spawned ++ [Reject p clone_reason])).
  { unfold WorkerManager.enqueueJob, processNextJob. cbn [jobQueue]. rewrite Hq.
    cbn [app WorkerManager.dispatch activeJobs].
    destruct (Z.ltb_spec (activeJobs st) MAX_CONCURRENCY) as [_|Hge]; [|lia].
    unfold getWorker. cbn [worker job_message job_promise].
    destruct (worker st) as [inbox|]; cbn [fst snd activeJobs jobQueue worker
      pendingOperations]; rewrite Hm.
    - exists [], inbox. split; [by left|done].
    - exists [Spawn], []. split; [by right|done]. }
  destruct Hrun as (spawned & w & Hsp & Hrun).
  unfold st', effects. rewrite Hrun. cbn [fst snd activeJobs pendingOperations].
  split. { destruct Hsp as [->| ->]; reflexivity. }
  split. { destruct Hsp as [->| ->]; reflexivity. }
  split; [lia|]. split; [apply map_get_set_same|].
  destruct (onerror_spec
              {| activeJobs := activeJobs st + 1 - 1; jobQueue := [];
                 worker := Some w;
                 pendingOperations :=
                   map_set (msg_id m) p (pendingOperations st) |})
    as (_ & Hrej & _).
  rewrite Hrej. cbn [pendingOperations].
  destruct (map_get_entry (msg_id m) _ p
              (map_get_set_same (msg_id m) p (pendingOperations st))) as [k Hk].
  apply in_map_iff. exists (k, p). by split.
Qed.

Lemma spawned_app l1 l2 : spawned (l1 ++ l2) = (spawned l1 + spawned l2)%nat.
Proof. unfold spawned. by rewrite List.filter_app, length_app. Qed.

Lemma terminated_app l1 l2 :
  terminated (l1 ++ l2) = (terminated l1 + terminated l2)%nat.
Proof. unfold terminated. by rewrite List.filter_app, length_app. Qed.

Lemma settle_lifecycle p response :
  spawned (settle p response) = 0%nat /\ terminated (settle p response) = 0%nat.
Proof. unfold settle. by destruct (resp_type response), (result response). Qed.

Lemma dispatch_lifecycle queue : forall st,
  (spawned (dispatch queue st).2 + live st)%nat = live (dispatch queue st).1
  /\ terminated (dispatch queue st).2 = 0%nat.
Proof.
  induction queue as [|job rest IH]; intros st; [done|].
  cbn [WorkerManager.dispatch].
  destruct (activeJobs st <? MAX_CONCURRENCY); [|done].
  unfold getWorker, live. cbn [worker activeJobs jobQueue pendingOperations].
  destruct (worker st) as [inbox|] eqn:Hw;
    cbn [fst snd activeJobs jobQueue worker pendingOperations];
    destruct (clonable (job_message job)); try done.
  all: match goal with
       | |- context [dispatch ?q ?s] =>
           destruct (IH s) as [IH1 IH2]; destruct (dispatch q s) as [st5 effs]
       end; cbn [fst snd] in *; unfold live in IH1; cbn [worker] in IH1;
       unfold spawned, terminated in *; cbn [List.filter app length] in *;
       split; [lia|done].
Qed.

Lemma step_lifecycle st input :
  (spawned (step st input).2 + live st
   = terminated (step st input).2 + live (step st input).1)%nat.
Proof.
  destruct input as [message promise|response| |]; cbn [WorkerManager.step].
  - unfold WorkerManager.enqueueJob, processNextJob. cbn [jobQueue].
    match goal with
    | |- context [dispatch ?q ?s] => destruct (dispatch_lifecycle q s) as [H1 H2]
    end.
    rewrite H2. unfold live in *. cbn [worker] in H1. lia.
  - destruct (worker st) as [inbox|] eqn:Hw; [|done].
    unfold WorkerManager.onmessage. cbn [pendingOperations answered].
    destruct (map_get _ _) as [pending|].
    2:{ unfold live, answered. cbn [fst snd worker]. rewrite Hw. reflexivity. }
    unfold processNextJob. cbn [jobQueue].
    match goal with
    | |- context [dispatch ?q ?s] =>
        destruct (dispatch_lifecycle q s) as [H1 H2];
        destruct (dispatch q s) as [st2 effs]
    end.
    cbn [fst snd] in *. destruct (settle_lifecycle pending response) as [S1 S2].
    rewrite spawned_app, terminated_app, S1, S2, H2.
    unfold live, answered in *. cbn [worker] in H1. rewrite Hw in *.
    cbn [option_map] in H1. lia.
  - destruct (worker st) as [inbox|] eqn:Hw; [|done].
    unfold onerror, live. cbn [fst snd initial worker]. rewrite Hw.
    rewrite spawned_app, terminated_app.
    assert (Hm : forall l : list (string * Promise),
              spawned (map (fun entry => Reject entry.2 crash_reason) l) = 0%nat
              /\ terminated (map (fun entry => Reject entry.2 crash_reason) l) = 0%nat).
    { induction l as [|x l [I1 I2]]; [done|]. by cbn. }
    destruct (Hm (pendingOperations st)) as [-> ->]. done.
  - unfold terminateWorker, live. cbn [fst snd initial worker].
    by destruct (worker st).
Qed.

(** X21. Workers are never leaked: along any inputs, from any state, the
    workers created together with the one held at the start are the
    workers terminated together with the one held at the end.  Since the
    module holds at most one, a second worker is created only after the
    first was terminated. *)
Theorem workers_never_leak (st : State) (inputs : list Input) :
  (spawned (run st inputs).2 + live st
   = terminated (run st inputs).2 + live (run st inputs).1)%nat
  /\ (terminated (run st inputs).2 <= spawned (run st inputs).2 + live st
      <= terminated (run st inputs).2 + 1)%nat.
Proof.
  enough (H : (spawned (run st inputs).2 + live st
               = terminated (run st inputs).2 + live (run st inputs).1)%nat).
  { split; [exact H|]. rewrite H. unfold live. destruct (worker _); lia. }
  revert st. induction inputs as [|input inputs IH]; intros st; [done|].
  cbn [WorkerManager.run].
  pose proof (step_lifecycle st input) as Hs.
  destruct (step st input) as [st1 effs1]. specialize (IH st1).
  destruct (run st1 inputs) as [st2 effs2]. cbn [fst snd] in *.
  rewrite spawned_app, terminated_app. lia.
Qed.

End WorkerManagerMore.

(** ** The worker's handler, and a request from call to settlement *)

Section ImageWorkerFacts.
Import ImageProcessor.

Variable createImageBitmap : File -> option ImageBitmap.
Variable getContext : Z -> Z -> bool.
Variable getImageData : Canvas -> list Z.
Variable convertToBlob : Canvas -> string -> option Q -> option Blob.
Variable exception_text : Error -> string.
Variable readable : File -> bool.

Local Abbreviation handle :=
  (ImageWorker.onmessage createImageBitmap getContext getImageData
     convertToBlob exception_text readable).
Local Abbreviation validateImageFile_run :=
  (ImageWorker.validateImageFile_run createImageBitmap readable).
Local Abbreviation checkDimensions_run :=
  (ImageWorker.checkDimensions_run createImageBitmap).
Local Abbreviation processImage :=
  (processImage createImageBitmap getContext getImageData convertToBlob).
Local Abbreviation validateImageFile :=
  (FileValidation.validateImageFile createImageBitmap).

Lemma handle_response_id message :
  WorkerManager.resp_id (handle message).2 = ImageWorker.id message.
Proof.
  unfold ImageWorker.onmessage.
  destruct (ImageWorker.type message), (ImageWorker.file message) as [f|];
    try done.
  - destruct (ImageWorker.options message) as [o|]; [|done].
    by destruct (processImage f o) as [log [blob|e]].
  - by destruct (validateImageFile_run f) as [log [result|e]].
Qed.

Lemma handle_settles message promise :
  WorkerManager.settled (WorkerManager.settle promise (handle message).2)
  = [promise].
Proof.
  unfold ImageWorker.onmessage.
  destruct (ImageWorker.type message), (ImageWorker.file message) as [f|];
    try done.
  - destruct (ImageWorker.options message) as [o|]; [|done].
    by destruct (processImage f o) as [log [blob|e]].
  - by destruct (validateImageFile_run f) as [log [result|e]].
Qed.




Lemma settle_reason promise response reason :
  In (promise, reason)
    (WorkerManager.rejected (WorkerManager.settle promise response)) ->
  reason <> EmptyString.
Proof.
  unfold WorkerManager.settle.
  destruct (WorkerManager.resp_type response), (WorkerManager.result response);
    cbn; try tauto.
  all: intros [[= <-]|[]].
  all: destruct (WorkerManager.error response) as [e|]; [|done].
  all: destruct (String.eqb_spec e EmptyString); done.
Qed.

(** X22. Whatever the message, the worker's handler posts a response that
    carries the message's id and that the manager's [onmessage] turns into
    exactly one settlement of the promise; a rejection never has an empty
    reason. *)
Theorem worker_response_settles_once (message : ImageWorker.WorkerMessage)
  (promise : WorkerManager.Promise) :
  let response := (handle message).2 in
  WorkerManager.resp_id response = ImageWorker.id message
  /\ WorkerManager.settled (WorkerManager.settle promise response) = [promise]
  /\ forall reason,
       In (promise, reason)
         (WorkerManager.rejected (WorkerManager.settle promise response)) ->
       reason <> EmptyString.
Proof.
  intros response. split; [apply handle_response_id|].
  split; [apply handle_settles|]. intros reason. apply settle_reason.
Qed.


(** X24. A PROCESS request with a file and options is settled by the
    outcome of [processImage]: resolved with its blob, or rejected with the
    message of its error, replaced by a fixed text when that message is
    empty; the browser calls are those of [processImage]. *)
Theorem process_request_outcome (message : ImageWorker.WorkerMessage)
  (f : File) (o : ProcessOptions) (promise : WorkerManager.Promise) :
  ImageWorker.type message = WorkerManager.PROCESS ->
  ImageWorker.file message = Some f ->
  ImageWorker.options message = Some o ->
  (handle message).1 = (processImage f o).1
  /\ WorkerManager.settle promise (handle message).2
     = match (processImage f o).2 with
       | Returned blob => [WorkerManager.Resolve promise (WorkerManager.VBlob blob)]
       | Threw e =>
           let text := ImageWorker.error_message exception_text e in
           [WorkerManager.Reject promise
              (if String.eqb text EmptyString
               then "Unknown processing error"%string else text)]
       end.
Proof.
  intros Ht Hf Ho. unfold ImageWorker.onmessage. rewrite Ht, Hf, Ho.
  by destruct (processImage f o) as [log [blob|e]].
Qed.

(** X25. One request from call to settlement: [processImageAsync] (or
    [validateImageAsync]) on the idle module posts the message to a new
    worker; when the response the worker's handler computes for the message
    of that id comes back, the promise is settled exactly once, the slot is
    free again and nothing is left pending. *)
Theorem request_round_trip (clonable : WorkerManager.WorkerMessage -> bool)
  (request : WorkerManager.WorkerMessage) (promise : WorkerManager.Promise)
  (message : ImageWorker.WorkerMessage) :
  clonable request = true ->
  ImageWorker.id message = WorkerManager.msg_id request ->
  let response := (handle message).2 in
  let out := WorkerManager.run clonable WorkerManager.initial
               [WorkerManager.Submit request promise;
                WorkerManager.Response response] in
  out.1 = {| WorkerManager.activeJobs := 0; WorkerManager.jobQueue := [];
             WorkerManager.worker := Some [];
             WorkerManager.pendingOperations := [] |}
  /\ out.2 = [WorkerManager.Dispatch (WorkerManager.mkJob request promise);
              WorkerManager.Spawn; WorkerManager.Post request]
             ++ WorkerManager.settle promise response
  /\ WorkerManager.settled out.2 = [promise].
Proof.
  intros Hc Hid response out.
  assert (Hrid : WorkerManager.resp_id response = WorkerManager.msg_id request).
  { unfold response. by rewrite handle_response_id. }
  assert (Hout : out = ({| WorkerManager.activeJobs := 0;
                           WorkerManager.jobQueue := [];
                           WorkerManager.worker := Some [];
                           WorkerManager.pendingOperations := [] |},
                        [WorkerManager.Dispatch (WorkerManager.mkJob request promise);
                         WorkerManager.Spawn; WorkerManager.Post request]
                        ++ WorkerManager.settle promise response)).
  { unfold out. cbn [WorkerManager.run WorkerManager.step].
    rewrite (enqueueJob_free clonable WorkerManager.initial request promise)
      by (done || (cbn; unfold WorkerManager.MAX_CONCURRENCY; lia)).
    cbn [WorkerManager.initial WorkerManager.worker WorkerManager.activeJobs
      WorkerManager.pendingOperations default app WorkerManager.map_set].
    unfold WorkerManager.onmessage, WorkerManager.answered.
    cbn [WorkerManager.worker WorkerManager.pendingOperations option_map
      WorkerManager.activeJobs WorkerManager.jobQueue
      WorkerManager.answer WorkerManager.map_get WorkerManager.map_delete].
    rewrite Hrid, !String.eqb_refl.
    unfold WorkerManager.processNextJob.
    cbn [WorkerManager.jobQueue WorkerManager.dispatch fst snd
      WorkerManager.activeJobs WorkerManager.worker
      WorkerManager.pendingOperations app].
    rewrite ?app_nil_r. reflexivity. }
  rewrite Hout. cbn [fst snd]. split; [done|]. split; [done|].
  change (WorkerManager.settled
            ([WorkerManager.Dispatch (WorkerManager.mkJob request promise);
              WorkerManager.Spawn; WorkerManager.Post request]
             ++ WorkerManager.settle promise response))
    with (WorkerManager.settled (WorkerManager.settle promise response)).
  apply handle_settles.
Qed.

End ImageWorkerFacts.

(** ** Instances of the further properties *)

Lemma processImage_bmp_witness :
  exists blob,
    (ImageProcessor.processImage (decode_as 10 10) context_ok no_samples
       (encoder_of_size (fun _ => 2048)) png_declared_jpeg bmp_options).2
    = ImageProcessor.Returned blob
    /\ blob_size blob = 78.
Proof.
  destruct (processImage_bmp (decode_as 10 10) context_ok no_samples
              (encoder_of_size (fun _ => 2048)) png_declared_jpeg bmp_options
              (mkImageBitmap 10 10) 3 2
              eq_refl eq_refl eq_refl ltac:(vm_compute; discriminate)
              eq_refl eq_refl)
    as (blob & _ & Hret & _ & Hsize & _).
  exists blob. split; [exact Hret|exact Hsize].
Defined.

Lemma processImage_single_export_witness :
  ImageProcessor.exports
    (ImageProcessor.processImage (decode_as 10 10) context_ok no_samples
       (encoder_of_size (fun _ => 2048)) png_declared_jpeg png_options).1
  = [None].
Proof.
  exact (proj1 (processImage_single_export (decode_as 10 10) context_ok no_samples
                  (encoder_of_size (fun _ => 2048)) png_declared_jpeg png_options
                  (mkImageBitmap 10 10) 10 10
                  eq_refl eq_refl eq_refl ltac:(vm_compute; discriminate)
                  eq_refl ltac:(discriminate) (or_introl eq_refl))).
Defined.

Lemma processImage_ignores_empty_crop_witness :
  ImageProcessor.processImage (decode_as 10 10) context_ok no_samples
    (encoder_of_size (fun _ => 2048)) png_declared_jpeg empty_crop_options
  = ImageProcessor.processImage (decode_as 10 10) context_ok no_samples
      (encoder_of_size (fun _ => 2048)) png_declared_jpeg
      (without_crop empty_crop_options).
Proof.
  apply (processImage_ignores_empty_crop (decode_as 10 10) context_ok no_samples
           (encoder_of_size (fun _ => 2048)) png_declared_jpeg empty_crop_options
           (ImageProcessor.mkCrop 5 5 0 10) eq_refl).
  intros [H _]. vm_compute in H. discriminate H.
Defined.

Lemma sizeSearch_precision_witness :
  exists q blob,
    (ImageProcessor.sizeSearch (encoder_of_size (fun _ => 2048))
       (ImageProcessor.mkCanvas 10 10 []) "image/jpeg"%string 1).2
    = ImageProcessor.Returned blob
    /\ ((1 # 100) <= q)%Q.
Proof.
  destruct (sizeSearch_precision (encoder_of_size (fun _ => 2048))
              (ImageProcessor.mkCanvas 10 10 []) "image/jpeg"%string 1
              (mkBlob "image/jpeg"%string 2048 []))
    as (q & blob & Hret & _ & Hq & _).
  - intros q. by eexists.
  - intros q1 q2 b1 b2 _ [= <-] [= <-]. simpl. lia.
  - reflexivity.
  - reflexivity.
  - exists q, blob. split; [exact Hret|exact Hq].
Defined.

Lemma mergeImages_decode_failure_witness :
  ImageProcessor.mergeImages decode_images context_ok
    (encoder_of_size (fun _ => 2048))
    ([png_declared_jpeg] ++ text_file :: [png_declared_jpeg])
  = (map ImageProcessor.EvDecoded [mkImageBitmap 10 10]
     ++ map ImageProcessor.EvClose [mkImageBitmap 10 10],
     ImageProcessor.Threw ImageProcessor.DecodeFailed).
Proof.
  apply (mergeImages_decode_failure decode_images context_ok
           (encoder_of_size (fun _ => 2048))
           [png_declared_jpeg] [png_declared_jpeg] text_file
           [mkImageBitmap 10 10]).
  - repeat constructor.
  - reflexivity.
Defined.

Lemma placement_disjoint_witness :
  let pi := ImageProcessor.placement 2 10 10 0 (mkImageBitmap 10 4) in
  let pj := ImageProcessor.placement 2 10 10 1 (mkImageBitmap 6 10) in
  (pi.1 + inject_Z 10 <= pj.1)%Q
  \/ (pj.1 + inject_Z 6 <= pi.1)%Q
  \/ (pi.2 + inject_Z 4 <= pj.2)%Q
  \/ (pj.2 + inject_Z 10 <= pi.2)%Q.
Proof.
  apply (placement_disjoint 2 10 10 0 1 (mkImageBitmap 10 4) (mkImageBitmap 6 10));
    simpl; lia.
Defined.

Lemma queued_only_when_full_witness :
  WorkerManager.activeJobs busy_state = WorkerManager.MAX_CONCURRENCY.
Proof.
  apply (queued_only_when_full clonable_payload busy_state busy_state_reachable).
  vm_compute. discriminate.
Defined.

Lemma burst_fills_two_slots_witness :
  WorkerManager.jobQueue
    (WorkerManager.run clonable_payload WorkerManager.initial
       [WorkerManager.Submit (request "r1" 1) 1%nat;
        WorkerManager.Submit (request "r2" 1) 2%nat;
        WorkerManager.Submit (request "r3" 0) 3%nat]).1
  = [WorkerManager.mkJob (request "r3" 0) 3%nat].
Proof.
  exact (f_equal (fun out => WorkerManager.jobQueue out.1)
           (burst_fills_two_slots clonable_payload
              (WorkerManager.mkJob (request "r1" 1) 1%nat)
              (WorkerManager.mkJob (request "r2" 1) 2%nat)
              [WorkerManager.mkJob (request "r3" 0) 3%nat] eq_refl eq_refl)).
Defined.

Lemma terminateWorker_abandons_promises_witness :
  ~ In 3%nat
      (WorkerManager.settled
         ((WorkerManager.terminateWorker busy_state).2
          ++ (WorkerManager.run clonable_payload
                (WorkerManager.terminateWorker busy_state).1
                [WorkerManager.Submit (request "c" 1) 9%nat]).2)).
Proof.
  apply (terminateWorker_abandons_promises clonable_payload busy_state
           [WorkerManager.Submit (request "c" 1) 9%nat] 3%nat).
  - vm_compute. tauto.
  - vm_compute. intros [H|[]]. discriminate H.
Defined.

Lemma failed_handoff_stays_pending_witness :
  WorkerManager.rejected
    (WorkerManager.enqueueJob clonable_payload (request "a" 0) 7%nat
       WorkerManager.initial).2
  = [(7%nat, WorkerManager.clone_reason)].
Proof.
  exact (proj1 (failed_handoff_stays_pending clonable_payload
                  WorkerManager.initial (request "a" 0) 7%nat
                  eq_refl ltac:(reflexivity) eq_refl)).
Defined.

Lemma worker_response_settles_once_witness :
  WorkerManager.resp_id
    (ImageWorker.onmessage (decode_as 10 10) context_ok no_samples
       (encoder_of_size (fun _ => 2048)) browser_text always_readable
       process_message).2
  = "r1"%string.
Proof.
  exact (proj1 (worker_response_settles_once (decode_as 10 10) context_ok
                  no_samples (encoder_of_size (fun _ => 2048)) browser_text
                  always_readable process_message 5%nat)).
Defined.


Lemma process_request_outcome_witness :
  (ImageWorker.onmessage (decode_as 10 10) context_ok no_samples
     (encoder_of_size (fun _ => 2048)) browser_text always_readable
       process_message).1
  = (ImageProcessor.processImage (decode_as 10 10) context_ok no_samples
       (encoder_of_size (fun _ => 2048)) png_declared_jpeg search_options).1.
Proof.
  exact (proj1 (process_request_outcome (decode_as 10 10) context_ok no_samples
                  (encoder_of_size (fun _ => 2048)) browser_text
                  always_readable process_message png_declared_jpeg
                  search_options 5%nat
                  eq_refl eq_refl eq_refl)).
Defined.

Lemma request_round_trip_witness :
  WorkerManager.settled
    (WorkerManager.run always_clonable WorkerManager.initial
       [WorkerManager.Submit (request "r1" 1) 5%nat;
        WorkerManager.Response
          (ImageWorker.onmessage (decode_as 10 10) context_ok no_samples
             (encoder_of_size (fun _ => 2048)) browser_text always_readable
       process_message).2]).2
  = [5%nat].
Proof.
  exact (proj2 (proj2 (request_round_trip (decode_as 10 10) context_ok no_samples
                         (encoder_of_size (fun _ => 2048)) browser_text
                         always_readable always_clonable (request "r1" 1)
                         5%nat process_message
                         eq_refl eq_refl))).
Defined.
